(** * dkse-erp: stock summary view and CSV item-master import

    A shallow embedding of the two computations of the repository that
    carry logic:

    - the [stock_summary] SQL view (calculated quantity, validation
      status, consumption rates and days of cover), and
    - the CSV import of [ItemMasterCSVUpload.tsx] ([parseCSV],
      [validateRow], [executeUpload]) together with
      [processOpeningStock] of the opening-stock page.

    Conventions.  JavaScript strings are modelled as [string] (a sequence
    of 8-bit code units); [trim] and [toLowerCase] act on the ASCII
    range.  A JavaScript object used as a record of CSV columns is a
    [gmap string string]; a missing property ([undefined]) is [None].
    SQL [numeric] values are exact rationals ([Qc]) and [NULL] is
    [None]; sums, differences, comparisons and [ROUND] are exact on
    them.  The quotient of two [numeric] values is not: the days-of-cover
    columns divide as PostgreSQL does ([Sql.div]), rounding the quotient
    to a result scale that depends on the operands' display scales, and
    the two quantities they divide are stored with their display
    scale. *)

From stdpp Require Import gmap strings list fin_maps numbers.
From Stdlib Require Import Ascii String QArith Qcanon Qround.

Local Open Scope string_scope.
Local Open Scope nat_scope.
Local Open Scope list_scope.

Abbreviation length := List.length.

(** ** JavaScript string primitives *)

Module JS.

Definition dquote : ascii := ascii_of_nat 34.
Definition comma : ascii := ascii_of_nat 44.
Definition newline : ascii := ascii_of_nat 10.

(** White space removed by [String.prototype.trim] (ASCII range). *)
Definition is_space (c : ascii) : bool :=
  let n := nat_of_ascii c in
  (n =? 32)%nat || ((9 <=? n)%nat && (n <=? 13)%nat).

Fixpoint trimStart (s : string) : string :=
  match s with
  | EmptyString => EmptyString
  | String c r => if is_space c then trimStart r else s
  end.

(** [trimEnd] by recursion on the string: a character is kept when it
    is not white space or when something is kept after it. *)
Fixpoint trimEnd (s : string) : string :=
  match s with
  | EmptyString => EmptyString
  | String c r =>
      match trimEnd r with
      | EmptyString => if is_space c then EmptyString else String c EmptyString
      | r' => String c r'
      end
  end.

Definition trim (s : string) : string := trimEnd (trimStart s).

(** [s.split(sep)] for a one-character separator: never empty. *)
Fixpoint split (sep : ascii) (s : string) : list string :=
  match s with
  | EmptyString => [EmptyString]
  | String c r =>
      if Ascii.eqb c sep then EmptyString :: split sep r
      else match split sep r with
           | [] => [String c EmptyString]
           | w :: ws => String c w :: ws
           end
  end.

(** [s.replace(/^"|"$/g, '')]: one leading and one trailing quote. *)
Definition strip_leading_quote (s : string) : string :=
  match s with
  | String c r => if Ascii.eqb c dquote then r else s
  | EmptyString => EmptyString
  end.

Fixpoint strip_trailing_quote (s : string) : string :=
  match s with
  | EmptyString => EmptyString
  | String c EmptyString => if Ascii.eqb c dquote then EmptyString else s
  | String c r => String c (strip_trailing_quote r)
  end.

Definition strip_quotes (s : string) : string :=
  strip_trailing_quote (strip_leading_quote s).

Definition lower_char (c : ascii) : ascii :=
  let n := nat_of_ascii c in
  if (65 <=? n)%nat && (n <=? 90)%nat then ascii_of_nat (n + 32) else c.

Fixpoint toLowerCase (s : string) : string :=
  match s with
  | EmptyString => EmptyString
  | String c r => String (lower_char c) (toLowerCase r)
  end.

Definition quoted (s : string) : string :=
  String dquote s +:+ String dquote EmptyString.

(** Truthiness of a string, and of a possibly undefined string. *)
Definition truthy (s : string) : bool :=
  match s with EmptyString => false | _ => true end.

Definition truthy_opt (o : option string) : bool :=
  match o with Some s => truthy s | None => false end.

(** [v || d] on a possibly undefined string. *)
Definition or_else (o : option string) (d : string) : string :=
  match o with
  | Some s => if truthy s then s else d
  | None => d
  end.

Definition is_digit (c : ascii) : bool :=
  let n := nat_of_ascii c in (48 <=? n)%nat && (n <=? 57)%nat.

Fixpoint starts_with (p s : string) : bool :=
  match p, s with
  | EmptyString, _ => true
  | String a p', String b s' => Ascii.eqb a b && starts_with p' s'
  | String _ _, EmptyString => false
  end.

(** [isNaN(parseFloat(s))]: [parseFloat] skips leading white space and
    reads the longest prefix that is a decimal literal (optional sign,
    then [Infinity], digits, or a dot followed by a digit); it is [NaN]
    exactly when there is no such prefix. *)
Definition isNaN_parseFloat (s : string) : bool :=
  let t := trimStart s in
  let u := match t with
           | String c r =>
               if Ascii.eqb c (ascii_of_nat 43) || Ascii.eqb c (ascii_of_nat 45)
               then r else t
           | EmptyString => t
           end in
  negb (starts_with "Infinity" u
        || match u with
           | String c r =>
               is_digit c
               || (Ascii.eqb c (ascii_of_nat 46)
                   && match r with String d _ => is_digit d | _ => false end)
           | EmptyString => false
           end).

(** The number [parseFloat(s)], kept symbolic: the import passes it on
    to the datastore and never computes with it. *)
Record number := parseFloat { numeral : string }.

End JS.

(** ** The CSV parser of [ItemMasterCSVUpload.tsx] *)

Record CSVData := mkCSVData {
  headers : list string;
  rows : list (list string)
}.

(** A thrown [Error] carries its message. *)
Inductive thrown :=
| ErrorObject (message : string)
| OtherValue.

(** State of the character loop of [parseCSV]: finished cells, the cell
    being read, and the quote mode. *)
Fixpoint tokenize (chars : string) (cells : list string) (current : string)
    (inQuotes : bool) : list string :=
  match chars with
  | EmptyString => cells ++ [JS.strip_quotes (JS.trim current)]
  | String char rest =>
      if Ascii.eqb char JS.dquote then
        tokenize rest cells current (negb inQuotes)
      else if Ascii.eqb char JS.comma && negb inQuotes then
        tokenize rest (cells ++ [JS.strip_quotes (JS.trim current)]) EmptyString inQuotes
      else
        tokenize rest cells (current +:+ String char EmptyString) inQuotes
  end.

Definition parse_row (line : string) : list string :=
  tokenize line [] EmptyString false.

Definition parse_header (line : string) : list string :=
  (fun h => JS.strip_quotes (JS.trim h)) <$> JS.split JS.comma line.

Definition non_blank (line : string) : bool := JS.truthy (JS.trim line).

Definition parseCSV (text : string) : thrown + CSVData :=
  let lines := List.filter non_blank (JS.split JS.newline text) in
  match lines with
  | [] => inl (ErrorObject "CSV file is empty")
  | first :: others =>
      inr {| headers := parse_header first; rows := parse_row <$> others |}
  end.

(** A line of quoted fields, as a CSV writer produces it, and the fields
    it can carry: free of quote characters and of outer white space. *)
Fixpoint no_quote (s : string) : bool :=
  match s with
  | EmptyString => true
  | String c r => negb (Ascii.eqb c JS.dquote) && no_quote r
  end.

Definition plain_field (f : string) : Prop :=
  no_quote f = true ∧ JS.trim f = f.

Fixpoint quoted_line (f : string) (fs : list string) : string :=
  match fs with
  | [] => JS.quoted f
  | g :: gs => JS.quoted f +:+ String JS.comma (quoted_line g gs)
  end.

(** ** Row validation of [ItemMasterCSVUpload.tsx] *)

Module Category.
Record t := mk { id : string; category_name : string }.
End Category.

Module ValidationError.
Record t := mk {
  row : nat;
  field : string;
  message : string;
  data : gmap string string
}.
End ValidationError.

(** [!v?.trim()] for a possibly undefined column value. *)
Definition blank (o : option string) : bool :=
  match o with
  | None => true
  | Some s => negb (JS.truthy (JS.trim s))
  end.

(** [categories.find(cat => cat.category_name.toLowerCase() === name.toLowerCase())] *)
Definition find_category (categories : list Category.t) (name : string)
    : option Category.t :=
  List.find (fun cat =>
    String.eqb (JS.toLowerCase (Category.category_name cat)) (JS.toLowerCase name))
    categories.

(** The same search with [name?.toLowerCase()]: nothing equals [undefined]. *)
Definition find_category_opt (categories : list Category.t) (name : option string)
    : option Category.t :=
  match name with
  | Some n => find_category categories n
  | None => None
  end.

Definition allowed_status (s : string) : bool :=
  bool_decide (JS.toLowerCase s ∈ ["active"; "inactive"]).

Definition validateRow (categories : list Category.t)
    (rowData : gmap string string) (rowIndex : nat) : list ValidationError.t :=
  let err f m := ValidationError.mk (rowIndex + 2) f m rowData in
  let errors := [] in
  let errors :=
    if blank (rowData !! "item_name")
    then errors ++ [err "item_name" "Item name is required"]
    else errors in
  let errors :=
    if blank (rowData !! "category_name")
    then errors ++ [err "category_name" "Category name is required"]
    else
      match find_category_opt categories (rowData !! "category_name") with
      | Some _ => errors
      | None =>
          errors ++ [err "category_name"
            ("Category '" +:+ default "undefined" (rowData !! "category_name")
               +:+ "' does not exist")]
      end in
  let errors :=
    if blank (rowData !! "uom")
    then errors ++ [err "uom" "UOM is required"]
    else errors in
  let errors :=
    if JS.truthy_opt (rowData !! "gsm")
       && JS.isNaN_parseFloat (default "" (rowData !! "gsm"))
    then errors ++ [err "gsm" "GSM must be a valid number"]
    else errors in
  let errors :=
    if JS.truthy_opt (rowData !! "status")
       && negb (allowed_status (default "" (rowData !! "status")))
    then errors ++ [err "status"
            ("Status must be either " +:+ JS.quoted "active" +:+ " or "
               +:+ JS.quoted "inactive")]
    else errors in
  errors.

(** [obj[key] = cell] on an object created as [{}], for a string
    [cell].  The assignment creates or overwrites the property [key] of
    the object, except for the key [__proto__]: that one is the accessor
    inherited from [Object.prototype], whose setter ignores a value that
    is not an object, so the object is left as it was. *)
Definition set_property (key cell : string) (obj : gmap string string)
    : gmap string string :=
  if String.eqb key "__proto__" then obj else <[key := cell]> obj.

(** [csvData.headers.forEach((header, index) =>
      obj[header.toLowerCase()] = row[index] || '')] *)
Definition row_object (headers : list string) (row : list string)
    : gmap string string :=
  foldl (fun obj '(index, header) =>
           set_property (JS.toLowerCase header) (JS.or_else (row !! index) "") obj)
        ∅ (imap pair headers).

(** The validation pass of [handleFileChange]:
    [dataObjects.forEach((rowData, index) => allErrors.push(...validateRow(rowData, index)))] *)
Definition validateRows (categories : list Category.t)
    (dataObjects : list (gmap string string)) : list ValidationError.t :=
  foldl (fun allErrors '(index, rowData) =>
           allErrors ++ validateRow categories rowData index)
        [] (imap pair dataObjects).

Definition requiredHeaders : list string := ["item_name"; "category_name"; "uom"].

Definition missingHeaders (csvData : CSVData) : list string :=
  List.filter (fun header =>
    negb (existsb (fun h => String.eqb (JS.toLowerCase h) (JS.toLowerCase header))
            (headers csvData)))
    requiredHeaders.

(** The validation rules in the words of the specification: the fields
    a row violates, in the order of the rules. *)
Definition category_known (categories : list Category.t) (name : string) : bool :=
  existsb (fun cat =>
    String.eqb (JS.toLowerCase (Category.category_name cat)) (JS.toLowerCase name))
    categories.

Definition present (o : option string) : bool := JS.truthy_opt o.

Definition violated_fields (categories : list Category.t)
    (rowData : gmap string string) : list string :=
  (if blank (rowData !! "item_name") then ["item_name"] else [])
  ++ (if blank (rowData !! "category_name")
         || negb (category_known categories (default "" (rowData !! "category_name")))
      then ["category_name"] else [])
  ++ (if blank (rowData !! "uom") then ["uom"] else [])
  ++ (if present (rowData !! "gsm")
         && JS.isNaN_parseFloat (default "" (rowData !! "gsm"))
      then ["gsm"] else [])
  ++ (if present (rowData !! "status")
         && negb (bool_decide (JS.toLowerCase (default "" (rowData !! "status"))
                                 ∈ ["active"; "inactive"]))
      then ["status"] else []).

(** ** The [stock_summary] view *)

Module Sql.

Local Open Scope Qc_scope.

Definition COALESCE (x : option Qc) (d : Qc) : Qc := default d x.

Definition ABS (x : Qc) : Qc := if decide (x < 0) then - x else x.

Definition pow10 (d : nat) : Z := (10 ^ Z.of_nat d)%Z.

(** [ROUND(x, d)] of [numeric]: to [d] decimals, ties away from zero. *)
Definition round_half_away (x : Qc) : Z :=
  if decide (0 <= x)
  then Qfloor (x + Q2Qc (1 # 2))
  else (- Qfloor (- x + Q2Qc (1 # 2)))%Z.

Definition ROUND (x : Qc) (d : nat) : Qc :=
  Q2Qc (inject_Z (round_half_away (x * Q2Qc (inject_Z (pow10 d)))))
  / Q2Qc (inject_Z (pow10 d)).

(** [SUM] over a group: [NULL] when the group has no row. *)
Definition SUM (xs : list Qc) : option Qc :=
  match xs with
  | [] => None
  | _ => Some (foldr Qcplus (Q2Qc 0) xs)
  end.

Definition lit (n : Z) : Qc := Q2Qc (inject_Z n).
Definition dec (n : Z) (d : nat) : Qc := Q2Qc (inject_Z n) / Q2Qc (inject_Z (pow10 d)).

(** *** Division of [numeric]

    A [numeric] is a number with a display scale, the count of digits
    after its decimal point: [30.0] has scale 1, a value of an integer
    column scale 0.  PostgreSQL's [/] picks a result scale that gives
    the quotient at least 16 significant digits, and not less than the
    scale of either operand, and rounds the quotient to it, ties away
    from zero. *)
Record numeric := mkNumeric { value : Qc; dscale : nat }.

Definition NBASE : Z := 10000.
Definition DEC_DIGITS : Z := 4.
Definition NUMERIC_MIN_SIG_DIGITS : Z := 16.
Definition NUMERIC_MAX_DISPLAY_SCALE : Z := 1000.

(** The digits are kept in base 10000.  For [n / d] with [d <= n],
    the number of times [d] can be multiplied by 10000 without passing
    [n]; for [n < d], minus the number of times [n] must be. *)
Fixpoint weight_up (fuel : nat) (n d : Z) : Z :=
  match fuel with
  | O => 0
  | S fuel => if (NBASE * d <=? n)%Z then (1 + weight_up fuel n (NBASE * d))%Z else 0%Z
  end.

Fixpoint weight_down (fuel : nat) (n d : Z) : Z :=
  match fuel with
  | O => 0
  | S fuel => if (n <? d)%Z then (weight_down fuel (NBASE * n) d - 1)%Z else 0%Z
  end.

(** The weight of the first non-zero base-10000 digit of [x]:
    [10000^weight <= |x| < 10000^(weight + 1)]; 0 for 0. *)
Definition weight (x : Qc) : Z :=
  let n := Z.abs (Qnum x) in
  let d := Zpos (Qden x) in
  let fuel := S (Z.to_nat (Z.log2 (Z.max n d))) in
  if (n =? 0)%Z then 0%Z
  else if (d <=? n)%Z then weight_up fuel n d
  else weight_down fuel n d.

(** The first non-zero base-10000 digit of [x]; 0 for 0. *)
Definition first_digit (x : Qc) : Z :=
  let n := Z.abs (Qnum x) in
  let d := Zpos (Qden x) in
  let w := weight x in
  if (0 <=? w)%Z then (n / (d * NBASE ^ w))%Z else (n * NBASE ^ (- w) / d)%Z.

(** [select_div_scale] of PostgreSQL's [numeric.c]. *)
Definition select_div_scale (var1 var2 : numeric) : nat :=
  let qweight :=
    (weight (value var1) - weight (value var2)
     - (if first_digit (value var1) <=? first_digit (value var2) then 1 else 0))%Z in
  let rscale := (NUMERIC_MIN_SIG_DIGITS - qweight * DEC_DIGITS)%Z in
  let rscale := Z.max rscale (Z.of_nat (dscale var1)) in
  let rscale := Z.max rscale (Z.of_nat (dscale var2)) in
  let rscale := Z.max rscale 0 in
  let rscale := Z.min rscale NUMERIC_MAX_DISPLAY_SCALE in
  Z.to_nat rscale.

(** [var1 / var2].  A divisor equal to zero, an error in SQL, gives 0
    here; in the view the divisor is a positive sum divided by 7.0,
    30.0 or 90.0, which is zero only when the cap of the scale at 1000
    digits cuts the quotient to zero (see [daily_rate_not_zero]). *)
Definition div (var1 var2 : numeric) : numeric :=
  let rscale := select_div_scale var1 var2 in
  mkNumeric (ROUND (value var1 / value var2) rscale) rscale.

(** The display scale of [SUM] over a group: the largest of its rows'. *)
Definition SUM_dscale (ds : list nat) : nat := foldr Nat.max O ds.

End Sql.

(** [current_qty_dscale] and [qty_issued_dscale] are the display scales
    with which the two quantities that the view divides are stored. *)
Module stock.
Record t := mk {
  item_code : string;
  opening_qty : Qc;
  current_qty : Qc;
  current_qty_dscale : nat
}.
End stock.

Module item_master.
Record t := mk { item_name : string; category_id : option string }.
End item_master.

Module grn_log.
Record t := mk { item_code : string; qty_received : Qc; created_at : Z }.
End grn_log.

Module issue_log.
Record t := mk {
  item_code : string;
  qty_issued : Qc;
  qty_issued_dscale : nat;
  created_at : Z
}.
End issue_log.

(** The tables read by the view.  [item_master] is keyed by its
    [item_code] and [categories] by [id]; timestamps are seconds. *)
Record Tables := mkTables {
  tbl_stock : list stock.t;
  tbl_item_master : gmap string item_master.t;
  tbl_categories : gmap string string;
  tbl_grn_log : list grn_log.t;
  tbl_issue_log : list issue_log.t
}.

Module stock_summary.

Import Sql.
Local Open Scope Qc_scope.

Record t := mk {
  item_code : string;
  item_name : option string;
  category_name : option string;
  opening_qty : Qc;
  total_grn_qty : Qc;
  total_issued_qty : Qc;
  current_qty : Qc;
  calculated_qty : Qc;
  issue_7d : Qc;
  issue_30d : Qc;
  issue_90d : Qc;
  days_of_cover : Qc;
  days_of_cover_7d : Qc;
  days_of_cover_90d : Qc;
  stock_validation_status : string;
  consumption_rate_7d : Qc;
  consumption_rate_30d : Qc;
  consumption_rate_90d : Qc
}.

(** [SELECT item_code, SUM(qty_received) FROM grn_log GROUP BY item_code],
    joined on the item code. *)
Definition grn_totals (db : Tables) (code : string) : option Qc :=
  SUM (grn_log.qty_received <$>
         List.filter (fun g => String.eqb (grn_log.item_code g) code) (tbl_grn_log db)).

Definition issue_totals (db : Tables) (code : string) : option Qc :=
  SUM (issue_log.qty_issued <$>
         List.filter (fun i => String.eqb (issue_log.item_code i) code) (tbl_issue_log db)).

Definition day : Z := 86400.

(** [... WHERE created_at >= CURRENT_DATE - INTERVAL 'W days' GROUP BY item_code] *)
Definition recent_consumption (W : Z) (db : Tables) (CURRENT_DATE : Z)
    (code : string) : option Qc :=
  SUM (issue_log.qty_issued <$>
         List.filter (fun i => String.eqb (issue_log.item_code i) code)
           (List.filter (fun i => (CURRENT_DATE - W * day <=? issue_log.created_at i)%Z)
              (tbl_issue_log db))).

(** The display scale of the sum [recent_consumption W]. *)
Definition recent_consumption_dscale (W : Z) (db : Tables) (CURRENT_DATE : Z)
    (code : string) : nat :=
  SUM_dscale (issue_log.qty_issued_dscale <$>
                List.filter (fun i => String.eqb (issue_log.item_code i) code)
                  (List.filter (fun i => (CURRENT_DATE - W * day <=? issue_log.created_at i)%Z)
                     (tbl_issue_log db))).

(** The literals [7.0], [30.0] and [90.0]. *)
Definition days_literal (W : Z) : numeric := mkNumeric (lit W) 1.

(** The [CASE] of the days-of-cover columns for a window of [W] days:
    [ROUND(s.current_qty / (issue / W.0), 1)], each [/] the division of
    [numeric]. *)
Definition days_of_cover_case (current : numeric) (issue : option Qc)
    (issue_dscale : nat) (W : Z) : Qc :=
  if decide (0 < COALESCE issue 0) then
    (* the sum is not NULL in this branch *)
    ROUND (value (div current
                    (div (mkNumeric (default 0 issue) issue_dscale) (days_literal W)))) 1
  else if decide (0 < value current ∧ COALESCE issue 0 = 0) then
    lit 999999
  else 0.

(** The [CASE] of the consumption-rate columns. *)
Definition consumption_rate_case (issue : option Qc) (W : Z) : Qc :=
  if decide (0 < COALESCE issue 0) then ROUND (default 0 issue / lit W) 3
  else 0.

Definition select (db : Tables) (CURRENT_DATE : Z) (s : stock.t) : t :=
  let code := stock.item_code s in
  let im := tbl_item_master db !! code in
  let c : option string :=
    match im with
    | Some i =>
        match item_master.category_id i with
        | Some cid => tbl_categories db !! cid
        | None => None
        end
    | None => None
    end in
  let grn := grn_totals db code in
  let iss := issue_totals db code in
  let i7 := recent_consumption 7 db CURRENT_DATE code in
  let i30 := recent_consumption 30 db CURRENT_DATE code in
  let i90 := recent_consumption 90 db CURRENT_DATE code in
  let current := mkNumeric (stock.current_qty s) (stock.current_qty_dscale s) in
  let calculated := stock.opening_qty s + COALESCE grn 0 - COALESCE iss 0 in
  {| item_code := code;
     item_name := item_master.item_name <$> im;
     category_name := c;
     opening_qty := stock.opening_qty s;
     total_grn_qty := COALESCE grn 0;
     total_issued_qty := COALESCE iss 0;
     current_qty := stock.current_qty s;
     calculated_qty := calculated;
     issue_7d := COALESCE i7 0;
     issue_30d := COALESCE i30 0;
     issue_90d := COALESCE i90 0;
     days_of_cover :=
       days_of_cover_case current i30
         (recent_consumption_dscale 30 db CURRENT_DATE code) 30;
     days_of_cover_7d :=
       days_of_cover_case current i7
         (recent_consumption_dscale 7 db CURRENT_DATE code) 7;
     days_of_cover_90d :=
       days_of_cover_case current i90
         (recent_consumption_dscale 90 db CURRENT_DATE code) 90;
     stock_validation_status :=
       if decide (dec 1 2 < ABS (calculated - stock.current_qty s))
       then "MISMATCH" else "OK";
     consumption_rate_7d := consumption_rate_case i7 7;
     consumption_rate_30d := consumption_rate_case i30 30;
     consumption_rate_90d := consumption_rate_case i90 90 |}.

(** [CREATE VIEW stock_summary AS SELECT ... FROM stock s LEFT JOIN ...]:
    every join is a left join on a key, so the view has one row per
    stock record. *)
Definition view (db : Tables) (CURRENT_DATE : Z) : list t :=
  select db CURRENT_DATE <$> tbl_stock db.

End stock_summary.

(** The trailing windows of the view and their columns.  The view has
    no [days_of_cover_30d]: its [days_of_cover] is the 30-day column. *)
Inductive Window := W7 | W30 | W90.

Definition window_days (w : Window) : Z :=
  match w with W7 => 7 | W30 => 30 | W90 => 90 end.

Definition issue_W (w : Window) (r : stock_summary.t) : Qc :=
  match w with
  | W7 => stock_summary.issue_7d r
  | W30 => stock_summary.issue_30d r
  | W90 => stock_summary.issue_90d r
  end.

Definition consumption_rate_W (w : Window) (r : stock_summary.t) : Qc :=
  match w with
  | W7 => stock_summary.consumption_rate_7d r
  | W30 => stock_summary.consumption_rate_30d r
  | W90 => stock_summary.consumption_rate_90d r
  end.

Definition days_of_cover_W (w : Window) (r : stock_summary.t) : Qc :=
  match w with
  | W7 => stock_summary.days_of_cover_7d r
  | W30 => stock_summary.days_of_cover r
  | W90 => stock_summary.days_of_cover_90d r
  end.

(** The sum of a window as the view divides it: with its display scale. *)
Definition issue_numeric_W (w : Window) (db : Tables) (CURRENT_DATE : Z)
    (s : stock.t) : Sql.numeric :=
  Sql.mkNumeric
    (Sql.COALESCE
       (stock_summary.recent_consumption (window_days w) db CURRENT_DATE
          (stock.item_code s)) (Q2Qc 0))
    (stock_summary.recent_consumption_dscale (window_days w) db CURRENT_DATE
       (stock.item_code s)).

Definition current_numeric (s : stock.t) : Sql.numeric :=
  Sql.mkNumeric (stock.current_qty s) (stock.current_qty_dscale s).

(** The sum of a column over the selected rows, [0] when there are none. *)
Definition total_of (xs : list Qc) : Qc := foldr Qcplus (Q2Qc 0) xs.

(** ** Remote calls

    Every [await supabase...] is a request to the datastore client.  The
    awaited promise either fulfils with a [{ data, error }] reply or
    rejects, which throws at the [await].  A program is the tree of the
    requests it issues; a backend gives the replies. *)

Module PostgrestError.
Record t := mk { message : string; instanceof_Error : bool }.
End PostgrestError.

Record Reply := mkReply {
  data : option string;
  error : option PostgrestError.t
}.

Inductive Settled :=
| Fulfilled (r : Reply)
| Rejected (t : thrown).

(** [throw e] for a reply's error object. *)
Definition throw_error (e : PostgrestError.t) : thrown :=
  if PostgrestError.instanceof_Error e
  then ErrorObject (PostgrestError.message e)
  else OtherValue.

(** [error instanceof Error ? error.message : 'Unknown error'] *)
Definition catch_message (t : thrown) : string :=
  match t with
  | ErrorObject m => m
  | OtherValue => "Unknown error"
  end.

Module ApplyError.
Record t := mk { row : nat; message : string }.
End ApplyError.

(** The columns written by the update and the insert of an item.  The
    update also sets [updated_at] to the current time, which is left
    out. *)
Record ItemPayload := mkItemPayload {
  p_item_name : option string;
  p_category_id : string;
  p_qualifier : option string;
  p_gsm : option JS.number;
  p_size_mm : option string;
  p_uom : option string;
  p_usage_type : option string;
  p_status : string
}.

Record UploadLog := mkUploadLog {
  user_id : string;
  file_name : string;
  file_type : string;
  total_rows : nat;
  success_rows : nat;
  error_rows : nat;
  errors : list ApplyError.t
}.

Inductive Request :=
| rpc_generate_item_code (category_name qualifier size_mm : string)
    (gsm : option JS.number)
| item_master_update (values : ItemPayload) (eq_item_code : option string)
| item_master_insert (item_code : option string) (values : ItemPayload)
    (auto_code : option string)
| stock_insert (item_code : option string) (opening_qty current_qty : Z)
| auth_getUser
| csv_upload_log_insert (entry : UploadLog)
| categories_select_id_ilike (pattern : string)
| categories_insert (category_name description : string)
| item_master_upsert (item_code : option string) (item_name : option string)
    (category_id : option string) (uom status : string)
| stock_upsert (item_code : option string) (opening_qty current_qty : JS.number).

Inductive Prog (A : Type) :=
| Ret (a : A)
| Call (req : Request) (k : Settled -> Prog A).

Arguments Ret {A} a.
Arguments Call {A} req k.

Fixpoint bind {A B} (p : Prog A) (f : A -> Prog B) : Prog B :=
  match p with
  | Ret a => f a
  | Call req k => Call req (fun s => bind (k s) f)
  end.

(** [await] inside a [try] block: a rejection leaves the block. *)
Definition await {A} (req : Request) (k : Reply -> Prog (thrown + A))
    : Prog (thrown + A) :=
  Call req (fun s =>
    match s with
    | Fulfilled r => k r
    | Rejected t => Ret (inl t)
    end).

Section Run.

Context {Store : Type}.
Variable backend : Request -> Store -> Settled * Store.

(** Runs a program against the backend: its result, the final store
    and the requests issued with their replies, in order. *)
Fixpoint run {A} (p : Prog A) (st : Store)
    : A * Store * list (Request * Settled) :=
  match p with
  | Ret a => (a, st, [])
  | Call req k =>
      let '(s, st1) := backend req st in
      let '(a, st2, tr) := run (k s) st1 in
      (a, st2, (req, s) :: tr)
  end.

End Run.

(** ** Apply step of [ItemMasterCSVUpload.tsx] *)

Module Action.
Inductive t := skip | update | error.
Definition eqb (a b : t) : bool :=
  match a, b with
  | skip, skip | update, update | error, error => true
  | _, _ => false
  end.
End Action.

Module ConflictItem.
Record t := mk {
  row : nat;
  item_code : string;
  action : Action.t;
  data : gmap string string
}.
End ConflictItem.

(** An element of [dataObjects] in [executeUpload]:
    [{ ...obj, originalRowIndex: index + 2 }]. *)
Record Item := mkItem {
  fields : gmap string string;
  originalRowIndex : nat
}.

(** [conflicts.find(c => c.row === r)] *)
Definition find_conflict (conflicts : list ConflictItem.t) (r : nat)
    : option ConflictItem.t :=
  List.find (fun c => (ConflictItem.row c =? r)%nat) conflicts.

(** [item.f || null] *)
Definition or_null (o : option string) : option string :=
  match o with
  | Some s => if JS.truthy s then Some s else None
  | None => None
  end.

(** [item.gsm ? parseFloat(item.gsm) : null] *)
Definition gsm_number (o : option string) : option JS.number :=
  match o with
  | Some s => if JS.truthy s then Some (JS.parseFloat s) else None
  | None => None
  end.

Definition payload (category : Category.t) (item : Item) : ItemPayload :=
  {| p_item_name := fields item !! "item_name";
     p_category_id := Category.id category;
     p_qualifier := or_null (fields item !! "qualifier");
     p_gsm := gsm_number (fields item !! "gsm");
     p_size_mm := or_null (fields item !! "size_mm");
     p_uom := fields item !! "uom";
     p_usage_type := or_null (fields item !! "usage_type");
     p_status := JS.or_else (fields item !! "status") "active" |}.

Record LoopState := mkLoopState {
  totalSuccess : nat;
  allErrors : list ApplyError.t;
  (** [setProgress(Math.round((processed / total) * 100))], kept as the
      pair [(processed, total)] *)
  progress : nat * nat
}.

Definition push_error (s : LoopState) (r : nat) (m : string) : LoopState :=
  {| totalSuccess := totalSuccess s;
     allErrors := allErrors s ++ [ApplyError.mk r m];
     progress := progress s |}.

Definition count_success (s : LoopState) : LoopState :=
  {| totalSuccess := S (totalSuccess s);
     allErrors := allErrors s;
     progress := progress s |}.

Definition setProgress (s : LoopState) (p : nat * nat) : LoopState :=
  {| totalSuccess := totalSuccess s; allErrors := allErrors s; progress := p |}.

Definition is_update (conflict : option ConflictItem.t) : bool :=
  match conflict with
  | Some c => Action.eqb (ConflictItem.action c) Action.update
  | None => false
  end.

(** The body of the [try] block for one item.  No path changes
    [totalSuccess] or [allErrors] before an [await] that can still
    throw, so the [catch] sees the state the iteration started with. *)
Definition try_item (categories : list Category.t)
    (conflicts : list ConflictItem.t) (item : Item) (s : LoopState)
    : Prog (thrown + LoopState) :=
  match find_category_opt categories (fields item !! "category_name") with
  | None =>
      Ret (inr (push_error s (originalRowIndex item)
        ("Category '" +:+ default "undefined" (fields item !! "category_name")
           +:+ "' not found")))
  | Some category =>
      await (rpc_generate_item_code (Category.category_name category)
               (JS.or_else (fields item !! "qualifier") "")
               (JS.or_else (fields item !! "size_mm") "")
               (gsm_number (fields item !! "gsm")))
        (fun r =>
           match error r with
           | Some codeError =>
               Ret (inr (push_error s (originalRowIndex item)
                 ("Error generating item code: " +:+ PostgrestError.message codeError)))
           | None =>
               let itemCode := data r in
               let conflict := find_conflict conflicts (originalRowIndex item) in
               if is_update conflict then
                 await (item_master_update (payload category item) itemCode)
                   (fun r =>
                      match error r with
                      | Some updateError =>
                          Ret (inr (push_error s (originalRowIndex item)
                            ("Error updating item: "
                               +:+ PostgrestError.message updateError)))
                      | None => Ret (inr (count_success s))
                      end)
               else
                 await (item_master_insert itemCode (payload category item) itemCode)
                   (fun r =>
                      match error r with
                      | Some insertError =>
                          Ret (inr (push_error s (originalRowIndex item)
                            ("Error inserting item: "
                               +:+ PostgrestError.message insertError)))
                      | None =>
                          await (stock_insert itemCode 0 0)
                            (fun _ => Ret (inr (count_success s)))
                      end)
           end)
  end.

(** [try { ... } catch (error) { allErrors.push({ row, message }) }] *)
Definition process_item (categories : list Category.t)
    (conflicts : list ConflictItem.t) (item : Item) (s : LoopState)
    : Prog LoopState :=
  bind (try_item categories conflicts item s) (fun r =>
    match r with
    | inr s' => Ret s'
    | inl t => Ret (push_error s (originalRowIndex item) (catch_message t))
    end).

(** [for (const item of batch) { ... }] *)
Fixpoint process_batch (categories : list Category.t)
    (conflicts : list ConflictItem.t) (batch : list Item) (s : LoopState)
    : Prog LoopState :=
  match batch with
  | [] => Ret s
  | item :: rest =>
      bind (process_item categories conflicts item s)
           (process_batch categories conflicts rest)
  end.

Definition batchSize : nat := 10.

(** [itemsToProcess.slice(i, i + batchSize)] *)
Definition slice (i j : nat) (items : list Item) : list Item :=
  take (j - i) (drop i items).

(** [for (let i = 0; i < itemsToProcess.length; i += batchSize) { ... }];
    [fuel] bounds the number of iterations. *)
Fixpoint batch_loop (fuel : nat) (categories : list Category.t)
    (conflicts : list ConflictItem.t) (itemsToProcess : list Item)
    (i : nat) (s : LoopState) : Prog LoopState :=
  match fuel with
  | O => Ret s
  | S fuel' =>
      if (i <? length itemsToProcess)%nat then
        let batch := slice i (i + batchSize) itemsToProcess in
        bind (process_batch categories conflicts batch s) (fun s' =>
          batch_loop fuel' categories conflicts itemsToProcess (i + batchSize)
            (setProgress s' (i + length batch, length itemsToProcess)))
      else Ret s
  end.

Record UploadResult := mkUploadResult {
  success : nat;
  result_errors : list ApplyError.t;
  total : nat
}.

(** [csvData.rows.map((row, index) => ({ ...obj, originalRowIndex: index + 2 }))] *)
Definition dataObjects (csvData : CSVData) : list Item :=
  imap (fun index row =>
          {| fields := row_object (headers csvData) row;
             originalRowIndex := index + 2 |})
       (rows csvData).

(** [dataObjects.filter((item, index) => { const conflict =
      conflicts.find(c => c.row === index + 2);
      return !conflict || conflict.action !== 'skip' })] *)
Definition keep (conflicts : list ConflictItem.t) (index : nat) : bool :=
  match find_conflict conflicts (index + 2) with
  | None => true
  | Some conflict => negb (Action.eqb (ConflictItem.action conflict) Action.skip)
  end.

Definition itemsToProcess (conflicts : list ConflictItem.t)
    (objs : list Item) : list Item :=
  snd <$> List.filter (fun '(index, _) => keep conflicts index) (imap pair objs).

Definition initial : LoopState :=
  {| totalSuccess := 0; allErrors := []; progress := (0, 0)%nat |}.

(** The apply loop of [executeUpload]; the loop runs at most once per
    item, so the number of items is enough fuel. *)
Definition apply_rows (categories : list Category.t)
    (conflicts : list ConflictItem.t) (items : list Item) : Prog LoopState :=
  batch_loop (length items) categories conflicts items 0 initial.

(** The end of [executeUpload]: the audit insert into [csv_upload_log]
    and the call of [setUploadResult].  [inr result] is the result handed
    to [setUploadResult] (followed by the toast "Upload Complete");
    [inl t] is the outer [catch] (toast "Upload Failed"), where no result
    is set. *)
Definition log_and_report (file : string) (rows_total : nat) (s : LoopState)
    : Prog (thrown + UploadResult) :=
  let result :=
    {| success := totalSuccess s;
       result_errors := allErrors s;
       total := rows_total |} in
  await auth_getUser (fun userData =>
    match data userData with
    | Some user =>
        await (csv_upload_log_insert
                 {| user_id := user;
                    file_name := file;
                    file_type := "item_master";
                    total_rows := rows_total;
                    success_rows := totalSuccess s;
                    error_rows := length (allErrors s);
                    errors := allErrors s |})
          (fun _ => Ret (inr result))
    | None => Ret (inr result)
    end).

(** [executeUpload], from the conversion of the rows on. *)
Definition executeUpload (categories : list Category.t)
    (conflicts : list ConflictItem.t) (csvData : CSVData) (file : string)
    : Prog (thrown + UploadResult) :=
  let objs := dataObjects csvData in
  let items := itemsToProcess conflicts objs in
  bind (apply_rows categories conflicts items)
       (log_and_report file (length objs)).

(** ** Reading the apply step

    What one iteration of the loop leaves behind is one outcome for its
    row; it is read off the [try] body run on the empty state. *)

Inductive Outcome :=
| Succeeded
| Failed (message : string).

Definition record (row : nat) (o : Outcome) (s : LoopState) : LoopState :=
  match o with
  | Succeeded => count_success s
  | Failed m => push_error s row m
  end.

Definition row_outcome (categories : list Category.t)
    (conflicts : list ConflictItem.t) (item : Item) : Prog Outcome :=
  bind (try_item categories conflicts item initial) (fun r =>
    Ret match r with
        | inl t => Failed (catch_message t)
        | inr s' =>
            match allErrors s' with
            | [] => Succeeded
            | e :: _ => Failed (ApplyError.message e)
            end
        end).

(** The outcomes of the rows of a list, processed one after the other
    in the order of the list. *)
Fixpoint row_outcomes (categories : list Category.t)
    (conflicts : list ConflictItem.t) (items : list Item)
    : Prog (list (nat * Outcome)) :=
  match items with
  | [] => Ret []
  | item :: rest =>
      bind (row_outcome categories conflicts item) (fun o =>
        bind (row_outcomes categories conflicts rest) (fun os =>
          Ret ((originalRowIndex item, o) :: os)))
  end.

Definition record_all (os : list (nat * Outcome)) (s : LoopState) : LoopState :=
  foldl (fun s '(row, o) => record row o s) s os.

Definition is_success (ro : nat * Outcome) : bool :=
  match snd ro with Succeeded => true | Failed _ => false end.

(** The error entries of a list of outcomes. *)
Definition failures (os : list (nat * Outcome)) : list ApplyError.t :=
  omap (fun '(row, o) =>
          match o with
          | Succeeded => None
          | Failed m => Some (ApplyError.mk row m)
          end) os.

Definition is_rejected (e : Request * Settled) : bool :=
  match e with
  | (_, Rejected _) => true
  | _ => false
  end.

(** The user of the session, as [auth.getUser()] reported it in a run. *)
Fixpoint session_user (tr : list (Request * Settled)) : option string :=
  match tr with
  | [] => None
  | (auth_getUser, Fulfilled userData) :: _ => data userData
  | (auth_getUser, Rejected _) :: _ => None
  | _ :: rest => session_user rest
  end.

(** The result [executeUpload] reports for a list of row outcomes. *)
Definition result_of (os : list (nat * Outcome)) (rows_total : nat) : UploadResult :=
  {| success := length (List.filter is_success os);
     result_errors := failures os;
     total := rows_total |}.

(** The audit record [executeUpload] writes for them. *)
Definition audit_entry (user file : string) (os : list (nat * Outcome))
    (rows_total : nat) : UploadLog :=
  {| user_id := user;
     file_name := file;
     file_type := "item_master";
     total_rows := rows_total;
     success_rows := length (List.filter is_success os);
     error_rows := length (failures os);
     errors := failures os |}.

(** The requests of a row: the code generation, the update or insert of
    the item and the stock insert. *)
Definition row_request (e : Request * Settled) : bool :=
  match e with
  | (rpc_generate_item_code _ _ _ _, _) | (item_master_update _ _, _)
  | (item_master_insert _ _ _, _) | (stock_insert _ _ _, _) => true
  | _ => false
  end.

(** The row is in the conflict list with the given action. *)
Definition marked (a : Action.t) (conflicts : list ConflictItem.t) (row : nat) : Prop :=
  ∃ c, find_conflict conflicts row = Some c ∧ ConflictItem.action c = a.

(** A reply that makes the row fail: a rejected promise, or an error in
    the reply of any request whose error the code inspects.  The reply
    of the stock insert is awaited and not inspected. *)
Definition reply_failed (e : Request * Settled) : bool :=
  match e with
  | (_, Rejected _) => true
  | (stock_insert _ _ _, Fulfilled _) => false
  | (_, Fulfilled r) => bool_decide (is_Some (error r))
  end.

Definition is_audit_write (e : Request * Settled) : bool :=
  match e with
  | (csv_upload_log_insert _, _) => true
  | _ => false
  end.

(** Requests that change [item_master] or [stock]. *)
Definition is_item_mutation (e : Request * Settled) : bool :=
  match e with
  | (item_master_update _ _, _) | (item_master_insert _ _ _, _)
  | (stock_insert _ _ _, _) | (item_master_upsert _ _ _ _ _, _)
  | (stock_upsert _ _ _, _) => true
  | _ => false
  end.

(** ** [processOpeningStock] of the opening-stock page *)

Module OpeningStock.

Module Error.
Record t := mk { row : nat; message : string; data : gmap string string }.
End Error.

Record results := mkResults {
  success : nat;
  errors : list Error.t
}.

(** [parseFloat(row.opening_qty) || 0] *)
Definition openingQty (row : gmap string string) : JS.number :=
  match row !! "opening_qty" with
  | Some s => if JS.isNaN_parseFloat s then JS.parseFloat "0" else JS.parseFloat s
  | None => JS.parseFloat "0"
  end.

(** [row.item_name || row.item_code] *)
Definition item_name_or_code (row : gmap string string) : option string :=
  match or_null (row !! "item_name") with
  | Some n => Some n
  | None => row !! "item_code"
  end.

(** The two upserts that follow the category step. *)
Definition upsert_item_and_stock (row : gmap string string)
    (categoryId : option string) : Prog (thrown + unit) :=
  await (item_master_upsert (row !! "item_code") (item_name_or_code row)
           categoryId (JS.or_else (row !! "uom") "PCS") "active")
    (fun r =>
       match error r with
       | Some itemError => Ret (inl (throw_error itemError))
       | None =>
           await (stock_upsert (row !! "item_code") (openingQty row) (openingQty row))
             (fun r =>
                match error r with
                | Some stockError => Ret (inl (throw_error stockError))
                | None => Ret (inr tt)
                end)
       end).

Definition auto_description : string := "Auto-created from CSV import".

(** The body of the [try] block for one row: find or create the
    category, then upsert the item and its stock record. *)
Definition try_row (row : gmap string string) : Prog (thrown + unit) :=
  match or_null (row !! "category") with
  | Some category =>
      await (categories_select_id_ilike category) (fun r =>
        match data r with
        | Some existingCategory => upsert_item_and_stock row (Some existingCategory)
        | None =>
            await (categories_insert category auto_description) (fun r =>
              match error r with
              | Some categoryError => Ret (inl (throw_error categoryError))
              | None =>
                  match data r with
                  | Some newCategory => upsert_item_and_stock row (Some newCategory)
                  | None =>
                      Ret (inl (ErrorObject
                        "Cannot read properties of null (reading 'id')"))
                  end
              end)
        end)
  | None => upsert_item_and_stock row None
  end.

Definition process_row (i : nat) (row : gmap string string) (res : results)
    : Prog results :=
  bind (try_row row) (fun r =>
    match r with
    | inr _ => Ret {| success := S (success res); errors := errors res |}
    | inl t =>
        Ret {| success := success res;
               errors := errors res ++ [Error.mk (i + 1) (catch_message t) row] |}
    end).

Fixpoint loop (i : nat) (rows : list (gmap string string)) (res : results)
    : Prog results :=
  match rows with
  | [] => Ret res
  | row :: rest => bind (process_row i row res) (loop (S i) rest)
  end.

Definition processOpeningStock (data : list (gmap string string)) : Prog results :=
  loop 0 data {| success := 0; errors := [] |}.

End OpeningStock.

(** ** A reference datastore

    A small in-memory datastore used to run the programs on concrete
    inputs.  [item_code] is a unique key of [item_master] and of [stock]
    (one stock record per item); the upserts overwrite.  Item codes are
    generated from the category, qualifier and size; category lookup
    compares names without regard to case.  The flag makes the audit
    insert fail. *)

Module Ref.

Record Store := mkStore {
  items : gmap string ItemPayload;
  stock_codes : list string;
  categories : list Category.t;
  upload_log : list UploadLog;
  user : option string;
  log_fails : bool
}.

Definition ok (d : option string) : Settled :=
  Fulfilled {| data := d; error := None |}.

Definition failed (m : string) : Settled :=
  Fulfilled {| data := None; error := Some (PostgrestError.mk m false) |}.

Definition with_items (st : Store) (m : gmap string ItemPayload) : Store :=
  mkStore m (stock_codes st) (categories st) (upload_log st) (user st) (log_fails st).

Definition generate_item_code (category_name qualifier size_mm : string) : string :=
  category_name +:+ "-" +:+ qualifier +:+ "-" +:+ size_mm.

Definition backend (req : Request) (st : Store) : Settled * Store :=
  match req with
  | rpc_generate_item_code c q s _ => (ok (Some (generate_item_code c q s)), st)
  | item_master_update v (Some code) =>
      (ok None, with_items st (alter (fun _ => v) code (items st)))
  | item_master_update _ None => (ok None, st)
  | item_master_insert (Some code) v _ =>
      match items st !! code with
      | Some _ => (failed "duplicate key value violates unique constraint", st)
      | None => (ok (Some code), with_items st (<[code := v]> (items st)))
      end
  | item_master_insert None _ _ => (failed "null value in column item_code", st)
  | stock_insert (Some code) _ _ =>
      if bool_decide (code ∈ stock_codes st)
      then (failed "duplicate key value violates unique constraint", st)
      else (ok None, mkStore (items st) (stock_codes st ++ [code]) (categories st)
                       (upload_log st) (user st) (log_fails st))
  | stock_insert None _ _ => (failed "null value in column item_code", st)
  | auth_getUser => (ok (user st), st)
  | csv_upload_log_insert entry =>
      if log_fails st then (failed "permission denied for table csv_upload_log", st)
      else (ok None, mkStore (items st) (stock_codes st) (categories st)
                       (upload_log st ++ [entry]) (user st) (log_fails st))
  | categories_select_id_ilike pattern =>
      (ok (Category.id <$> find_category (categories st) pattern), st)
  | categories_insert name _ =>
      (ok (Some ("cat-" +:+ name)),
       mkStore (items st) (stock_codes st)
         (categories st ++ [Category.mk ("cat-" +:+ name) name])
         (upload_log st) (user st) (log_fails st))
  | item_master_upsert (Some code) n cid uom status =>
      (ok None,
       with_items st (<[code := mkItemPayload n (default "" cid) None None None
                                  (Some uom) None status]> (items st)))
  | item_master_upsert None _ _ _ _ => (failed "null value in column item_code", st)
  | stock_upsert (Some code) _ _ =>
      (ok None, mkStore (items st) (stock_codes st ++ [code]) (categories st)
                  (upload_log st) (user st) (log_fails st))
  | stock_upsert None _ _ => (failed "null value in column item_code", st)
  end.

End Ref.

(** * Concrete inputs *)

(** ** The view on concrete tables *)

Module Scenario.

Import Sql.
Local Open Scope Qc_scope.

(** The scenario of the specification: opening 100, one receipt of 50,
    one issue of 30 five days ago, current quantity 120. *)
Definition item : stock.t := stock.mk "A" (lit 100) (lit 120) 0.

Definition tables : Tables :=
  {| tbl_stock := [item];
     tbl_item_master := ∅;
     tbl_categories := ∅;
     tbl_grn_log := [grn_log.mk "A" (lit 50) (- 10 * 86400)];
     tbl_issue_log := [issue_log.mk "A" (lit 30) 0 (- 5 * 86400)] |}.

(** One unit issued in the last week and 1000 in stock. *)
Definition slow_item : stock.t := stock.mk "B" (lit 0) (lit 1000) 0.

Definition slow_tables : Tables :=
  {| tbl_stock := [slow_item];
     tbl_item_master := ∅;
     tbl_categories := ∅;
     tbl_grn_log := [];
     tbl_issue_log := [issue_log.mk "B" (lit 1) 0 0] |}.

(** One unit in stock and 8 issued twenty days ago. *)
Definition last_item : stock.t := stock.mk "C" (lit 9) (lit 1) 0.

Definition last_tables : Tables :=
  {| tbl_stock := [last_item];
     tbl_item_master := ∅;
     tbl_categories := ∅;
     tbl_grn_log := [];
     tbl_issue_log := [issue_log.mk "C" (lit 8) 0 (- 20 * 86400)] |}.

End Scenario.

(** A file whose header line has a quoted name with a comma in it,
    followed by the same line as a data row. *)
Definition quoted_header_line : string := JS.quoted "a,b" +:+ ",c".

Definition quoted_header_text : string :=
  quoted_header_line +:+ String JS.newline quoted_header_line.

Definition two_categories : list Category.t :=
  [Category.mk "c1" "Raw Materials"; Category.mk "c2" "Finished Goods"].

(** A row that breaks every rule at once. *)
Definition bad_row : gmap string string :=
  <["status" := "retired"]> (<["gsm" := "heavy"]> (<["uom" := " "]>
    (<["category_name" := "Spares"]> (<["item_name" := ""]> ∅)))).

(** The row of the specification's validation scenario. *)
Definition nameless_row : gmap string string :=
  <["uom" := "PCS"]> (<["category_name" := "Raw Materials"]> (<["item_name" := ""]> ∅)).

(** A datastore that already holds the item a row of the file
    generates, and the file. *)
Module Sample.

Definition bolt_code : string := Ref.generate_item_code "Raw Materials" "" "".

Definition bolt : ItemPayload :=
  mkItemPayload (Some "Bolt") "c1" None None None (Some "PCS") None "active".

Definition store (session : option string) (log_fails : bool) : Ref.Store :=
  {| Ref.items := {[ bolt_code := bolt ]};
     Ref.stock_codes := [bolt_code];
     Ref.categories := two_categories;
     Ref.upload_log := [];
     Ref.user := session;
     Ref.log_fails := log_fails |}.

(** The same, with a stock record left behind for the code the second
    row of [two_rows] generates. *)
Definition orphan_code : string := Ref.generate_item_code "Finished Goods" "" "".

Definition orphan_store : Ref.Store :=
  {| Ref.items := {[ bolt_code := bolt ]};
     Ref.stock_codes := [bolt_code; orphan_code];
     Ref.categories := two_categories;
     Ref.upload_log := [];
     Ref.user := Some "u1";
     Ref.log_fails := false |}.

Definition one_row : CSVData :=
  {| headers := ["item_name"; "category_name"; "uom"];
     rows := [["Bolt M8"; "raw materials"; "PCS"]] |}.

Definition two_rows : CSVData :=
  {| headers := ["item_name"; "category_name"; "uom"];
     rows := [["Bolt M8"; "raw materials"; "PCS"]; ["Nut"; "Finished Goods"; "KG"]] |}.

Definition resolve (a : Action.t) : list ConflictItem.t :=
  [ConflictItem.mk 2 bolt_code a
     (<["generated_code" := bolt_code]> (row_object (headers one_row)
                                           ["Bolt M8"; "raw materials"; "PCS"]))].

Definition bolt_item : Item :=
  {| fields := row_object (headers one_row) ["Bolt M8"; "raw materials"; "PCS"];
     originalRowIndex := 2 |}.


End Sample.

(** * The rest of the upload component *)

(** ** [downloadTemplate] *)

(** [array.join(sep)] *)
Fixpoint join (sep : string) (l : list string) : string :=
  match l with
  | [] => EmptyString
  | [x] => x
  | x :: rest => x +:+ sep +:+ join sep rest
  end.

Definition optionalHeaders : list string :=
  ["qualifier"; "gsm"; "size_mm"; "usage_type"; "status"].

Definition sampleData : list string :=
  ["Sample Item 1,Raw Materials,PCS,PREMIUM,80,100x200,Production,active";
   "Sample Item 2,Finished Goods,KG,,150,,Maintenance,active"].

(** The text [downloadTemplate] puts into the blob. *)
Definition csvContent : string :=
  join (String JS.newline EmptyString)
    (join "," (requiredHeaders ++ optionalHeaders) :: sampleData).

(** A header name that survives the header line: no comma, no line
    break, no outer white space and no outer quote. *)
Fixpoint no_char (c : ascii) (s : string) : bool :=
  match s with
  | EmptyString => true
  | String x r => negb (Ascii.eqb x c) && no_char c r
  end.

Definition plain_header (h : string) : Prop :=
  no_char JS.comma h = true ∧ JS.trim h = h ∧ JS.strip_quotes h = h.

(** ** [updateConflictAction] *)

(** [prev.map(conflict => conflict.row === rowIndex
      ? { ...conflict, action } : conflict)] *)
Definition updateConflictAction (rowIndex : nat) (action : Action.t)
    (prev : list ConflictItem.t) : list ConflictItem.t :=
  (fun conflict =>
     if (ConflictItem.row conflict =? rowIndex)%nat
     then ConflictItem.mk (ConflictItem.row conflict) (ConflictItem.item_code conflict)
            action (ConflictItem.data conflict)
     else conflict) <$> prev.

(** ** Writing a file of quoted fields *)

(** A row written with every field in quotes, and a file made of a
    header line and such rows. *)
Definition write_row (r : list string) : string :=
  match r with
  | [] => EmptyString
  | f :: fs => quoted_line f fs
  end.

Definition write_csv (header_line : string) (data_rows : list (list string)) : string :=
  join (String JS.newline EmptyString) (header_line :: (write_row <$> data_rows)).

Definition writable_field (f : string) : Prop :=
  plain_field f ∧ no_char JS.newline f = true.

Definition writable_row (r : list string) : Prop :=
  r ≠ [] ∧ Forall writable_field r.

(** The cleaning applied to every cell and header. *)
Definition clean (s : string) : string := JS.strip_quotes (JS.trim s).

(** ** Programs over other request types

    The conflict check and the pages outside the upload talk to the
    datastore with requests of their own; [Script Q] is the tree of
    requests of type [Q], read like [Prog]. *)

Inductive Script (Q A : Type) :=
| Done (a : A)
| Ask (q : Q) (k : Settled -> Script Q A).

Arguments Done {Q A} a.
Arguments Ask {Q A} q k.

Fixpoint then_script {Q A B} (p : Script Q A) (f : A -> Script Q B) : Script Q B :=
  match p with
  | Done a => f a
  | Ask q k => Ask q (fun s => then_script (k s) f)
  end.

Fixpoint run_script {Q A Store} (backend : Q -> Store -> Settled * Store)
    (p : Script Q A) (st : Store) : A * Store * list (Q * Settled) :=
  match p with
  | Done a => (a, st, [])
  | Ask q k =>
      let '(s, st1) := backend q st in
      let '(a, st2, tr) := run_script backend (k s) st1 in
      (a, st2, (q, s) :: tr)
  end.

(** ** [checkForConflicts] *)

Inductive ConflictRequest :=
| check_generate_item_code (category_name qualifier size_mm : string)
    (gsm : option JS.number)
| check_item_master_select (eq_item_code : string).

(** The body of the loop for the row at index [i]: the conflict list
    after the row.  A rejected request is caught and logged to the
    console; the list is then unchanged. *)
Definition check_row (categories : list Category.t) (i : nat)
    (row : gmap string string) (conflicts : list ConflictItem.t)
    : Script ConflictRequest (list ConflictItem.t) :=
  match find_category_opt categories (row !! "category_name") with
  | None => Done conflicts
  | Some category =>
      Ask (check_generate_item_code (Category.category_name category)
             (JS.or_else (row !! "qualifier") "")
             (JS.or_else (row !! "size_mm") "")
             (gsm_number (row !! "gsm")))
        (fun s =>
           match s with
           | Rejected _ => Done conflicts
           | Fulfilled r =>
               match error r, or_null (data r) with
               | None, Some generatedCode =>
                   Ask (check_item_master_select generatedCode)
                     (fun s =>
                        match s with
                        | Rejected _ => Done conflicts
                        | Fulfilled r =>
                            match error r, data r with
                            | None, Some _ =>
                                Done (conflicts ++
                                  [ConflictItem.mk (i + 2) generatedCode Action.skip
                                     (<["generated_code" := generatedCode]> row)])
                            | _, _ => Done conflicts
                            end
                        end)
               | _, _ => Done conflicts
               end
           end)
  end.

(** [for (let i = 0; i < dataObjects.length; i++) { ... }] *)
Fixpoint check_rows (categories : list Category.t) (i : nat)
    (dataObjects : list (gmap string string)) (conflicts : list ConflictItem.t)
    : Script ConflictRequest (list ConflictItem.t) :=
  match dataObjects with
  | [] => Done conflicts
  | row :: rest =>
      then_script (check_row categories i row conflicts)
                  (check_rows categories (S i) rest)
  end.

Definition checkForConflicts (categories : list Category.t)
    (dataObjects : list (gmap string string))
    : Script ConflictRequest (list ConflictItem.t) :=
  check_rows categories 0 dataObjects [].

(** ** The component's state and [handleFileChange] *)

Inductive Toast :=
| InvalidFileType
| MissingRequiredColumns (description : string)
| ErrorParsingCSV (description : string)
| UploadComplete (success total : nat)
| UploadFailed (description : string).

Module UI.
Record state := mk {
file : option string;
csvData : option CSVData;
validationErrors : list ValidationError.t;
conflicts : list ConflictItem.t;
showConflictDialog : bool;
uploadResult : option UploadResult;
toasts : list Toast
}.

Definition toast (t : Toast) (s : state) : state :=
mk (file s) (csvData s) (validationErrors s) (conflicts s)
   (showConflictDialog s) (uploadResult s) (toasts s ++ [t]).

(** [resetUpload]; the toasts already shown are not part of it. *)
Definition resetUpload (s : state) : state :=
mk None None [] [] (showConflictDialog s) None (toasts s).
End UI.

(** [name.endsWith(suffix)] *)
Fixpoint endsWith (suffix s : string) : bool :=
  String.eqb s suffix
  || match s with
     | EmptyString => false
     | String _ r => endsWith suffix r
     end.

(** [handleFileChange] for a selected file with the given name and text,
    from the state [prev]: the state once [reader.onload] has run. *)
Definition handleFileChange (categories : list Category.t) (prev : UI.state)
    (name text : string) : Script ConflictRequest UI.state :=
  if negb (endsWith ".csv" name) then Done (UI.toast InvalidFileType prev)
  else
    let s1 := UI.mk (Some name) (UI.csvData prev) [] [] (UI.showConflictDialog prev)
                None (UI.toasts prev) in
    match parseCSV text with
    | inl t => Done (UI.toast (ErrorParsingCSV (catch_message t)) s1)
    | inr parsed =>
        let s2 := UI.mk (Some name) (Some parsed) [] [] (UI.showConflictDialog prev)
                    None (UI.toasts prev) in
        match missingHeaders parsed with
        | (_ :: _) as missing =>
            Done (UI.toast
                    (MissingRequiredColumns
                       ("Please ensure your CSV has: " +:+ join ", " missing)) s2)
        | [] =>
            let objs := row_object (headers parsed) <$> rows parsed in
            let allErrors := validateRows categories objs in
            let s3 := UI.mk (Some name) (Some parsed) allErrors []
                        (UI.showConflictDialog prev) None (UI.toasts prev) in
            match allErrors with
            | [] =>
                then_script (checkForConflicts categories objs) (fun found =>
                  Done (UI.mk (Some name) (Some parsed) allErrors found
                          (UI.showConflictDialog prev) None (UI.toasts prev)))
            | _ :: _ => Done s3
            end
        end
    end.

(** The upload controls are rendered under
    [!uploadResult && csvData && validationErrors.length === 0]. *)
Definition shows_upload_controls (s : UI.state) : bool :=
  bool_decide (UI.uploadResult s = None)
  && bool_decide (is_Some (UI.csvData s))
  && bool_decide (UI.validationErrors s = []).

(** What the upload button does: [processUpload]. *)
Inductive UploadStep :=
| NothingLoaded
| ReviewConflicts
| Execute (csvData : CSVData) (file : string).

Definition processUpload (s : UI.state) : UploadStep :=
  match UI.csvData s, UI.file s with
  | Some parsed, Some name =>
      match UI.conflicts s with
      | _ :: _ => ReviewConflicts
      | [] => Execute parsed name
      end
  | _, _ => NothingLoaded
  end.

(** [{ ...conflict, action }] *)
Definition with_action (a : Action.t) (c : ConflictItem.t) : ConflictItem.t :=
  ConflictItem.mk (ConflictItem.row c) (ConflictItem.item_code c) a (ConflictItem.data c).

(** The code generation request of a row of the file. *)
Definition code_request (category : Category.t) (row : gmap string string)
    : ConflictRequest :=
  check_generate_item_code (Category.category_name category)
    (JS.or_else (row !! "qualifier") "")
    (JS.or_else (row !! "size_mm") "")
    (gsm_number (row !! "gsm")).

(** What stands behind a registered conflict: the row at index
    [offset + j] of the file, whose category exists; in the run, the
    code generation for that row replied with the conflict's code and no
    error, and the request after it, the item lookup by that code,
    replied with an item and no error. *)
Definition registered_for (categories : list Category.t)
    (objs : list (gmap string string)) (offset : nat)
    (tr : list (ConflictRequest * Settled)) (c : ConflictItem.t) : Prop :=
  ConflictItem.action c = Action.skip
  ∧ ∃ j obj category generated existing pre post,
      ConflictItem.row c = offset + j + 2
      ∧ objs !! j = Some obj
      ∧ ConflictItem.data c = <["generated_code" := ConflictItem.item_code c]> obj
      ∧ find_category_opt categories (obj !! "category_name") = Some category
      ∧ tr = pre
             ++ [(code_request category obj, Fulfilled generated);
                 (check_item_master_select (ConflictItem.item_code c),
                  Fulfilled existing)]
             ++ post
      ∧ error generated = None
      ∧ data generated = Some (ConflictItem.item_code c)
      ∧ JS.truthy (ConflictItem.item_code c) = true
      ∧ error existing = None
      ∧ is_Some (data existing).

(** The code of an item lookup that found an item. *)
Definition found_code (e : ConflictRequest * Settled) : option string :=
  match e with
  | (check_item_master_select code, Fulfilled r) =>
      match error r, data r with
      | None, Some _ => Some code
      | _, _ => None
      end
  | _ => None
  end.

(** Requests that create an item or its stock record. *)
Definition is_insert (e : Request * Settled) : bool :=
  match e with
  | (item_master_insert _ _ _, _) | (stock_insert _ _ _, _) => true
  | _ => false
  end.

(** ** Reading the opening-stock import *)

Definition is_category_insert (e : Request * Settled) : bool :=
  match e with
  | (categories_insert _ _, _) => true
  | _ => false
  end.

Definition is_category_request (e : Request * Settled) : bool :=
  match e with
  | (categories_insert _ _, _) | (categories_select_id_ilike _, _) => true
  | _ => false
  end.

(** A reply that came back without an error. *)
Definition acknowledged (s : Settled) : bool :=
  match s with
  | Fulfilled r => bool_decide (error r = None)
  | Rejected _ => false
  end.

(** The item upsert of a row with the given category id. *)
Definition item_upsert_of (row : gmap string string) (categoryId : option string)
    : Request :=
  item_master_upsert (row !! "item_code") (OpeningStock.item_name_or_code row)
    categoryId (JS.or_else (row !! "uom") "PCS") "active".

Definition stock_upsert_of (row : gmap string string) : Request :=
  stock_upsert (row !! "item_code") (OpeningStock.openingQty row)
    (OpeningStock.openingQty row).

(** * The pages *)

(** ** Item master page: the selection of items *)

Module ItemMasterPage.

(** A listed item; the selection reads nothing but its [id]. *)
Record item := mk { id : string; item_code : string }.

Definition same_id (a b : item) : bool := String.eqb (id a) (id b).

(** [selectedItems.find(selected => selected.id === item.id) !== undefined] *)
Definition isItemSelected (selectedItems : list item) (it : item) : bool :=
match List.find (fun selected => same_id selected it) selectedItems with
| Some _ => true
| None => false
end.

(** [setSelectedItems(prev => isSelected
    ? prev.filter(selected => selected.id !== item.id) : [...prev, item])] *)
Definition toggleItemSelection (it : item) (prev : list item) : list item :=
match List.find (fun selected => same_id selected it) prev with
| Some _ => List.filter (fun selected => negb (same_id selected it)) prev
| None => prev ++ [it]
end.

End ItemMasterPage.

(** ** Integration settings *)

Module Integrations.

Record integration := mk {
name : string;
description : string;
enabled : bool;
configured : bool;
apiKey : string;
testConnection : bool
}.

Definition initial : list integration :=
[mk "OpenAI" "AI-powered features and analytics" false false "" false;
 mk "Email Service" "Send notifications and reports via email" false false "" false].

(** [prev.map((item, i) => i === index ? f(item) : item)] *)
Definition update_at (index : nat) (f : integration -> integration)
  (prev : list integration) : list integration :=
imap (fun i item => if (i =? index)%nat then f item else item) prev.

Inductive message :=
| ConfigurationRequired
| Toggled (name : string) (now_enabled : bool)
| ApiKeySaved
| ConnectionTested.

(** [handleToggleIntegration]: the new list and the toast, or [None]
  when [integrations[index]] is undefined and reading it throws. *)
Definition handleToggleIntegration (index : nat) (integrations : list integration)
  : option (list integration * message) :=
match integrations !! index with
| None => None
| Some integration =>
    if negb (configured integration) && negb (enabled integration)
    then Some (integrations, ConfigurationRequired)
    else Some (update_at index
                 (fun item => mk (name item) (description item) (negb (enabled item))
                                (configured item) (apiKey item) (testConnection item))
                 integrations,
               Toggled (name integration) (negb (enabled integration)))
end.

Definition handleSaveApiKey (index : nat) (integrations : list integration)
  : list integration * message :=
(update_at index
   (fun item => mk (name item) (description item) (enabled item) true
                  (apiKey item) (testConnection item)) integrations,
 ApiKeySaved).

Definition handleTestConnection (index : nat) (integrations : list integration)
  : list integration * message :=
(update_at index
   (fun item => mk (name item) (description item) (enabled item) (configured item)
                  (apiKey item) true) integrations,
 ConnectionTested).

Definition handleApiKeyChange (index : nat) (value : string)
  (integrations : list integration) : list integration :=
update_at index
  (fun item => mk (name item) (description item) (enabled item) (configured item)
                 value (testConnection item)) integrations.

(** What the administrator can do on the page, and the state after it. *)
Inductive event :=
| Toggle (index : nat)
| SaveApiKey (index : nat)
| TestConnection (index : nat)
| ApiKeyChange (index : nat) (value : string).

Definition step (integrations : list integration) (e : event) : list integration :=
match e with
| Toggle i =>
    match handleToggleIntegration i integrations with
    | Some (l, _) => l
    | None => integrations
    end
| SaveApiKey i => fst (handleSaveApiKey i integrations)
| TestConnection i => fst (handleTestConnection i integrations)
| ApiKeyChange i v => handleApiKeyChange i v integrations
end.

End Integrations.

(** ** Issue page: when the issue can be submitted

    Quantities are JavaScript numbers; the finite ones are rationals and
    the comparisons of the page compare them exactly. *)

Module IssuePage.

Local Open Scope Qc_scope.

(** A row of the [items] query: [item_master] with [stock(current_qty)]. *)
Record item := mk { item_code : string; stock : list (option Qc) }.

(** [items?.find(item => item.item_code === formData.item_code)] *)
Definition selectedItem (items : list item) (code : string) : option item :=
List.find (fun it => String.eqb (item_code it) code) items.

(** [selectedItem?.stock?.[0]?.current_qty || 0] *)
Definition availableStock (items : list item) (code : string) : Qc :=
match selectedItem items code with
| Some it =>
    match stock it with
    | Some q :: _ => q
    | _ => 0
    end
| None => 0
end.

Definition isStockSufficient (items : list item) (code : string) (qty_issued : Qc)
  : bool :=
bool_decide (qty_issued <= availableStock items code).

(** The warning inside the alert of the selected item:
  [selectedItem && ... !isStockSufficient && formData.qty_issued > 0 &&
   <p>Insufficient stock! ...</p>] *)
Definition insufficient_stock_warning (items : list item) (code : string)
  (qty_issued : Qc) : bool :=
bool_decide (is_Some (selectedItem items code))
&& negb (isStockSufficient items code qty_issued)
&& bool_decide (0 < qty_issued).

(** [disabled={isSubmitting || !isStockSufficient || formData.qty_issued === 0}] *)
Definition submit_disabled (isSubmitting : bool) (items : list item)
  (code : string) (qty_issued : Qc) : bool :=
isSubmitting || negb (isStockSufficient items code qty_issued)
|| bool_decide (qty_issued = 0).

End IssuePage.

(** ** Dashboard: the days-of-cover badge

    [days] is the [days_of_cover] column as a JavaScript number.  The
    column is rounded to one decimal, so the comparisons with 0, 10 and
    30 and [toFixed(0)] (nearest integer, ties away from zero) act on it
    as on the exact value. *)

Module Dashboard.

Local Open Scope Qc_scope.

Inductive badge :=
| NA
| Good (days : Z)
| Medium (days : Z)
| Low (days : Z).

Definition toFixed0 (x : Qc) : Z := Sql.round_half_away x.

Definition getDaysOfCoverBadge (days : option Qc) : badge :=
match days with
| None => NA
| Some d =>
    if decide (d = 0) then NA
    else if decide (Sql.lit 30 < d) then Good (toFixed0 d)
    else if decide (Sql.lit 10 < d) then Medium (toFixed0 d)
    else Low (toFixed0 d)
end.

End Dashboard.

Definition enabled_implies_configured (x : Integrations.integration) : Prop :=
  Integrations.enabled x = true → Integrations.configured x = true.

(** * More concrete inputs *)

Module Sample2.

(** The reference datastore answering the requests of the conflict
  check: the same code generation, and the item lookup by code. *)
Definition check_backend (q : ConflictRequest) (st : Ref.Store) : Settled * Ref.Store :=
match q with
| check_generate_item_code c qualifier size _ =>
    (Ref.ok (Some (Ref.generate_item_code c qualifier size)), st)
| check_item_master_select code =>
    match Ref.items st !! code with
    | Some _ => (Ref.ok (Some code), st)
    | None => (Ref.failed "JSON object requested, multiple (or no) rows returned", st)
    end
end.

Definition empty_state : UI.state := UI.mk None None [] [] false None [].

(** A file with a comma inside a quoted field. *)
Definition written_header : string := "item_name,category_name,uom".

Definition written_rows : list (list string) :=
[["Bolt, M8"; "Raw Materials"; "PCS"]; ["Nut"; "Finished Goods"; "KG"]].

(** A file without the category column. *)
Definition no_category_column : CSVData :=
{| headers := ["item_name"; "uom"]; rows := [["Bolt"; "PCS"]; ["Nut"; "KG"]] |}.

End Sample2.

(** A file whose first row generates the code of an existing item. *)
Definition conflicting_text : string :=
  write_csv Sample2.written_header
    [["Bolt M8"; "raw materials"; "PCS"]; ["Nut"; "Finished Goods"; "KG"]].

(** * Theorems *)

Local Open Scope string_scope.
Local Open Scope nat_scope.
Local Open Scope list_scope.

(** * Division of [numeric] *)

Section NumericDivision.

Import Sql.
Local Open Scope Z_scope.

Lemma NBASE_pow_pos k : 0 <= k → 0 < NBASE ^ k.
Proof. intros H. apply Z.pow_pos_nonneg; [reflexivity | exact H]. Qed.

Lemma NBASE_pow_succ k : 0 <= k → NBASE ^ (k + 1) = NBASE * NBASE ^ k.
Proof. intros H. rewrite Z.pow_add_r by lia. rewrite Z.pow_1_r. lia. Qed.

(** Enough fuel gives the weight. *)
Lemma weight_up_spec fuel n d :
0 < d → d <= n → n < d * NBASE ^ Z.of_nat fuel →
let w := weight_up fuel n d in
0 <= w ∧ d * NBASE ^ w <= n ∧ n < d * NBASE ^ (w + 1).
Proof.
revert d. induction fuel as [| fuel IH]; intros d Hd Hle Hlt.
- simpl in Hlt. lia.
- cbn [weight_up]. destruct (NBASE * d <=? n) eqn:E.
  + apply Z.leb_le in E.
    assert (Hfuel : n < NBASE * d * NBASE ^ Z.of_nat fuel).
    { rewrite Nat2Z.inj_succ, <- Z.add_1_r, NBASE_pow_succ in Hlt by lia. lia. }
    assert (Hd' : 0 < NBASE * d) by (unfold NBASE; lia).
    destruct (IH (NBASE * d) Hd' E Hfuel) as (H0 & H1 & H2).
    cbv zeta. set (w := weight_up fuel n (NBASE * d)) in *.
    split; [lia |].
    replace (1 + w) with (w + 1) by lia.
    rewrite NBASE_pow_succ in H2 by lia.
    rewrite !NBASE_pow_succ by lia. unfold NBASE in *. split; lia.
  + apply Z.leb_gt in E. cbv zeta. simpl. unfold NBASE in *. lia.
Qed.

Lemma weight_down_spec fuel n d :
0 < n → d <= n * NBASE ^ Z.of_nat fuel →
let w := weight_down fuel n d in
(d <= n → w = 0)
∧ (n < d → w < 0 ∧ d <= n * NBASE ^ (- w) ∧ n * NBASE ^ (- w) < d * NBASE).
Proof.
revert n. induction fuel as [| fuel IH]; intros n Hn Hle.
- simpl in *. split; [reflexivity | lia].
- cbn [weight_down]. destruct (n <? d) eqn:E.
  + apply Z.ltb_lt in E.
    assert (Hfuel : d <= NBASE * n * NBASE ^ Z.of_nat fuel).
    { rewrite Nat2Z.inj_succ, <- Z.add_1_r, NBASE_pow_succ in Hle by lia. lia. }
    assert (Hn' : 0 < NBASE * n) by (unfold NBASE; lia).
    destruct (IH (NBASE * n) Hn' Hfuel) as [H0 H1].
    cbv zeta. set (w := weight_down fuel (NBASE * n) d) in *.
    split; [lia |]. intros _.
    destruct (Z_lt_le_dec (NBASE * n) d) as [Hlt | Hge].
    * destruct (H1 Hlt) as (Hw & Ha & Hb). split; [lia |].
      replace (- (w - 1)) with (- w + 1) by lia.
      rewrite NBASE_pow_succ by lia. unfold NBASE in *. split; lia.
    * rewrite (H0 Hge). simpl. unfold NBASE in *. split; lia.
  + apply Z.ltb_ge in E. cbv zeta. split; [reflexivity | lia].
Qed.

Lemma fuel_enough m : 0 < m → m < NBASE ^ Z.of_nat (S (Z.to_nat (Z.log2 m))).
Proof.
intros Hm. rewrite Nat2Z.inj_succ, Z2Nat.id by apply Z.log2_nonneg.
apply Z.lt_le_trans with (2 ^ Z.succ (Z.log2 m)).
- apply Z.log2_spec. exact Hm.
- apply Z.pow_le_mono_l. unfold NBASE. lia.
Qed.

(** What [weight] computes: for [x = n / d] other than 0, the [w] with
  [10000^w <= |x| < 10000^(w + 1)]. *)
Lemma weight_spec (x : Qc) :
let n := Z.abs (Qnum x) in
let d := Zpos (Qden x) in
let w := weight x in
n ≠ 0 →
(0 <= w → d * NBASE ^ w <= n ∧ n < d * NBASE ^ (w + 1))
∧ (w < 0 → d <= n * NBASE ^ (- w) ∧ n * NBASE ^ (- w) < d * NBASE).
Proof.
cbv zeta. intros Hn. unfold weight.
set (n := Z.abs (Qnum x)) in *. set (d := Zpos (Qden x)) in *.
assert (Hd : 0 < d) by (unfold d; lia).
assert (Hn0 : 0 < n) by (unfold n in *; lia).
destruct (n =? 0) eqn:E0; [apply Z.eqb_eq in E0; contradiction |].
assert (Hm : 0 < Z.max n d) by lia.
pose proof (fuel_enough (Z.max n d) Hm) as Hfuel.
set (fuel := S (Z.to_nat (Z.log2 (Z.max n d)))) in *.
assert (Hp : 0 < NBASE ^ Z.of_nat fuel) by (apply NBASE_pow_pos; lia).
destruct (d <=? n) eqn:E.
- apply Z.leb_le in E.
  assert (Hlt : n < d * NBASE ^ Z.of_nat fuel) by nia.
  destruct (weight_up_spec fuel n d Hd E Hlt) as (H0 & H1 & H2).
  split; [auto | lia].
- apply Z.leb_gt in E.
  assert (Hle : d <= n * NBASE ^ Z.of_nat fuel) by nia.
  destruct (weight_down_spec fuel n d Hn0 Hle) as [_ H1].
  destruct (H1 E) as (Hw & Ha & Hb). split; [lia | auto].
Qed.

(** The first digit of a number other than 0 is a digit other than 0. *)
Lemma first_digit_range (x : Qc) : Qnum x ≠ 0 → 1 <= first_digit x < NBASE.
Proof.
intros Hx. unfold first_digit.
assert (Hn : Z.abs (Qnum x) ≠ 0) by lia.
destruct (weight_spec x Hn) as [Hup Hdown].
set (n := Z.abs (Qnum x)) in *. set (d := Zpos (Qden x)) in *.
set (w := weight x) in *.
assert (Hd : 0 < d) by (unfold d; lia).
destruct (0 <=? w) eqn:E.
- apply Z.leb_le in E. destruct (Hup E) as [H1 H2].
  pose proof (NBASE_pow_pos w E) as Hp.
  rewrite NBASE_pow_succ in H2 by exact E.
  split.
  + apply Z.div_le_lower_bound; nia.
  + apply Z.div_lt_upper_bound; nia.
- apply Z.leb_gt in E. destruct (Hdown E) as [H1 H2].
  split.
  + apply Z.div_le_lower_bound; lia.
  + apply Z.div_lt_upper_bound; lia.
Qed.

Lemma pow10_pos k : 0 < pow10 k.
Proof. unfold pow10. apply Z.pow_pos_nonneg; lia. Qed.

(** [x >= 10^-k], read on the numerator and the denominator of [x]. *)
Lemma dec_le (k : nat) (x : Qc) :
(dec 1 k <= x)%Qc → Zpos (Qden x) <= Qnum x * pow10 k.
Proof.
unfold dec. pose proof (pow10_pos k) as Hp.
destruct (pow10 k) as [| p | p]; try lia.
unfold Qcle, Qcdiv, Qcmult, Qcinv. cbn [this Q2Qc].
rewrite !Qred_correct.
unfold Qle. simpl. lia.
Qed.

(** A number that is at least half a unit of the last place does not
  round to zero. *)
Lemma ROUND_not_zero (y : Qc) (d : nat) :
(Q2Qc (1 # 2) <= y * Q2Qc (inject_Z (pow10 d)))%Qc → ROUND y d ≠ Q2Qc 0.
Proof.
intros Hhalf. pose proof (pow10_pos d) as Hp.
unfold ROUND. intros E.
assert (Hp0 : Q2Qc (inject_Z (pow10 d)) ≠ Q2Qc 0).
{ intros E0. apply Q2Qc_eq_iff in E0. unfold Qeq in E0. simpl in E0. lia. }
apply (f_equal (fun q => Qcmult (Q2Qc (inject_Z (pow10 d))) q)) in E.
rewrite Qcmult_div_r in E by exact Hp0.
rewrite Qcmult_0_r in E. apply Q2Qc_eq_iff in E.
unfold Qeq in E. simpl in E.
assert (Hz : round_half_away (y * Q2Qc (inject_Z (pow10 d))) = 0) by lia.
clear E. revert Hz. unfold round_half_away.
set (z := (y * Q2Qc (inject_Z (pow10 d)))%Qc) in *.
destruct (decide (Q2Qc 0 <= z)%Qc) as [_ | N].
- intros Hz.
  assert (H1 : 1 <= Qfloor (this z + this (Q2Qc (1 # 2)))%Q).
  { change 1 with (Qfloor 1). apply Qfloor_resp_le.
    unfold Qcle in Hhalf.
    apply Qle_trans with (this (Q2Qc (1 # 2)) + this (Q2Qc (1 # 2)))%Q;
      [discriminate |].
    apply Qplus_le_compat; [exact Hhalf | apply Qle_refl]. }
  rewrite Hz in H1. lia.
- exfalso. apply N. eapply Qcle_trans; [| exact Hhalf]. discriminate.
Qed.

Lemma pow10_NBASE k : 0 <= k → NBASE ^ k = 10 ^ (4 * k).
Proof. intros H. rewrite Z.pow_mul_r by lia. reflexivity. Qed.

(** The scale of [x / W.0] keeps the quotient of an [x] of at least
  [10^-998] from rounding to zero: the scale is 1000, or it leaves
  the quotient 16 digits. *)
Lemma pow10_add a b : pow10 (a + b) = pow10 a * pow10 b.
Proof. unfold pow10. rewrite Nat2Z.inj_add, Z.pow_add_r by lia. reflexivity. Qed.

Lemma daily_rate_scale (x : Qc) (scale : nat) (W : Z) :
W = 7 ∨ W = 30 ∨ W = 90 →
Zpos (Qden x) <= Qnum x * pow10 998 →
Zpos (Qden x) * W
<= 2 * Qnum x
   * pow10 (select_div_scale (mkNumeric x scale) (stock_summary.days_literal W)).
Proof.
intros HW Hx.
pose proof (pow10_pos 998) as Hp998.
pose proof (pow10_add 998 2) as Hp1000.
change (pow10 2) with 100 in Hp1000.
set (P := pow10 998) in *.
set (n := Qnum x) in *. set (d := Zpos (Qden x)) in *.
assert (Hd : 0 < d) by (unfold d; lia).
assert (Hn : 0 < n).
{ clear Hp1000. clearbody P n d. destruct (Z_lt_le_dec 0 n) as [H | H]; [exact H |].
  exfalso. assert (n * P <= 0) by (apply Z.mul_nonpos_nonneg; lia). lia. }
assert (Habs : Z.abs (Qnum x) = n) by (clear - Hn; unfold n in *; lia).
assert (Hn0 : Z.abs (Qnum x) ≠ 0) by (clear - Hn Habs; lia).
pose proof (weight_spec x Hn0) as [Hup Hdown]. rewrite Habs in Hup, Hdown.
fold d in Hup, Hdown.
unfold select_div_scale. cbn [value dscale stock_summary.days_literal].
assert (Hw : weight (lit W) = 0 ∧ 7 <= W <= 90).
{ destruct HW as [-> | [-> | ->]]; (split; [vm_compute; reflexivity | lia]). }
destruct Hw as (Hw & HWr). rewrite Hw.
set (w := weight x) in *.
set (R := Z.min _ NUMERIC_MAX_DISPLAY_SCALE).
assert (HR : R = 1000 ∨ (16 - 4 * w <= R ∧ 1 <= R)).
{ clear. unfold R, NUMERIC_MAX_DISPLAY_SCALE, NUMERIC_MIN_SIG_DIGITS, DEC_DIGITS.
  destruct (first_digit x <=? first_digit (lit W)); lia. }
clearbody R w n d P. clear Habs Hn0 Hw.
assert (Hgoal : ∀ e, 45 * d <= n * e → d * W <= 2 * n * e).
{ clear - HWr Hd. intros e He.
  assert (d * W <= d * 90) by (apply Z.mul_le_mono_nonneg_l; lia). lia. }
destruct HR as [-> | [HR1 HR2]].
- change (Z.to_nat 1000) with (998 + 2)%nat. rewrite Hp1000. apply Hgoal.
  clear - Hx Hd. lia.
- clear Hx Hp998 Hp1000 P. unfold pow10. rewrite Z2Nat.id by (clear - HR2; lia).
  apply Hgoal. clear Hgoal HW HWr.
  destruct (Z_lt_le_dec w 0) as [Hneg | Hpos].
  + destruct (Hdown Hneg) as [H1 _]. clear Hup Hdown.
    rewrite pow10_NBASE in H1 by (clear - Hneg; lia).
    replace R with ((R + 4 * w) + 4 * - w) by (clear; lia).
    rewrite Z.pow_add_r by (clear - Hneg HR1; lia).
    assert (H16 : 10 ^ 16 <= 10 ^ (R + 4 * w))
      by (apply Z.pow_le_mono_r; clear - HR1; lia).
    change (10 ^ 16) with 10000000000000000 in H16.
    set (e := 10 ^ (R + 4 * w)) in *. set (q := 10 ^ (4 * - w)) in *.
    clearbody e q. clear - H1 H16 Hn Hd.
    assert (0 <= n * q) by lia.
    assert (n * q * 45 <= n * q * e) by (apply Z.mul_le_mono_nonneg_l; lia).
    lia.
  + destruct (Hup Hpos) as [H1 _]. clear Hup Hdown.
    assert (Hq : 1 <= 10 ^ R)
      by (apply Z.lt_pred_le, Z.pow_pos_nonneg; clear - HR2; lia).
    destruct (Z.eq_dec w 0) as [E | E].
    * rewrite E in *. rewrite Z.pow_0_r in H1.
      assert (H16 : 10 ^ 16 <= 10 ^ R) by (apply Z.pow_le_mono_r; clear - HR1; lia).
      change (10 ^ 16) with 10000000000000000 in H16.
      set (e := 10 ^ R) in *. clearbody e. clear - H1 H16 Hn Hd.
      assert (n * 45 <= n * e) by (apply Z.mul_le_mono_nonneg_l; lia).
      lia.
    * assert (Hb : NBASE ^ 1 <= NBASE ^ w)
        by (apply Z.pow_le_mono_r; unfold NBASE; clear - E Hpos; lia).
      change (NBASE ^ 1) with 10000 in Hb.
      set (e := 10 ^ R) in *. set (b := NBASE ^ w) in *.
      clearbody e b. clear - H1 Hb Hq Hn Hd.
      assert (d * 10000 <= d * b) by (apply Z.mul_le_mono_nonneg_l; lia).
      assert (n * 1 <= n * e) by (apply Z.mul_le_mono_nonneg_l; lia).
      lia.
Qed.

(** In the view the divisor of the days of cover is not zero when the
  sum of the window is at least [10^-998]. *)
Lemma daily_rate_not_zero (x : Qc) (scale : nat) (W : Z) :
W = 7 ∨ W = 30 ∨ W = 90 →
(dec 1 998 <= x)%Qc →
value (div (mkNumeric x scale) (stock_summary.days_literal W)) ≠ Q2Qc 0.
Proof.
intros HW Hx. apply dec_le in Hx.
pose proof (daily_rate_scale x scale W HW Hx) as H.
unfold div. cbn [value]. apply ROUND_not_zero.
set (rs := select_div_scale _ _) in *.
pose proof (pow10_pos rs) as Hp.
unfold Qcle, Qcdiv, Qcmult, Qcinv, lit. cbn [this Q2Qc].
rewrite !Qred_correct.
destruct (pow10 rs) as [| p | p]; try lia.
destruct x as [[n d] C]. cbn [this Qnum Qden stock_summary.days_literal value] in *.
destruct HW as [-> | [-> | ->]]; unfold Qle; simpl in *; lia.
Qed.

(** The result scale is at most 1000 digits and, up to that cap, not
  less than the display scale of either operand. *)
Lemma select_div_scale_bounds var1 var2 :
(select_div_scale var1 var2 <= 1000
 ∧ Nat.min (dscale var1) 1000 <= select_div_scale var1 var2
 ∧ Nat.min (dscale var2) 1000 <= select_div_scale var1 var2)%nat.
Proof.
unfold select_div_scale, NUMERIC_MAX_DISPLAY_SCALE.
set (r := NUMERIC_MIN_SIG_DIGITS - _). clearbody r. lia.
Qed.

Lemma numeric_eq (a : numeric) (v : Qc) (s : nat) :
dscale a = s → Qeq_bool (value a) v = true → a = mkNumeric v s.
Proof.
destruct a as [x d]. simpl. intros -> H. f_equal.
apply Qc_is_canon, Qeq_bool_iff, H.
Qed.

(** The division on quotients that PostgreSQL prints as
  0.33333333333333333333, 0.66666666666666666667, 3.3333333333333333
  and 33333.333333333333. *)
Example numeric_division_scales :
div (mkNumeric (lit 1) 0) (mkNumeric (lit 3) 1)
= mkNumeric (dec 33333333333333333333 20) 20
∧ div (mkNumeric (lit 2) 0) (mkNumeric (lit 3) 1)
  = mkNumeric (dec 66666666666666666667 20) 20
∧ div (mkNumeric (lit 10) 0) (mkNumeric (lit 3) 1)
  = mkNumeric (dec 33333333333333333 16) 16
∧ div (mkNumeric (lit 100000) 0) (mkNumeric (lit 3) 1)
  = mkNumeric (dec 33333333333333333 12) 12.
Proof. repeat split; apply numeric_eq; vm_compute; reflexivity. Qed.

End NumericDivision.

(** * Properties of the stock summary view *)

Section Aggregator.

Import Sql.
Local Open Scope Qc_scope.

Lemma COALESCE_SUM xs : COALESCE (SUM xs) 0 = total_of xs.
Proof. destruct xs; reflexivity. Qed.

Lemma view_row db today r :
  r ∈ stock_summary.view db today ↔
  ∃ s, s ∈ tbl_stock db ∧ r = stock_summary.select db today s.
Proof.
  unfold stock_summary.view. rewrite list_elem_of_fmap.
  split; intros (s & H1 & H2); exists s; auto.
Qed.

Lemma issue_W_select db today s w :
  issue_W w (stock_summary.select db today s) =
  COALESCE (stock_summary.recent_consumption (window_days w) db today
              (stock.item_code s)) 0.
Proof. destruct w; reflexivity. Qed.


Lemma cover_W_select db today s w :
  days_of_cover_W w (stock_summary.select db today s) =
  stock_summary.days_of_cover_case (current_numeric s)
    (stock_summary.recent_consumption (window_days w) db today (stock.item_code s))
    (stock_summary.recent_consumption_dscale (window_days w) db today
       (stock.item_code s))
    (window_days w).
Proof. destruct w; reflexivity. Qed.



Lemma cover_case current issue issue_dscale W :
  stock_summary.days_of_cover_case current issue issue_dscale W =
  if decide (0 < COALESCE issue 0)
  then ROUND (value (div current
                       (div (mkNumeric (COALESCE issue 0) issue_dscale)
                            (stock_summary.days_literal W)))) 1
  else if decide (0 < value current ∧ COALESCE issue 0 = 0) then lit 999999 else 0.
Proof.
  unfold stock_summary.days_of_cover_case.
  destruct (decide (0 < COALESCE issue 0)) as [H |]; [| reflexivity].
  destruct issue; [reflexivity |]. exfalso. exact (Qlt_irrefl _ H).
Qed.

(** C5.  For every row of the view, the total received and the total
    issued are the sums over the item's receipts and issues (0 when
    there are none), [calculated_qty] is
    [opening_qty + total_grn_qty - total_issued_qty], and the
    validation status is "MISMATCH" exactly when
    [|calculated_qty - current_qty| > 0.01] and "OK" otherwise.  The
    status filters nothing: the view has one row per stock record. *)
Theorem calculated_qty_and_validation_status db today r :
  r ∈ stock_summary.view db today →
  stock_summary.total_grn_qty r
    = total_of (grn_log.qty_received <$>
               List.filter (fun g => String.eqb (grn_log.item_code g)
                                       (stock_summary.item_code r)) (tbl_grn_log db))
  ∧ stock_summary.total_issued_qty r
    = total_of (issue_log.qty_issued <$>
               List.filter (fun i => String.eqb (issue_log.item_code i)
                                       (stock_summary.item_code r)) (tbl_issue_log db))
  ∧ stock_summary.calculated_qty r
    = stock_summary.opening_qty r + stock_summary.total_grn_qty r
      - stock_summary.total_issued_qty r
  ∧ (stock_summary.stock_validation_status r = "MISMATCH" ↔
     dec 1 2 < ABS (stock_summary.calculated_qty r - stock_summary.current_qty r))
  ∧ (stock_summary.stock_validation_status r = "OK" ↔
     ¬ dec 1 2 < ABS (stock_summary.calculated_qty r - stock_summary.current_qty r))
  ∧ length (stock_summary.view db today) = length (tbl_stock db).
Proof.
  intros Hr. apply view_row in Hr as (s & Hs & ->). cbn [stock_summary.select
    stock_summary.total_grn_qty stock_summary.total_issued_qty
    stock_summary.calculated_qty stock_summary.opening_qty
    stock_summary.current_qty stock_summary.stock_validation_status
    stock_summary.item_code].
  repeat split.
  - apply COALESCE_SUM.
  - apply COALESCE_SUM.
  - destruct (decide _); [trivial | discriminate].
  - intros H. destruct (decide _); [reflexivity | contradiction].
  - destruct (decide _); [discriminate | trivial].
  - intros H. destruct (decide _); [contradiction | reflexivity].
  - unfold stock_summary.view. apply length_fmap.
Qed.


(** C1, as the view computes it.  Every row of the view is the row of
    a stock record, and for every window W: when [issue_W > 0] the
    days of cover are [ROUND(current_qty / (issue_W / W.0), 1)], where
    the divisor is not the 3-decimal consumption rate but the quotient
    [issue_W / W.0] as the division of [numeric] returns it, rounded
    to its result scale of 16 significant digits or more, and the
    outer quotient is rounded to its own result scale before [ROUND];
    the divisor is not zero when [issue_W] is at least 10^-998; when
    [issue_W = 0] and [current_qty > 0] the days of cover are the
    sentinel 999999; in every other case they are 0.  The primary
    [days_of_cover] column is the 30-day one. *)
Theorem days_of_cover_rule db today r w :
  r ∈ stock_summary.view db today →
  ∃ s, s ∈ tbl_stock db ∧ r = stock_summary.select db today s
    ∧ stock_summary.current_qty r = value (current_numeric s)
    ∧ issue_W w r = value (issue_numeric_W w db today s)
    ∧ (0 < issue_W w r →
         days_of_cover_W w r
         = ROUND (value (div (current_numeric s)
                           (div (issue_numeric_W w db today s)
                                (stock_summary.days_literal (window_days w))))) 1)
    ∧ (dec 1 998 <= issue_W w r →
         value (div (issue_numeric_W w db today s)
                  (stock_summary.days_literal (window_days w))) ≠ 0)
    ∧ (issue_W w r = 0 → 0 < stock_summary.current_qty r →
         days_of_cover_W w r = lit 999999)
    ∧ (¬ 0 < issue_W w r →
         ¬ (0 < stock_summary.current_qty r ∧ issue_W w r = 0) →
         days_of_cover_W w r = 0)
    ∧ days_of_cover_W W30 r = stock_summary.days_of_cover r.
Proof.
  intros Hr. apply view_row in Hr as (s & Hs & ->). exists s.
  split; [exact Hs |]. split; [reflexivity |].
  rewrite issue_W_select, cover_W_select, cover_case.
  cbn [stock_summary.select stock_summary.current_qty].
  unfold issue_numeric_W. cbn [value current_numeric].
  set (issue := COALESCE _ 0).
  repeat split.
  - intros H. destruct (decide (0 < issue)); [reflexivity | contradiction].
  - apply daily_rate_not_zero. destruct w; simpl; auto.
  - intros H0 Hc. destruct (decide (0 < issue)) as [Hlt | _].
    + rewrite H0 in Hlt. exfalso. exact (Qlt_irrefl _ Hlt).
    + destruct (decide _) as [_ | Hn]; [reflexivity |]. exfalso. apply Hn. auto.
  - intros Hn1 Hn2. destruct (decide (0 < issue)); [contradiction |].
    destruct (decide _); [contradiction | reflexivity].
Qed.

End Aggregator.


(** ** The view on the concrete tables *)

Section AggregatorExamples.

Import Sql.
Local Open Scope Qc_scope.

Lemma Qc_eq_by_value (x y : Qc) : Qeq_bool x y = true → x = y.
Proof. intros H. apply Qc_is_canon. apply Qeq_bool_iff. exact H. Qed.

Lemma Qc_neq_by_value (x y : Qc) : Qeq_bool x y = false → x ≠ y.
Proof.
  intros H E. subst y. rewrite (proj2 (Qeq_bool_iff x x)) in H; [discriminate |].
  reflexivity.
Qed.

Lemma scenario_row :
  stock_summary.select Scenario.tables 0 Scenario.item
    ∈ stock_summary.view Scenario.tables 0.
Proof. apply view_row. exists Scenario.item. split; [left | reflexivity]. Qed.

Lemma slow_row :
  stock_summary.select Scenario.slow_tables 0 Scenario.slow_item
    ∈ stock_summary.view Scenario.slow_tables 0.
Proof. apply view_row. exists Scenario.slow_item. split; [left | reflexivity]. Qed.

(** The scenario of the specification, evaluated. *)
Example scenario_values :
  let r := stock_summary.select Scenario.tables 0 Scenario.item in
  stock_summary.calculated_qty r = lit 120
  ∧ stock_summary.stock_validation_status r = "OK"
  ∧ stock_summary.issue_7d r = lit 30
  ∧ stock_summary.consumption_rate_7d r = dec 4286 3
  ∧ stock_summary.days_of_cover_7d r = lit 28.
Proof.
  cbv zeta. repeat split; apply Qc_eq_by_value; vm_compute; reflexivity.
Qed.

Lemma calculated_qty_and_validation_status_witness :
  let r := stock_summary.select Scenario.tables 0 Scenario.item in
  r ∈ stock_summary.view Scenario.tables 0
  ∧ stock_summary.calculated_qty r
    = stock_summary.opening_qty r + stock_summary.total_grn_qty r
      - stock_summary.total_issued_qty r.
Proof.
  split; [exact scenario_row |].
  apply (calculated_qty_and_validation_status Scenario.tables 0 _ scenario_row).
Defined.


Lemma days_of_cover_rule_witness :
  let r := stock_summary.select Scenario.tables 0 Scenario.item in
  r ∈ stock_summary.view Scenario.tables 0
  ∧ ∃ s, s ∈ tbl_stock Scenario.tables
      ∧ r = stock_summary.select Scenario.tables 0 s
      ∧ (0 < issue_W W7 r →
           days_of_cover_W W7 r
           = ROUND (value (div (current_numeric s)
                             (div (issue_numeric_W W7 Scenario.tables 0 s)
                                  (stock_summary.days_literal 7)))) 1).
Proof.
  split; [exact scenario_row |].
  destruct (days_of_cover_rule Scenario.tables 0 _ W7 scenario_row)
    as (s & Hs & Hr & _ & _ & H & _).
  exists s. split; [exact Hs |]. split; [exact Hr | exact H].
Defined.

(** With one unit issued in seven days and 1000 in stock the view
    reports 7000 days, while dividing by the rate rounded to three
    decimals (0.143) gives 6993. *)
Lemma days_of_cover_rounded_rate_counterexample :
  let r := stock_summary.select Scenario.slow_tables 0 Scenario.slow_item in
  r ∈ stock_summary.view Scenario.slow_tables 0
  ∧ 0 < issue_W W7 r
  ∧ consumption_rate_W W7 r = dec 143 3
  ∧ days_of_cover_W W7 r = lit 7000
  ∧ ROUND (stock_summary.current_qty r / consumption_rate_W W7 r) 1 = lit 6993
  ∧ days_of_cover_W W7 r
    ≠ ROUND (stock_summary.current_qty r / consumption_rate_W W7 r) 1.
Proof.
  cbv zeta. split; [exact slow_row |]. split; [vm_compute; reflexivity |].
  repeat split; try (apply Qc_eq_by_value; vm_compute; reflexivity).
  apply Qc_neq_by_value. vm_compute. reflexivity.
Qed.

Lemma last_row :
  stock_summary.select Scenario.last_tables 0 Scenario.last_item
    ∈ stock_summary.view Scenario.last_tables 0.
Proof. apply view_row. exists Scenario.last_item. split; [left | reflexivity]. Qed.

(** The divisions are those of [numeric].  With one unit in stock and
    8 issued in the last 30 days, the daily rate is 8 / 30.0 at 20
    digits, 0.26666666666666666667, and the view reports 3.7 days
    (11.2 for the 90-day window); the quotient of the exact numbers,
    3.75, would round to 3.8 (11.25 to 11.3). *)
Example days_of_cover_divides_as_numeric :
  let r := stock_summary.select Scenario.last_tables 0 Scenario.last_item in
  r ∈ stock_summary.view Scenario.last_tables 0
  ∧ div (mkNumeric (issue_W W30 r) 0) (stock_summary.days_literal 30)
    = mkNumeric (dec 26666666666666666667 20) 20
  ∧ days_of_cover_W W30 r = dec 37 1
  ∧ days_of_cover_W W90 r = dec 112 1
  ∧ ROUND (stock_summary.current_qty r / (issue_W W30 r / lit 30)) 1 = dec 38 1
  ∧ ROUND (stock_summary.current_qty r / (issue_W W90 r / lit 90)) 1 = dec 113 1.
Proof.
  cbv zeta. split; [exact last_row |].
  split.
  { unfold div.
    replace (select_div_scale _ _) with 20%nat by (vm_compute; reflexivity).
    f_equal; try (apply Qc_eq_by_value; vm_compute; reflexivity). }
  repeat split; apply Qc_eq_by_value; vm_compute; reflexivity.
Qed.

End AggregatorExamples.

(** * Properties of the CSV parser *)

Section Parser.

Lemma filter_nil_iff {A} (f : A → bool) (l : list A) :
  List.filter f l = [] ↔ Forall (fun x => f x = false) l.
Proof.
  induction l as [| x l IH]; simpl.
  - split; [constructor | reflexivity].
  - destruct (f x) eqn:E; split; intros H.
    + discriminate.
    + inversion H; congruence.
    + constructor; [exact E | apply IH, H].
    + inversion H; subst. apply IH. assumption.
Qed.

(** [parseCSV] throws exactly when no line of the text is non-blank,
    and then with the message "CSV file is empty". *)
Lemma parseCSV_throws_iff text :
  (∃ t, parseCSV text = inl t)
  ↔ Forall (fun line => JS.trim line = "") (JS.split JS.newline text).
Proof.
  unfold parseCSV.
  assert (Hb : ∀ l, non_blank l = false ↔ JS.trim l = "").
  { intros l. unfold non_blank. destruct (JS.trim l); simpl; split; congruence. }
  split.
  - intros [t Ht].
    destruct (List.filter non_blank _) eqn:E; [| discriminate].
    apply filter_nil_iff in E. eapply Forall_impl; [| exact E].
    intros l. apply Hb.
  - intros H.
    assert (E : List.filter non_blank (JS.split JS.newline text) = []).
    { apply filter_nil_iff. eapply Forall_impl; [| exact H]. intros l. apply Hb. }
    rewrite E. eexists. reflexivity.
Qed.

Lemma parseCSV_throws_message text t :
  parseCSV text = inl t → t = ErrorObject "CSV file is empty".
Proof.
  unfold parseCSV. destruct (List.filter _ _); intros H; inversion H. reflexivity.
Qed.

(** On success the first non-blank line gives the headers and every
    other non-blank line one row. *)
Lemma parseCSV_rows text first others :
  List.filter non_blank (JS.split JS.newline text) = first :: others →
  parseCSV text
  = inr {| headers := parse_header first; rows := parse_row <$> others |}.
Proof. unfold parseCSV. intros ->. reflexivity. Qed.

(** *** Quoted fields of a data row *)

Lemma append_cons x (a b : string) : String x a +:+ b = String x (a +:+ b).
Proof. reflexivity. Qed.

Lemma append_nil_l (b : string) : EmptyString +:+ b = b.
Proof. reflexivity. Qed.

Lemma append_assoc_char (a : string) c (b : string) :
  (a +:+ String c EmptyString) +:+ b = a +:+ String c b.
Proof.
  induction a as [| x a IH]; [reflexivity |].
  rewrite !append_cons, IH. reflexivity.
Qed.

Lemma append_empty_r (a : string) : a +:+ EmptyString = a.
Proof.
  induction a as [| x a IH]; [reflexivity |]. rewrite append_cons, IH. reflexivity.
Qed.

(** Inside quotes every character other than a quote is appended to
    the current cell, commas included. *)
Lemma tokenize_inside f tail cells current :
  no_quote f = true →
  tokenize (f +:+ tail) cells current true
  = tokenize tail cells (current +:+ f) true.
Proof.
  revert current. induction f as [| c f IH]; intros current H.
  - rewrite append_nil_l, append_empty_r. reflexivity.
  - simpl in H. apply andb_prop in H as [Hc Hf]. apply negb_true_iff in Hc.
    rewrite append_cons. simpl. rewrite Hc, andb_false_r.
    rewrite IH by assumption. rewrite append_assoc_char. reflexivity.
Qed.

Lemma strip_trailing_no_quote s : no_quote s = true → JS.strip_trailing_quote s = s.
Proof.
  induction s as [| c s IH]; [reflexivity |]. simpl. intros H.
  apply andb_prop in H as [Hc Hs]. apply negb_true_iff in Hc.
  destruct s; [rewrite Hc; reflexivity |]. rewrite IH by assumption. reflexivity.
Qed.

Lemma strip_quotes_no_quote s : no_quote s = true → JS.strip_quotes s = s.
Proof.
  intros H. unfold JS.strip_quotes.
  assert (E : JS.strip_leading_quote s = s).
  { destruct s; [reflexivity |]. simpl in *. apply andb_prop in H as [Hc _].
    apply negb_true_iff in Hc. rewrite Hc. reflexivity. }
  rewrite E. apply strip_trailing_no_quote, H.
Qed.

Lemma tokenize_quote rest cells current q :
  tokenize (String JS.dquote rest) cells current q
  = tokenize rest cells current (negb q).
Proof. reflexivity. Qed.

Lemma tokenize_comma rest cells current :
  tokenize (String JS.comma rest) cells current false
  = tokenize rest (cells ++ [JS.strip_quotes (JS.trim current)]) EmptyString false.
Proof. reflexivity. Qed.

Lemma tokenize_end cells current q :
  tokenize EmptyString cells current q
  = cells ++ [JS.strip_quotes (JS.trim current)].
Proof. reflexivity. Qed.

Lemma quoted_unfold f tail :
  JS.quoted f +:+ tail = String JS.dquote (f +:+ String JS.dquote tail).
Proof.
  unfold JS.quoted. rewrite !append_cons. f_equal.
  apply append_assoc_char.
Qed.

(** A well-formed line of quoted fields parses back to its fields:
    the commas inside a field do not separate. *)
Lemma tokenize_quoted_line f fs cells :
  plain_field f → Forall plain_field fs →
  tokenize (quoted_line f fs) cells EmptyString false = cells ++ f :: fs.
Proof.
  revert f cells. induction fs as [| g gs IH]; intros f cells [Hq Ht] Hfs.
  - cbn [quoted_line]. rewrite <- (append_empty_r (JS.quoted f)), quoted_unfold.
    rewrite tokenize_quote, tokenize_inside by assumption.
    rewrite tokenize_quote, tokenize_end, append_nil_l.
    rewrite Ht, strip_quotes_no_quote by assumption. reflexivity.
  - inversion Hfs as [| ? ? Hg Hgs]; subst.
    cbn [quoted_line]. rewrite quoted_unfold.
    rewrite tokenize_quote, tokenize_inside by assumption.
    rewrite tokenize_quote. cbn [negb]. rewrite tokenize_comma, append_nil_l.
    rewrite Ht, strip_quotes_no_quote by assumption.
    rewrite IH by assumption. rewrite <- app_assoc. reflexivity.
Qed.

Lemma parse_row_quoted_line f fs :
  plain_field f → Forall plain_field fs →
  parse_row (quoted_line f fs) = f :: fs.
Proof. intros Hf Hfs. unfold parse_row. apply tokenize_quoted_line; assumption. Qed.

(** No cell of a data row contains a quote character. *)
Lemma no_quote_append a b :
  no_quote a = true → no_quote b = true → no_quote (a +:+ b) = true.
Proof.
  intros Ha Hb. induction a as [| c a IH]; [exact Hb |].
  rewrite append_cons. simpl in *. apply andb_prop in Ha as [Hc Ha].
  rewrite Hc, IH by assumption. reflexivity.
Qed.

End Parser.

(** * Properties of row validation *)

Section Validation.

Variable categories : list Category.t.

Lemma find_category_known name :
  category_known categories name = true
  ↔ ∃ cat, find_category categories name = Some cat.
Proof.
  unfold category_known, find_category.
  induction categories as [| c cs IH]; simpl.
  - split; [discriminate | intros [? ?]; discriminate].
  - destruct (String.eqb _ _); simpl; [split; eauto | exact IH].
Qed.

Lemma find_category_unknown name :
  category_known categories name = false ↔ find_category categories name = None.
Proof.
  destruct (category_known categories name) eqn:E.
  - apply find_category_known in E as [cat ->]. split; discriminate.
  - split; [| reflexivity]. intros _.
    destruct (find_category categories name) eqn:F; [| reflexivity].
    assert (category_known categories name = true) by (apply find_category_known; eauto).
    congruence.
Qed.

Lemma blank_None_or_Some o : blank o = false → ∃ s, o = Some s.
Proof. destruct o; [eauto | discriminate]. Qed.

Lemma validateRow_fields rowData rowIndex :
  ValidationError.field <$> validateRow categories rowData rowIndex
  = violated_fields categories rowData.
Proof.
  unfold validateRow, violated_fields, present.
  destruct (blank (rowData !! "item_name"));
    destruct (blank (rowData !! "category_name")) eqn:Ec;
    destruct (blank (rowData !! "uom"));
    destruct (JS.truthy_opt (rowData !! "gsm") && _);
    destruct (JS.truthy_opt (rowData !! "status")) eqn:Es;
    unfold allowed_status;
    destruct (bool_decide _);
    try (apply blank_None_or_Some in Ec as [name ->]; cbn [find_category_opt default from_option id];
         destruct (category_known categories name) eqn:Ek;
         [ apply find_category_known in Ek as [cat ->]
         | apply find_category_unknown in Ek as -> ]);
    reflexivity.
Qed.

Lemma validateRow_rows rowData rowIndex :
  Forall (fun e => ValidationError.row e = rowIndex + 2
                   ∧ ValidationError.data e = rowData)
         (validateRow categories rowData rowIndex).
Proof.
  unfold validateRow.
  repeat match goal with
         | |- context [if ?b then _ else _] => destruct b
         | |- context [match ?o with Some _ => _ | None => _ end] => destruct o
         end;
    repeat (apply Forall_app; split); repeat constructor.
Qed.

(** The pass over the file is the concatenation of the rows' own
    results, at the rows' own indices. *)
Lemma validate_fold (h : nat → nat) acc (l : list (gmap string string)) :
  foldl (fun allErrors '(index, rowData) =>
           allErrors ++ validateRow categories rowData index)
        acc (imap (fun i r => (h i, r)) l)
  = acc ++ List.concat (imap (fun i r => validateRow categories r (h i)) l).
Proof.
  revert h acc. induction l as [| r l IH]; intros h acc; simpl.
  - rewrite app_nil_r. reflexivity.
  - rewrite (IH (h ∘ S)). rewrite <- app_assoc. reflexivity.
Qed.

Lemma validateRows_concat dataObjects :
  validateRows categories dataObjects
  = List.concat (imap (fun index rowData => validateRow categories rowData index)
              dataObjects).
Proof. unfold validateRows. apply (validate_fold (fun i => i) []). Qed.

(** C4.  The validation pass is the concatenation of the rows' own
    results; every error of the row with 0-based index [index] carries
    the row number [index + 2] and the row's data; and the fields of a
    row's errors are all the fields the row violates (item_name blank;
    category_name blank or not the name of a category, compared
    without case; uom blank; gsm present and not parsed as a number by
    [parseFloat]; status present and neither "active" nor "inactive",
    compared without case), none left out after the first. *)
Theorem validateRow_collects_every_violation dataObjects :
  validateRows categories dataObjects
  = List.concat (imap (fun index rowData => validateRow categories rowData index)
              dataObjects)
  ∧ ∀ index rowData,
      Forall (fun e => ValidationError.row e = index + 2
                       ∧ ValidationError.data e = rowData)
             (validateRow categories rowData index)
      ∧ ValidationError.field <$> validateRow categories rowData index
        = violated_fields categories rowData.
Proof.
  split; [apply validateRows_concat |].
  intros index rowData. split; [apply validateRow_rows | apply validateRow_fields].
Qed.

End Validation.

Example bad_row_errors :
  ValidationError.field <$> validateRow two_categories bad_row 0
  = ["item_name"; "category_name"; "uom"; "gsm"; "status"]
  ∧ ValidationError.row <$> validateRow two_categories bad_row 0 = [2; 2; 2; 2; 2].
Proof. vm_compute. split; reflexivity. Qed.

Example nameless_row_errors :
  ValidationError.field <$> validateRow two_categories nameless_row 0 = ["item_name"].
Proof. vm_compute. reflexivity. Qed.

(** * Properties of the apply step *)

Section Apply.

Context {Store : Type}.
Variable backend : Request → Store → Settled * Store.
Variable categories : list Category.t.
Variable conflicts : list ConflictItem.t.

Lemma run_bind {A B} (p : Prog A) (f : A → Prog B) st :
  run backend (bind p f) st
  = let '(a, st1, tr1) := run backend p st in
    let '(b, st2, tr2) := run backend (f a) st1 in
    (b, st2, tr1 ++ tr2).
Proof.
  revert st. induction p as [a | req k IH]; intros st; simpl.
  - destruct (run backend (f a) st) as [[b st2] tr2]. reflexivity.
  - destruct (backend req st) as [s st1]. rewrite IH.
    destruct (run backend (k s) st1) as [[a st2] tr1].
    destruct (run backend (f a) st2) as [[b st3] tr2]. reflexivity.
Qed.

Ltac reply :=
  match goal with
  | |- context [backend ?req ?st] =>
      let r := fresh "r" in let t := fresh "t" in let st1 := fresh "st" in
      destruct (backend req st) as [[r | t] st1] eqn:?; simpl
  end.

Ltac reply_error :=
  match goal with
  | |- context [error ?r] =>
      let e := fresh "e" in destruct (error r) as [e |] eqn:?; simpl
  end.

Ltac fin :=
  repeat match goal with
         | H : error ?r = _ |- context [error ?r] => rewrite H
         end;
  simpl;
  split; [eauto |];
  split;
  [ first [ discriminate | intros _; split; [eauto | reflexivity] ]
  | first [ reflexivity | intros [_ ?]; discriminate ] ].

(** One iteration changes the loop state by recording the row's
    outcome, whatever the state was. *)
Lemma process_item_outcome item s st :
  run backend (process_item categories conflicts item s) st
  = let '(o, st1, tr) := run backend (row_outcome categories conflicts item) st in
    (record (originalRowIndex item) o s, st1, tr).
Proof.
  unfold process_item, row_outcome, try_item.
  destruct (find_category_opt categories _) as [category |]; simpl; [| reflexivity].
  reply; [| reflexivity].
  reply_error; [reflexivity |].
  destruct (is_update _); simpl.
  - reply; [| reflexivity]. reply_error; reflexivity.
  - reply; [| reflexivity]. reply_error; [reflexivity |].
    reply; reflexivity.
Qed.

(** A row fails exactly when its category is not found or one of its
    requests fails. *)
Lemma row_outcome_failed item st :
  let '(o, _, tr) := run backend (row_outcome categories conflicts item) st in
  (o = Succeeded ∨ ∃ m, o = Failed m)
  ∧ (o = Succeeded ↔
     is_Some (find_category_opt categories (fields item !! "category_name"))
     ∧ existsb reply_failed tr = false).
Proof.
  unfold row_outcome, try_item.
  destruct (find_category_opt categories _) as [category |]; simpl.
  2: { split; [eauto |]. split; [discriminate | intros [[? ?] _]; discriminate]. }
  assert (HS : ∀ x : Category.t, is_Some (Some x)) by eauto.
  reply. 2: fin.
  reply_error. 1: fin.
  destruct (is_update _); simpl.
  - reply. 2: fin. reply_error; fin.
  - reply. 2: fin. reply_error. 1: fin.
    reply; fin.
Qed.

Lemma run_row_outcomes_cons item rest st :
  run backend (row_outcomes categories conflicts (item :: rest)) st
  = let '(o, st1, tr1) := run backend (row_outcome categories conflicts item) st in
    let '(os, st2, tr2) := run backend (row_outcomes categories conflicts rest) st1 in
    ((originalRowIndex item, o) :: os, st2, tr1 ++ tr2).
Proof.
  cbn [row_outcomes]. rewrite run_bind.
  destruct (run backend (row_outcome _ _ _) st) as [[o st1] tr1].
  rewrite run_bind.
  destruct (run backend (row_outcomes _ _ _) st1) as [[os st2] tr2]. simpl.
  rewrite app_nil_r. reflexivity.
Qed.

Lemma run_row_outcomes_app a b st :
  run backend (row_outcomes categories conflicts (a ++ b)) st
  = let '(os1, st1, tr1) := run backend (row_outcomes categories conflicts a) st in
    let '(os2, st2, tr2) := run backend (row_outcomes categories conflicts b) st1 in
    (os1 ++ os2, st2, tr1 ++ tr2).
Proof.
  revert st. induction a as [| item a IH]; intros st.
  - simpl. destruct (run backend (row_outcomes _ _ b) st) as [[os2 st2] tr2].
    reflexivity.
  - rewrite <- app_comm_cons, !run_row_outcomes_cons.
    destruct (run backend (row_outcome _ _ _) st) as [[o st1] tr1].
    rewrite IH.
    destruct (run backend (row_outcomes _ _ a) st1) as [[os1 st2] tr2].
    destruct (run backend (row_outcomes _ _ b) st2) as [[os2 st3] tr3].
    rewrite app_assoc. reflexivity.
Qed.

(** The inner loop records the outcomes of its rows, in order. *)
Lemma process_batch_outcomes batch s st :
  run backend (process_batch categories conflicts batch s) st
  = let '(os, st1, tr) := run backend (row_outcomes categories conflicts batch) st in
    (record_all os s, st1, tr).
Proof.
  revert s st. induction batch as [| item rest IH]; intros s st.
  - reflexivity.
  - cbn [process_batch]. rewrite run_bind, process_item_outcome.
    rewrite run_row_outcomes_cons.
    destruct (run backend (row_outcome _ _ _) st) as [[o st1] tr1].
    rewrite IH.
    destruct (run backend (row_outcomes _ _ rest) st1) as [[os st2] tr2].
    reflexivity.
Qed.

Lemma record_all_app os1 os2 s :
  record_all (os1 ++ os2) s = record_all os2 (record_all os1 s).
Proof. unfold record_all. apply foldl_app. Qed.

Lemma record_all_setProgress os s p :
  record_all os (setProgress s p) = setProgress (record_all os s) p.
Proof.
  revert s. induction os as [| [row o] os IH]; intros s; [reflexivity |].
  change (record_all ((row, o) :: os) ?x) with (record_all os (record row o x)).
  rewrite <- IH. destruct o; reflexivity.
Qed.

Lemma setProgress_twice s p q : setProgress (setProgress s p) q = setProgress s q.
Proof. reflexivity. Qed.

Lemma setProgress_same s : setProgress s (progress s) = s.
Proof. destruct s. reflexivity. Qed.

Lemma slice_batch i (items : list Item) :
  slice i (i + batchSize) items = take batchSize (drop i items).
Proof. unfold slice. f_equal. lia. Qed.

Lemma length_slice i (items : list Item) :
  length (slice i (i + batchSize) items) = batchSize `min` (length items - i).
Proof. rewrite slice_batch, length_take, length_drop. reflexivity. Qed.

(** The batched loop started at index [i] records the outcomes of the
    rows from [i] on, in input order, and leaves the progress at
    (all, all). *)
Lemma batch_loop_outcomes fuel items i s st :
  length items - i ≤ fuel →
  run backend (batch_loop fuel categories conflicts items i s) st
  = let '(os, st1, tr) :=
      run backend (row_outcomes categories conflicts (drop i items)) st in
    (setProgress (record_all os s)
       (if i <? length items then (length items, length items) else progress s),
     st1, tr).
Proof.
  revert i s st. induction fuel as [| fuel IH]; intros i s st Hfuel.
  - assert (Hi : length items ≤ i) by lia.
    rewrite drop_ge by exact Hi. simpl.
    rewrite (proj2 (Nat.ltb_ge _ _) Hi). rewrite setProgress_same. reflexivity.
  - cbn [batch_loop]. destruct (i <? length items) eqn:Hlt.
    + apply Nat.ltb_lt in Hlt.
      rewrite run_bind, process_batch_outcomes.
      rewrite <- (take_drop batchSize (drop i items)) at 1.
      rewrite run_row_outcomes_app. rewrite <- slice_batch.
      destruct (run backend (row_outcomes _ _ (slice _ _ _)) st) as [[os1 st1] tr1].
      rewrite IH by (unfold batchSize; lia).
      rewrite drop_drop.
      destruct (run backend (row_outcomes _ _ (drop (i + batchSize) items)) st1)
        as [[os2 st2] tr2].
      rewrite record_all_app, record_all_setProgress, setProgress_twice.
      f_equal. f_equal. f_equal.
      cbn [progress setProgress]. rewrite length_slice.
      destruct (i + batchSize <? length items) eqn:Hlt2; [reflexivity |].
      apply Nat.ltb_ge in Hlt2. f_equal. unfold batchSize in *. lia.
    + apply Nat.ltb_ge in Hlt. rewrite drop_ge by exact Hlt. simpl.
      rewrite setProgress_same. reflexivity.
Qed.

Lemma apply_rows_outcomes items st :
  run backend (apply_rows categories conflicts items) st
  = let '(os, st1, tr) := run backend (row_outcomes categories conflicts items) st in
    (setProgress (record_all os initial)
       (if 0 <? length items then (length items, length items) else (0, 0)),
     st1, tr).
Proof.
  unfold apply_rows. rewrite batch_loop_outcomes by lia. rewrite drop_0.
  reflexivity.
Qed.

Lemma run_row_outcomes_rows items st :
  fst <$> (run backend (row_outcomes categories conflicts items) st).1.1
  = originalRowIndex <$> items.
Proof.
  revert st. induction items as [| item rest IH]; intros st; [reflexivity |].
  rewrite run_row_outcomes_cons.
  destruct (run backend (row_outcome _ _ _) st) as [[o st1] tr1].
  specialize (IH st1).
  destruct (run backend (row_outcomes _ _ rest) st1) as [[os st2] tr2].
  cbn [fst] in IH |- *. rewrite !fmap_cons. cbn [fst]. f_equal. exact IH.
Qed.

Lemma record_all_counts os s :
  totalSuccess (record_all os s) = totalSuccess s + length (List.filter is_success os)
  ∧ allErrors (record_all os s) = allErrors s ++ failures os.
Proof.
  revert s. induction os as [| [row o] os IH]; intros s.
  - simpl. rewrite app_nil_r. split; [lia | reflexivity].
  - change (record_all ((row, o) :: os) s) with (record_all os (record row o s)).
    destruct (IH (record row o s)) as [-> ->].
    destruct o; simpl; split; try lia; try reflexivity.
    rewrite <- app_assoc. reflexivity.
Qed.

Lemma outcomes_partition (os : list (nat * Outcome)) :
  length (List.filter is_success os) + length (failures os) = length os.
Proof.
  induction os as [| [row o] os IH]; [reflexivity |].
  destruct o; simpl in *; lia.
Qed.

(** X13.  The apply loop in batches of 10 is the processing of the rows
    one after the other in input order: one outcome per row, the
    successes counted and the failures listed in order; a row's
    outcome is followed by the processing of the remaining rows
    whatever it is; and a row fails exactly when its category is not
    found, a request is rejected, or the reply of the code generation,
    the update or the item insert carries an error. *)
Theorem apply_isolates_row_failures items st :
  let '(s, st1, tr) := run backend (apply_rows categories conflicts items) st in
  let '(os, st2, tr2) := run backend (row_outcomes categories conflicts items) st in
  (st1 = st2 ∧ tr = tr2
   ∧ fst <$> os = originalRowIndex <$> items
   ∧ totalSuccess s = length (List.filter is_success os)
   ∧ allErrors s = failures os
   ∧ totalSuccess s + length (allErrors s) = length items)
  ∧ (∀ i, length (slice i (i + batchSize) items)
          = batchSize `min` (length items - i))
  ∧ (∀ item rest st0,
       run backend (row_outcomes categories conflicts (item :: rest)) st0
       = let '(o, st3, tr3) :=
           run backend (row_outcome categories conflicts item) st0 in
         let '(os', st4, tr4) :=
           run backend (row_outcomes categories conflicts rest) st3 in
         ((originalRowIndex item, o) :: os', st4, tr3 ++ tr4))
  ∧ (∀ item st0,
       let '(o, _, tr3) := run backend (row_outcome categories conflicts item) st0 in
       (o = Succeeded ∨ ∃ m, o = Failed m)
       ∧ (o = Succeeded ↔
          is_Some (find_category_opt categories (fields item !! "category_name"))
          ∧ existsb reply_failed tr3 = false)).
Proof.
  rewrite apply_rows_outcomes.
  pose proof (run_row_outcomes_rows items st) as Hrows.
  destruct (run backend (row_outcomes categories conflicts items) st)
    as [[os st2] tr2]. simpl in Hrows.
  split; [| split; [| split]].
  - destruct (record_all_counts os initial) as [Hs He].
    cbn [totalSuccess allErrors setProgress]. rewrite Hs, He. simpl.
    repeat split; try reflexivity; [exact Hrows |].
    rewrite outcomes_partition.
    rewrite <- (length_fmap fst os), Hrows, length_fmap. reflexivity.
  - intros i. apply length_slice.
  - intros item rest st0. apply run_row_outcomes_cons.
  - intros item st0. apply row_outcome_failed.
Qed.

End Apply.

(** * The whole upload: skipped rows, audit write, conflict actions *)

Section Filter.

Variable conflicts : list ConflictItem.t.

Lemma keep_not_skip index :
  keep conflicts index = true ↔ ¬ marked Action.skip conflicts (index + 2).
Proof.
  unfold keep, marked.
  destruct (find_conflict conflicts (index + 2)) as [c |].
  - destruct (ConflictItem.action c) eqn:Ea; simpl; split.
    + discriminate.
    + intros H. exfalso. apply H. eauto.
    + intros _ (c' & Hc & Ha). congruence.
    + reflexivity.
    + intros _ (c' & Hc & Ha). congruence.
    + reflexivity.
  - split; [| reflexivity]. intros _ (c' & Hc & _). discriminate.
Qed.

Lemma elem_of_itemsToProcess objs item :
  item ∈ itemsToProcess conflicts objs
  ↔ ∃ index, objs !! index = Some item ∧ keep conflicts index = true.
Proof.
  unfold itemsToProcess. rewrite list_elem_of_fmap. split.
  - intros ([index x] & -> & Hin).
    apply list_elem_of_In, List.filter_In in Hin as [Hin Hk].
    apply list_elem_of_In, elem_of_lookup_imap in Hin as (i & y & Heq & Hl).
    inversion Heq; subst. eauto.
  - intros (index & Hl & Hk). exists (index, item). split; [reflexivity |].
    apply list_elem_of_In, List.filter_In. split; [| exact Hk].
    apply list_elem_of_In, elem_of_lookup_imap. eauto.
Qed.

Lemma dataObjects_lookup csvData index item :
  dataObjects csvData !! index = Some item → originalRowIndex item = index + 2.
Proof.
  unfold dataObjects. rewrite list_lookup_imap.
  destruct (rows csvData !! index); simpl; [| discriminate].
  intros H. inversion H. reflexivity.
Qed.

(** The rows that reach the apply loop are the rows not marked [skip]. *)
Lemma itemsToProcess_not_skipped csvData item :
  item ∈ itemsToProcess conflicts (dataObjects csvData)
  ↔ item ∈ dataObjects csvData
    ∧ ¬ marked Action.skip conflicts (originalRowIndex item).
Proof.
  rewrite elem_of_itemsToProcess. split.
  - intros (index & Hl & Hk). split; [eapply list_elem_of_lookup_2; eauto |].
    rewrite (dataObjects_lookup _ _ _ Hl). apply keep_not_skip, Hk.
  - intros [Hin Hn]. apply list_elem_of_lookup in Hin as [index Hl].
    exists index. split; [exact Hl |]. apply keep_not_skip.
    rewrite <- (dataObjects_lookup _ _ _ Hl). exact Hn.
Qed.

Lemma itemsToProcess_all_skipped csvData :
  (∀ item, item ∈ dataObjects csvData →
           marked Action.skip conflicts (originalRowIndex item)) →
  itemsToProcess conflicts (dataObjects csvData) = [].
Proof.
  intros H. destruct (itemsToProcess _ _) as [| item l] eqn:E; [reflexivity |].
  assert (Hin : item ∈ itemsToProcess conflicts (dataObjects csvData))
    by (rewrite E; left).
  apply itemsToProcess_not_skipped in Hin as [Hin Hn]. exfalso. apply Hn, H, Hin.
Qed.

Lemma length_dataObjects csvData : length (dataObjects csvData) = length (rows csvData).
Proof. unfold dataObjects. apply length_imap. Qed.

End Filter.

Section Upload.

Context {Store : Type}.
Variable backend : Request → Store → Settled * Store.
Variable categories : list Category.t.
Variable conflicts : list ConflictItem.t.

Ltac reply :=
  match goal with
  | |- context [backend ?req ?st] =>
      let r := fresh "r" in let t := fresh "t" in let st1 := fresh "st" in
      destruct (backend req st) as [[r | t] st1] eqn:?; simpl
  end.

Lemma row_outcome_requests item st :
  Forall (fun e => row_request e = true)
         (run backend (row_outcome categories conflicts item) st).2.
Proof.
  unfold row_outcome, try_item.
  destruct (find_category_opt categories _) as [category |]; simpl; [| constructor].
  reply; [| repeat constructor].
  destruct (error r) as [e |]; simpl; [repeat constructor |].
  destruct (is_update _); simpl.
  - reply; [| repeat constructor]. destruct (error r0); repeat constructor.
  - reply; [| repeat constructor]. destruct (error r0); simpl; [repeat constructor |].
    reply; repeat constructor.
Qed.

Lemma row_outcomes_requests items st :
  Forall (fun e => row_request e = true)
         (run backend (row_outcomes categories conflicts items) st).2.
Proof.
  revert st. induction items as [| item rest IH]; intros st; [constructor |].
  rewrite run_row_outcomes_cons.
  pose proof (row_outcome_requests item st) as H1.
  destruct (run backend (row_outcome _ _ _) st) as [[o st1] tr1].
  specialize (IH st1).
  destruct (run backend (row_outcomes _ _ rest) st1) as [[os st2] tr2].
  apply Forall_app. split; assumption.
Qed.

(** The run of [executeUpload]: the rows that are not skipped, one
    after the other, then the audit step on their counts. *)
Lemma executeUpload_run csvData file st :
  run backend (executeUpload categories conflicts csvData file) st
  = let items := itemsToProcess conflicts (dataObjects csvData) in
    let '(os, st1, tr1) := run backend (row_outcomes categories conflicts items) st in
    let '(res, st2, tr2) :=
      run backend
        (log_and_report file (length (rows csvData))
           (setProgress (record_all os initial)
              (if 0 <? length items then (length items, length items) else (0, 0))))
        st1 in
    (res, st2, tr1 ++ tr2).
Proof.
  unfold executeUpload. cbv zeta. rewrite run_bind, apply_rows_outcomes.
  rewrite length_dataObjects.
  destruct (run backend (row_outcomes _ _ _) st) as [[os st1] tr1].
  reflexivity.
Qed.

(** The audit step: one call of [auth.getUser], then the audit insert
    when there is a user; the result does not look at the insert's
    reply. *)
Lemma log_and_report_run file n os p st :
  let s := setProgress (record_all os initial) p in
  let '(res, st2, tr) := run backend (log_and_report file n s) st in
  match backend auth_getUser st with
  | (Rejected t, st1) =>
      res = inl t ∧ st2 = st1 ∧ tr = [(auth_getUser, Rejected t)]
  | (Fulfilled userData, st1) =>
      match data userData with
      | None =>
          res = inr (result_of os n) ∧ st2 = st1
          ∧ tr = [(auth_getUser, Fulfilled userData)]
      | Some user =>
          let write := csv_upload_log_insert (audit_entry user file os n) in
          match backend write st1 with
          | (Rejected t, st3) =>
              res = inl t ∧ st2 = st3
              ∧ tr = [(auth_getUser, Fulfilled userData); (write, Rejected t)]
          | (Fulfilled r, st3) =>
              res = inr (result_of os n) ∧ st2 = st3
              ∧ tr = [(auth_getUser, Fulfilled userData); (write, Fulfilled r)]
          end
      end
  end.
Proof.
  cbv zeta. unfold log_and_report, result_of, audit_entry.
  destruct (record_all_counts os initial) as [Hs He].
  cbn [totalSuccess allErrors setProgress]. rewrite Hs, He.
  cbn [totalSuccess allErrors initial app Nat.add]. simpl.
  destruct (backend auth_getUser st) as [[userData | t] st1]; simpl; [| auto].
  destruct (data userData) as [user |]; simpl; [| auto].
  destruct (backend _ st1) as [[r | t] st3]; simpl; auto.
Qed.

Lemma row_requests_no_audit tr1 tr2 :
  Forall (fun e => row_request e = true) tr1 →
  List.filter is_audit_write (tr1 ++ tr2) = List.filter is_audit_write tr2
  ∧ session_user (tr1 ++ tr2) = session_user tr2
  ∧ ∀ entry s, (csv_upload_log_insert entry, s) ∈ tr1 ++ tr2 →
               (csv_upload_log_insert entry, s) ∈ tr2.
Proof.
  induction 1 as [| [req s] tr1 Hreq _ (IH1 & IH2 & IH3)]; [auto |].
  rewrite <- app_comm_cons. repeat split.
  - destruct req; try discriminate; simpl; exact IH1.
  - destruct req; try discriminate; simpl; exact IH2.
  - intros entry s' Hin. apply elem_of_cons in Hin as [Heq | Hin]; [| eauto].
    inversion Heq; subst. discriminate.
Qed.

Ltac audit_fin :=
  repeat split; try reflexivity; try discriminate; eauto;
  intros;
  repeat match goal with
         | H : _ ∈ _ :: _ |- _ => apply elem_of_cons in H as [H | H]
         | H : _ ∈ [] |- _ => apply elem_of_nil in H; contradiction
         | H : (_, _) = (_, _) |- _ => inversion H; subst; clear H
         | H : inr _ = inr _ |- _ => inversion H; subst; clear H
         end;
  try congruence; try discriminate; try reflexivity.

(** What the audit step does, read off its trace. *)
Lemma audit_step file n os p st :
  let '(res, _, tr) :=
    run backend (log_and_report file n (setProgress (record_all os initial) p)) st in
  existsb is_item_mutation tr = false
  ∧ (existsb is_rejected tr = false → res = inr (result_of os n))
  ∧ (∀ r, res = inr r → r = result_of os n)
  ∧ match session_user tr with
    | Some user =>
        ∃ s, List.filter is_audit_write tr
             = [(csv_upload_log_insert (audit_entry user file os n), s)]
    | None => List.filter is_audit_write tr = []
    end
  ∧ (∀ entry r, (csv_upload_log_insert entry, Fulfilled r) ∈ tr →
                res = inr (result_of os n))
  ∧ (∀ userData, (auth_getUser, Fulfilled userData) ∈ tr → data userData = None →
                 res = inr (result_of os n)).
Proof.
  pose proof (log_and_report_run file n os p st) as H. cbv zeta in H.
  destruct (run backend (log_and_report _ _ _) st) as [[res st2] tr].
  destruct (backend auth_getUser st) as [[userData | t] st1].
  2: { destruct H as (-> & _ & ->). simpl. audit_fin. }
  destruct (data userData) as [user |] eqn:Hu.
  2: { destruct H as (-> & _ & ->). simpl. rewrite Hu. audit_fin. }
  cbv zeta in H.
  destruct (backend (csv_upload_log_insert _) st1) as [[r | t] st3];
    destruct H as (-> & _ & ->); simpl; rewrite Hu; audit_fin.
Qed.

Lemma existsb_app_false {A} (f : A → bool) l1 l2 :
  existsb f (l1 ++ l2) = false ↔ existsb f l1 = false ∧ existsb f l2 = false.
Proof. rewrite existsb_app. apply orb_false_iff. Qed.

(** C3.  The rows that reach the apply loop are exactly the rows not
    marked [skip]; the requests of an upload are those of these rows
    followed by the audit step, which changes no item or stock record;
    the reported counts are those of these rows and the total is the
    number of data rows.  When every row is marked [skip], no request
    changes an item or stock record and the reported result is
    [{success: 0, errors: [], total: number of data rows}]. *)
Theorem skipped_rows_are_omitted csvData file st :
  let items := itemsToProcess conflicts (dataObjects csvData) in
  let '(res, _, tr) :=
    run backend (executeUpload categories conflicts csvData file) st in
  let '(os, _, tr1) := run backend (row_outcomes categories conflicts items) st in
  (∀ item, item ∈ items
           ↔ item ∈ dataObjects csvData
             ∧ ¬ marked Action.skip conflicts (originalRowIndex item))
  ∧ fst <$> os = originalRowIndex <$> items
  ∧ (∃ tr2, tr = tr1 ++ tr2
            ∧ existsb is_item_mutation tr2 = false
            ∧ (existsb is_rejected tr2 = false →
               res = inr (result_of os (length (rows csvData)))))
  ∧ (∀ r, res = inr r → r = result_of os (length (rows csvData)))
  ∧ ((∀ item, item ∈ dataObjects csvData →
              marked Action.skip conflicts (originalRowIndex item)) →
     existsb is_item_mutation tr = false
     ∧ (∀ r, res = inr r →
             r = {| success := 0; result_errors := [];
                    total := length (rows csvData) |})
     ∧ (existsb is_rejected tr = false →
        res = inr {| success := 0; result_errors := [];
                     total := length (rows csvData) |})).
Proof.
  cbv zeta. rewrite executeUpload_run. cbv zeta.
  pose proof (run_row_outcomes_rows backend categories conflicts
                (itemsToProcess conflicts (dataObjects csvData)) st) as Hrows.
  pose proof (itemsToProcess_all_skipped conflicts csvData) as Hall.
  destruct (run backend (row_outcomes _ _ _) st) as [[os st1] tr1] eqn:Hrun.
  simpl in Hrows.
  match goal with
  | |- context [run backend (log_and_report ?f ?n (setProgress _ ?p)) ?s] =>
      pose proof (audit_step f n os p s) as Haudit
  end.
  destruct (run backend (log_and_report _ _ _) st1) as [[res st2] tr2].
  destruct Haudit as (Hm & Hok & Hres & _).
  split; [intros item; apply itemsToProcess_not_skipped |].
  split; [exact Hrows |].
  split; [exists tr2; auto |].
  split; [exact Hres |].
  intros Hskip. rewrite (Hall Hskip) in Hrun. simpl in Hrun.
  inversion Hrun; subst. simpl. auto.
Qed.

(** C9, as the code does it.  After the apply loop the upload writes
    one audit record (user, file name, type "item_master", total,
    success and error counts, error list) when [auth.getUser] reports
    a user, and none when it reports no user; when the audit insert
    replies, with or without an error, and when there is no user, the
    reported result is the result of the apply loop. *)
Theorem audit_write_when_user_present csvData file st :
  let items := itemsToProcess conflicts (dataObjects csvData) in
  let n := length (rows csvData) in
  let '(res, _, tr) :=
    run backend (executeUpload categories conflicts csvData file) st in
  let '(os, _, _) := run backend (row_outcomes categories conflicts items) st in
  match session_user tr with
  | Some user =>
      ∃ s, List.filter is_audit_write tr
           = [(csv_upload_log_insert (audit_entry user file os n), s)]
  | None => List.filter is_audit_write tr = []
  end
  ∧ (∀ entry r, (csv_upload_log_insert entry, Fulfilled r) ∈ tr →
                res = inr (result_of os n))
  ∧ (∀ userData, (auth_getUser, Fulfilled userData) ∈ tr → data userData = None →
                 res = inr (result_of os n)).
Proof.
  cbv zeta. rewrite executeUpload_run. cbv zeta.
  pose proof (row_outcomes_requests
                (itemsToProcess conflicts (dataObjects csvData)) st) as Hreq.
  destruct (run backend (row_outcomes _ _ _) st) as [[os st1] tr1].
  simpl in Hreq.
  match goal with
  | |- context [run backend (log_and_report ?f ?n (setProgress _ ?p)) ?s] =>
      pose proof (audit_step f n os p s) as Haudit
  end.
  destruct (run backend (log_and_report _ _ _) st1) as [[res st2] tr2].
  destruct Haudit as (_ & _ & _ & Hcount & Hwrite & Hnone).
  destruct (row_requests_no_audit tr1 tr2 Hreq) as (Hf & Hu & Hin).
  rewrite Hf, Hu. split; [exact Hcount |]. split.
  - intros entry r H. eapply Hwrite, Hin, H.
  - intros userData H Hd. apply elem_of_app in H as [H | H]; [| eauto].
    rewrite Forall_forall in Hreq. apply list_elem_of_In, Hreq in H. discriminate.
Qed.

End Upload.

Section ConflictActions.

Context {Store : Type}.
Variable backend : Request → Store → Settled * Store.
Variable categories : list Category.t.



(** The reply of the stock insert is not looked at: whatever it is, a
    row whose item insert succeeded counts as a success. *)
Lemma stock_insert_reply_ignored cs item category r1 r2 r3 st st1 st2 st3 :
  is_update (find_conflict cs (originalRowIndex item)) = false →
  find_category_opt categories (fields item !! "category_name") = Some category →
  backend (rpc_generate_item_code (Category.category_name category)
             (JS.or_else (fields item !! "qualifier") "")
             (JS.or_else (fields item !! "size_mm") "")
             (gsm_number (fields item !! "gsm"))) st
  = (Fulfilled r1, st1) →
  error r1 = None →
  backend (item_master_insert (data r1) (payload category item) (data r1)) st1
  = (Fulfilled r2, st2) →
  error r2 = None →
  backend (stock_insert (data r1) 0 0) st2 = (Fulfilled r3, st3) →
  (run backend (row_outcome categories cs item) st).1 = (Succeeded, st3).
Proof.
  intros Hu Hc H1 He1 H2 He2 H3. unfold row_outcome, try_item.
  rewrite Hc. simpl. rewrite H1. simpl. rewrite He1, Hu. simpl.
  rewrite H2. simpl. rewrite He2. simpl. rewrite H3. reflexivity.
Qed.


End ConflictActions.

Section Examples.


(** On the reference datastore the insert of the existing code is
    refused, and the refusal is the row's recorded error. *)
Example error_action_on_existing_item :
  (run Ref.backend
     (executeUpload two_categories (Sample.resolve Action.error) Sample.two_rows
        "items.csv")
     (Sample.store None false)).1.1
  = inr {| success := 1;
           result_errors :=
             [ApplyError.mk 2
                "Error inserting item: duplicate key value violates unique constraint"];
           total := 2 |}.
Proof. vm_compute. reflexivity. Qed.

Lemma skipped_rows_are_omitted_witness :
  let '(res, st, tr) :=
    run Ref.backend
      (executeUpload two_categories (Sample.resolve Action.skip) Sample.one_row
         "items.csv")
      (Sample.store (Some "u1") false) in
  existsb is_item_mutation tr = false
  ∧ res = inr {| success := 0; result_errors := []; total := 1 |}
  ∧ Ref.items st = Ref.items (Sample.store (Some "u1") false)
  ∧ Ref.stock_codes st = Ref.stock_codes (Sample.store (Some "u1") false).
Proof.
  pose proof (skipped_rows_are_omitted Ref.backend two_categories
                (Sample.resolve Action.skip) Sample.one_row "items.csv"
                (Sample.store (Some "u1") false)) as H.
  cbv zeta in H.
  destruct (run Ref.backend (executeUpload _ _ _ _) _) as [[res st] tr] eqn:E.
  destruct (run Ref.backend (row_outcomes _ _ _) _) as [[os st1] tr1].
  destruct H as (_ & _ & _ & _ & H).
  destruct H as (Hm & _ & Hres).
  - intros item Hin. apply list_elem_of_singleton in Hin. subst item.
    eexists. split; reflexivity.
  - vm_compute in E. injection E as Eres Est Etr. subst res st tr.
    split; [exact Hm |]. split; [apply Hres; reflexivity |].
    split; reflexivity.
Defined.

(** Without a user in the session the upload completes and reports
    its result, and writes no audit record. *)
Lemma no_audit_write_without_user :
  let '(res, st, tr) :=
    run Ref.backend
      (executeUpload two_categories [] Sample.two_rows "items.csv")
      (Sample.store None false) in
  (∃ r, res = inr r)
  ∧ List.filter is_audit_write tr = []
  ∧ Ref.upload_log st = [].
Proof. vm_compute. split; [eexists |]; split; reflexivity. Qed.

Lemma audit_write_when_user_present_witness :
  let '(res, st, tr) :=
    run Ref.backend
      (executeUpload two_categories (Sample.resolve Action.update) Sample.two_rows
         "items.csv")
      (Sample.store (Some "u1") true) in
  length (List.filter is_audit_write tr) = 1
  ∧ Ref.upload_log st = []
  ∧ res = inr {| success := 2; result_errors := []; total := 2 |}.
Proof.
  pose proof (audit_write_when_user_present Ref.backend two_categories
                (Sample.resolve Action.update) Sample.two_rows "items.csv"
                (Sample.store (Some "u1") true)) as H.
  cbv zeta in H.
  destruct (run Ref.backend (executeUpload _ _ _ _) _) as [[res st] tr] eqn:E.
  destruct (run Ref.backend (row_outcomes _ _ _) _) as [[os st1] tr1] eqn:E1.
  destruct H as (_ & Hwrite & _).
  vm_compute in E. injection E as Eres Est Etr. subst res st tr.
  vm_compute in E1. injection E1 as Eos _ _. subst os.
  split; [reflexivity |]. split; [reflexivity |].
  eapply Hwrite. do 6 right. left.
Defined.

(** With a user and a failing audit insert the result is reported all
    the same. *)
Example failed_audit_write_keeps_result :
  (run Ref.backend
     (executeUpload two_categories (Sample.resolve Action.update) Sample.two_rows
        "items.csv")
     (Sample.store (Some "u1") true)).1.1
  = inr {| success := 2; result_errors := []; total := 2 |}.
Proof. vm_compute. reflexivity. Qed.

(** C2, at a failing input.  The stock table already holds a record
    for the code the second row generates.  The row's item is
    inserted, the insert of its stock record is refused, and the row
    is reported as a success: the error list stays empty. *)
Theorem stock_insert_failure_is_not_recorded :
  let '(res, st, tr) :=
    run Ref.backend
      (executeUpload two_categories (Sample.resolve Action.skip) Sample.two_rows
         "items.csv")
      Sample.orphan_store in
  res = inr {| success := 1; result_errors := []; total := 2 |}
  ∧ (stock_insert (Some Sample.orphan_code) 0 0,
     Ref.failed "duplicate key value violates unique constraint") ∈ tr
  ∧ is_Some (Ref.items st !! Sample.orphan_code).
Proof.
  vm_compute. split; [reflexivity |]. split; [| eauto].
  do 2 right. left.
Qed.

(** C7, at a failing input.  The header line is split at every comma,
    quoted or not, while the same line read as a data row keeps the
    comma inside the quotes. *)
Theorem parseCSV_quoted_header :
  parseCSV quoted_header_text
  = inr {| headers := ["a"; "b"; "c"]; rows := [["a,b"; "c"]] |}
  ∧ parse_header quoted_header_line ≠ parse_row quoted_header_line.
Proof. split; [vm_compute; reflexivity | vm_compute; discriminate]. Qed.

End Examples.

(** * Category policy of the two imports *)

Section CategoryPolicy.

Context {Store : Type}.
Variable backend : Request → Store → Settled * Store.




End CategoryPolicy.

Section CategoryPolicyExamples.


End CategoryPolicyExamples.

From Stdlib Require Import Sorted.

(** * More on the parser: lines, headers and quote-free rows *)

Section Lines.

Lemma split_not_nil c s : JS.split c s ≠ [].
Proof.
destruct s as [| x r]; simpl; [discriminate |].
destruct (Ascii.eqb x c); [discriminate |]. destruct (JS.split c r); discriminate.
Qed.

Lemma split_no_char c s : no_char c s = true → JS.split c s = [s].
Proof.
induction s as [| x r IH]; [reflexivity |]. simpl. intros H.
apply andb_prop in H as [Hx Hr]. apply negb_true_iff in Hx. rewrite Hx.
rewrite IH by assumption. reflexivity.
Qed.

Lemma split_append c s rest :
no_char c s = true →
JS.split c (s +:+ String c rest) = s :: JS.split c rest.
Proof.
induction s as [| x r IH]; intros H.
- rewrite append_nil_l. simpl. rewrite Ascii.eqb_refl. reflexivity.
- simpl in H. apply andb_prop in H as [Hx Hr]. apply negb_true_iff in Hx.
  rewrite append_cons. cbn [JS.split]. rewrite Hx, IH by assumption. reflexivity.
Qed.

Lemma append_assoc3 (a b c : string) : (a +:+ b) +:+ c = a +:+ (b +:+ c).
Proof.
induction a as [| x a IH]; [reflexivity |]. rewrite !append_cons, IH. reflexivity.
Qed.

(** Joining with a one-character separator and splitting at it gives
  the pieces back, when no piece contains the separator. *)
Lemma split_join c l :
l ≠ [] → Forall (fun s => no_char c s = true) l →
JS.split c (join (String c EmptyString) l) = l.
Proof.
induction l as [| x l IH]; [congruence |]. intros _ H.
inversion H as [| ? ? Hx Hl]; subst.
destruct l as [| y l]; [apply split_no_char, Hx |].
change (join (String c EmptyString) (x :: y :: l))
  with (x +:+ String c (join (String c EmptyString) (y :: l))).
rewrite split_append by assumption. rewrite IH by (assumption || discriminate).
reflexivity.
Qed.

End Lines.

Section HeadersAndRows.

(** X3.  A header line written by joining names with commas reads back
  as the same names, when no name contains a comma and none has
  outer white space or an outer quote. *)
Theorem joined_headers_read_back hs :
hs ≠ [] → Forall plain_header hs → parse_header (join "," hs) = hs.
Proof.
intros Hne H. unfold parse_header.
change "," with (String JS.comma EmptyString).
rewrite split_join; [| exact Hne |].
- induction H as [| h hs (_ & Ht & Hs) _ IH]; [reflexivity |].
  rewrite fmap_cons, Ht, Hs. f_equal.
  destruct hs; [reflexivity | apply IH; discriminate].
- eapply Forall_impl; [| exact H]. intros h (Hc & _). exact Hc.
Qed.

(** On a line without quote characters the loop of the data rows splits
  at every comma and cleans the pieces. *)
Lemma tokenize_quote_free line cells current :
no_quote line = true →
tokenize line cells current false
= cells ++ (clean <$> match JS.split JS.comma line with
                      | w :: ws => (current +:+ w) :: ws
                      | [] => [current]
                      end).
Proof.
revert cells current. induction line as [| x r IH]; intros cells current H.
- simpl. rewrite append_empty_r. reflexivity.
- simpl in H. apply andb_prop in H as [Hx Hr]. apply negb_true_iff in Hx.
  cbn [tokenize JS.split]. rewrite Hx. cbn [negb]. rewrite andb_true_r.
  destruct (Ascii.eqb x JS.comma) eqn:Hc.
  + rewrite IH by assumption. rewrite append_empty_r.
    pose proof (split_not_nil JS.comma r) as Hn.
    destruct (JS.split JS.comma r) as [| w ws]; [congruence |].
    rewrite append_nil_l, <- app_assoc. reflexivity.
  + rewrite IH by assumption.
    pose proof (split_not_nil JS.comma r) as Hn.
    destruct (JS.split JS.comma r) as [| w ws]; [congruence |].
    rewrite append_assoc_char. reflexivity.
Qed.

Lemma no_quote_trimStart s : no_quote s = true → no_quote (JS.trimStart s) = true.
Proof.
induction s as [| x r IH]; [reflexivity |]. intros H. simpl.
destruct (JS.is_space x); [| exact H].
simpl in H. apply andb_prop in H as [_ Hr]. apply IH, Hr.
Qed.

Lemma no_quote_trimEnd s : no_quote s = true → no_quote (JS.trimEnd s) = true.
Proof.
induction s as [| x r IH]; [reflexivity |]. intros H. simpl in *.
apply andb_prop in H as [Hx Hr]. specialize (IH Hr).
destruct (JS.trimEnd r) as [| y r'].
- destruct (JS.is_space x); [reflexivity |]. simpl. rewrite Hx. reflexivity.
- cbn [no_quote]. rewrite Hx. exact IH.
Qed.

Lemma no_quote_clean s : no_quote s = true → no_quote (clean s) = true.
Proof.
intros H. unfold clean, JS.trim.
assert (Ht : no_quote (JS.trimEnd (JS.trimStart s)) = true)
  by (apply no_quote_trimEnd, no_quote_trimStart, H).
rewrite strip_quotes_no_quote; assumption.
Qed.

Lemma tokenize_no_quote line cells current q :
Forall (fun c => no_quote c = true) cells → no_quote current = true →
Forall (fun c => no_quote c = true) (tokenize line cells current q).
Proof.
revert cells current q. induction line as [| x r IH]; intros cells current q Hc Hcur.
- simpl. apply Forall_app. split; [exact Hc |]. constructor; [| constructor].
  apply no_quote_clean, Hcur.
- cbn [tokenize]. destruct (Ascii.eqb x JS.dquote) eqn:Hx; [apply IH; assumption |].
  destruct (Ascii.eqb x JS.comma && negb q).
  + apply IH; [| reflexivity]. apply Forall_app. split; [exact Hc |].
    constructor; [| constructor]. apply no_quote_clean, Hcur.
  + apply IH; [exact Hc |]. apply no_quote_append; [exact Hcur |].
    simpl. rewrite Hx. reflexivity.
Qed.

End HeadersAndRows.

Section ParserTheorems.

(** X1.  On a line without quote characters the data-row loop and the
  header split agree: both split at every comma, trim each piece and
  strip its outer quotes. *)
Theorem quote_free_row_is_split_at_commas line :
no_quote line = true →
parse_row line = parse_header line
∧ parse_row line = clean <$> JS.split JS.comma line.
Proof.
intros H. unfold parse_row, parse_header.
rewrite tokenize_quote_free by exact H.
pose proof (split_not_nil JS.comma line) as Hn.
destruct (JS.split JS.comma line) as [| w ws]; [congruence |].
rewrite append_nil_l. split; reflexivity.
Qed.

(** X2.  No cell of a parsed data row contains a quote character,
  whatever the text: the loop drops every quote it reads. *)
Theorem data_cells_have_no_quote text csvData :
parseCSV text = inr csvData →
Forall (Forall (fun cell => no_quote cell = true)) (rows csvData).
Proof.
unfold parseCSV. destruct (List.filter _ _) as [| first others]; [discriminate |].
intros H. inversion H; subst. simpl.
apply Forall_fmap. apply Forall_forall. intros line _. simpl.
unfold parse_row. apply tokenize_no_quote; [constructor | reflexivity].
Qed.

Lemma no_char_append c a b :
no_char c a = true → no_char c b = true → no_char c (a +:+ b) = true.
Proof.
intros Ha Hb. induction a as [| x a IH]; [exact Hb |].
rewrite append_cons. simpl in *. apply andb_prop in Ha as [Hx Ha].
rewrite Hx, IH by assumption. reflexivity.
Qed.

Lemma no_newline_quoted f : no_char JS.newline f = true →
no_char JS.newline (JS.quoted f) = true.
Proof.
intros H. unfold JS.quoted. rewrite append_cons. simpl.
apply no_char_append; [exact H | reflexivity].
Qed.

Lemma no_newline_quoted_line f fs :
no_char JS.newline f = true → Forall (fun g => no_char JS.newline g = true) fs →
no_char JS.newline (quoted_line f fs) = true.
Proof.
revert f. induction fs as [| g gs IH]; intros f Hf Hfs; cbn [quoted_line].
- apply no_newline_quoted, Hf.
- inversion Hfs; subst. apply no_char_append; [apply no_newline_quoted, Hf |].
  simpl. apply IH; assumption.
Qed.

Lemma non_blank_starts_visible x r : JS.is_space x = false → non_blank (String x r) = true.
Proof.
intros H. unfold non_blank, JS.trim. simpl. rewrite H. simpl.
destruct (JS.trimEnd r); [rewrite H |]; reflexivity.
Qed.

Lemma non_blank_quoted_line f fs : non_blank (quoted_line f fs) = true.
Proof.
destruct fs as [| g gs]; cbn [quoted_line]; unfold JS.quoted;
  rewrite ?append_cons; apply non_blank_starts_visible; reflexivity.
Qed.

Lemma filter_all {A} (f : A → bool) l :
Forall (fun x => f x = true) l → List.filter f l = l.
Proof.
induction 1 as [| x l Hx _ IH]; [reflexivity |]. simpl. rewrite Hx, IH. reflexivity.
Qed.

(** X4.  A file written as a header line followed by rows of quoted
  fields parses back to the same rows, commas inside the fields
  included, when the fields hold no quote or line break and no outer
  white space. *)
Theorem written_file_reads_back header_line data_rows :
no_char JS.newline header_line = true →
non_blank header_line = true →
Forall writable_row data_rows →
parseCSV (write_csv header_line data_rows)
= inr {| headers := parse_header header_line; rows := data_rows |}.
Proof.
intros Hh Hb Hrows. unfold parseCSV, write_csv.
assert (Hlines : Forall (fun s => no_char JS.newline s = true)
                   (header_line :: (write_row <$> data_rows))).
{ constructor; [exact Hh |]. apply Forall_fmap.
  eapply Forall_impl; [| exact Hrows]. intros r [Hne Hr]. simpl.
  destruct r as [| f fs]; [congruence |]. inversion Hr as [| ? ? [_ Hf] Hfs]; subst.
  apply no_newline_quoted_line; [exact Hf |].
  eapply Forall_impl; [| exact Hfs]. intros g [_ Hg]. exact Hg. }
rewrite split_join by (discriminate || exact Hlines).
rewrite filter_all.
- f_equal. f_equal. clear Hlines.
  induction Hrows as [| r rs [Hne Hr] _ IH]; [reflexivity |].
  rewrite !fmap_cons, IH. f_equal.
  destruct r as [| f fs]; [congruence |]. inversion Hr as [| ? ? [Hf _] Hfs]; subst.
  apply parse_row_quoted_line; [exact Hf |].
  eapply Forall_impl; [| exact Hfs]. intros g [Hg _]. exact Hg.
- constructor; [exact Hb |]. apply Forall_fmap.
  eapply Forall_impl; [| exact Hrows]. intros r [Hne _]. simpl.
  destruct r as [| f fs]; [congruence |]. apply non_blank_quoted_line.
Qed.

(** X5.  [parseCSV] throws only the error "CSV file is empty", and it
  throws it exactly when every line of the text is blank. *)
Theorem parseCSV_fails_only_on_blank_text text :
(parseCSV text = inl (ErrorObject "CSV file is empty")
 ↔ Forall (fun line => JS.trim line = "") (JS.split JS.newline text))
∧ (∀ t, parseCSV text = inl t → t = ErrorObject "CSV file is empty")
∧ (∀ csvData, parseCSV text = inr csvData →
     S (length (rows csvData))
     = length (List.filter non_blank (JS.split JS.newline text))).
Proof.
split; [| split].
- rewrite <- parseCSV_throws_iff. split; [eauto |].
  intros [t Ht]. rewrite Ht. f_equal. eapply parseCSV_throws_message, Ht.
- apply parseCSV_throws_message.
- unfold parseCSV. destruct (List.filter _ _) as [| first others]; [discriminate |].
  intros d H. inversion H; subst. simpl. rewrite length_fmap. reflexivity.
Qed.

End ParserTheorems.

(** * Row objects and the header check *)

Section RowObjects.

Lemma or_else_empty o : JS.or_else o "" = default "" o.
Proof. destruct o as [[| c s] |]; reflexivity. Qed.

Lemma row_object_snoc hs h row :
row_object (hs ++ [h]) row
= set_property (JS.toLowerCase h) (default "" (row !! length hs)) (row_object hs row).
Proof.
unfold row_object. rewrite imap_app, foldl_app. simpl.
rewrite Nat.add_0_r, or_else_empty. reflexivity.
Qed.

Lemma set_property_proto cell obj : set_property "__proto__" cell obj = obj.
Proof. reflexivity. Qed.

Lemma set_property_insert key cell obj :
key ≠ "__proto__" → set_property key cell obj = <[key := cell]> obj.
Proof.
intros H. unfold set_property.
destruct (String.eqb key "__proto__") eqn:E; [| reflexivity].
apply String.eqb_eq in E. contradiction.
Qed.

(** No assignment makes [__proto__] a property of the row object. *)
Lemma row_object_proto hs row : row_object hs row !! "__proto__" = None.
Proof.
induction hs as [| h hs IH] using rev_ind; [reflexivity |].
rewrite row_object_snoc.
destruct (decide (JS.toLowerCase h = "__proto__")) as [-> | Hne].
- rewrite set_property_proto. exact IH.
- rewrite set_property_insert, lookup_insert_ne by exact Hne. exact IH.
Qed.

Lemma row_object_lookup_None hs row k :
row_object hs row !! k = None ↔ k ∉ JS.toLowerCase <$> hs ∨ k = "__proto__".
Proof.
destruct (decide (k = "__proto__")) as [-> | Hk].
{ split; [right; reflexivity | intros _; apply row_object_proto]. }
induction hs as [| h hs IH] using rev_ind.
- unfold row_object. simpl. rewrite lookup_empty. split; [| reflexivity].
  intros _. left. intros H. apply elem_of_nil in H. exact H.
- rewrite row_object_snoc, fmap_app. simpl.
  rewrite elem_of_app, list_elem_of_singleton.
  destruct (decide (JS.toLowerCase h = "__proto__")) as [E | Hne].
  + rewrite E, set_property_proto, IH. split.
    * intros [H | H]; [| contradiction]. left. intros [H' | H']; [contradiction | congruence].
    * intros [H | H]; [| contradiction]. left. tauto.
  + rewrite set_property_insert, lookup_insert_None, IH by exact Hne. split.
    * intros [[H1 | H1] H2]; [| contradiction]. left.
      intros [H | H]; [contradiction | congruence].
    * intros [H | H]; [| contradiction]. split; [left; tauto |].
      intros E. apply H. right. congruence.
Qed.

(** A column reads the cell under the last header of its name. *)
Lemma row_object_lookup_last hs row i h :
hs !! i = Some h →
JS.toLowerCase h ≠ "__proto__" →
(∀ j h', i < j → hs !! j = Some h' → JS.toLowerCase h' ≠ JS.toLowerCase h) →
row_object hs row !! JS.toLowerCase h = Some (default "" (row !! i)).
Proof.
revert i h. induction hs as [| x hs IH] using rev_ind; intros i h Hi Hp Hlast.
- discriminate.
- rewrite row_object_snoc.
  destruct (decide (i = length hs)) as [-> | Hne].
  + rewrite lookup_app_r, Nat.sub_diag in Hi by lia. simpl in Hi.
    inversion Hi; subst. rewrite set_property_insert by exact Hp.
    apply lookup_insert_eq.
  + assert (Hlt : i < length hs).
    { apply lookup_lt_Some in Hi. rewrite length_app in Hi. simpl in Hi. lia. }
    rewrite lookup_app_l in Hi by exact Hlt.
    assert (Hx : JS.toLowerCase x ≠ JS.toLowerCase h).
    { apply (Hlast (length hs) x Hlt).
      rewrite lookup_app_r, Nat.sub_diag by lia. reflexivity. }
    assert (Hrest : row_object hs row !! JS.toLowerCase h
                    = Some (default "" (row !! i))).
    { apply IH; [exact Hi | exact Hp |]. intros j h' Hj Hh'. apply (Hlast j h' Hj).
      rewrite lookup_app_l; [exact Hh' | eapply lookup_lt_Some, Hh']. }
    unfold set_property. destruct (String.eqb _ "__proto__"); [exact Hrest |].
    rewrite lookup_insert_ne by exact Hx. exact Hrest.
Qed.

Lemma row_object_take hs row n :
length hs ≤ n → row_object hs row = row_object hs (take n row).
Proof.
induction hs as [| x hs IH] using rev_ind; intros Hn; [reflexivity |].
rewrite length_app in Hn. simpl in Hn.
rewrite !row_object_snoc. rewrite lookup_take_lt by lia. f_equal.
apply IH. lia.
Qed.

Lemma sublist_List_filter {A} (f : A → bool) l : List.filter f l `sublist_of` l.
Proof.
induction l as [| x l IH]; simpl; [constructor |].
destruct (f x); [apply sublist_skip | apply sublist_cons]; exact IH.
Qed.

Lemma required_lowercase h : h ∈ requiredHeaders → JS.toLowerCase h = h.
Proof.
unfold requiredHeaders. intros H.
repeat (apply elem_of_cons in H as [-> | H]; [reflexivity |]).
apply elem_of_nil in H. contradiction.
Qed.

Lemma elem_of_missingHeaders csvData h :
h ∈ missingHeaders csvData
↔ h ∈ requiredHeaders ∧ h ∉ JS.toLowerCase <$> headers csvData.
Proof.
unfold missingHeaders.
rewrite list_elem_of_In, List.filter_In, <- list_elem_of_In.
split; intros [Hr H]; split; try exact Hr.
- intros Hin. apply list_elem_of_fmap in Hin as (x & Hx & Hin).
  apply negb_true_iff in H.
  assert (existsb (fun h0 => String.eqb (JS.toLowerCase h0) (JS.toLowerCase h))
            (headers csvData) = true); [| congruence].
  apply existsb_exists. exists x. split; [apply list_elem_of_In, Hin |].
  apply String.eqb_eq. rewrite (required_lowercase h Hr). congruence.
- apply negb_true_iff. destruct (existsb _ _) eqn:E; [| reflexivity].
  apply existsb_exists in E as (x & Hin & Hx). apply String.eqb_eq in Hx.
  exfalso. apply H. apply list_elem_of_fmap. exists x.
  split; [| apply list_elem_of_In, Hin]. rewrite Hx. symmetry. apply required_lowercase, Hr.
Qed.

(** X6.  The properties of a row object are exactly the lower-cased
  header names other than [__proto__], which no assignment of a cell
  makes a property.  A column reads the cell under the last header of
  its name, or the empty string when the row is too short for it;
  cells beyond the headers are dropped. *)
Theorem row_object_columns hs row :
(∀ k, is_Some (row_object hs row !! k)
      ↔ k ∈ JS.toLowerCase <$> hs ∧ k ≠ "__proto__")
∧ (∀ i h,
     hs !! i = Some h →
     JS.toLowerCase h ≠ "__proto__" →
     (∀ j h', i < j → hs !! j = Some h' → JS.toLowerCase h' ≠ JS.toLowerCase h) →
     row_object hs row !! JS.toLowerCase h = Some (default "" (row !! i)))
∧ row_object hs row = row_object hs (take (length hs) row).
Proof.
split.
{ intros k. rewrite <- not_eq_None_Some, row_object_lookup_None.
  destruct (decide (k ∈ JS.toLowerCase <$> hs)); destruct (decide (k = "__proto__"));
    tauto. }
split; [apply row_object_lookup_last |].
apply row_object_take. lia.
Qed.

(** X7.  The header check reports exactly the required names that no
  header equals without regard to case, in the order item_name,
  category_name, uom; a reported name is an undefined column of every
  row object, and when nothing is reported every row object has the
  three required columns. *)
Theorem header_check_matches_columns csvData :
(∀ h, h ∈ missingHeaders csvData
      ↔ h ∈ requiredHeaders ∧ h ∉ JS.toLowerCase <$> headers csvData)
∧ missingHeaders csvData `sublist_of` requiredHeaders
∧ (∀ h row, h ∈ missingHeaders csvData →
            row_object (headers csvData) row !! h = None)
∧ (missingHeaders csvData = [] →
   ∀ h row, h ∈ requiredHeaders →
            is_Some (row_object (headers csvData) row !! h)).
Proof.
split; [intros h; apply elem_of_missingHeaders |].
split; [apply sublist_List_filter |].
split.
- intros h row Hm. apply row_object_lookup_None. left.
  apply elem_of_missingHeaders in Hm as [_ Hm]. exact Hm.
- intros Hnone h row Hr.
  destruct (row_object (headers csvData) row !! h) eqn:E; [eauto |].
  apply row_object_lookup_None in E as [E | E].
  + assert (Hm : h ∈ missingHeaders csvData)
      by (apply elem_of_missingHeaders; split; assumption).
    rewrite Hnone in Hm. apply elem_of_nil in Hm. contradiction.
  + subst h. unfold requiredHeaders in Hr.
    repeat (apply elem_of_cons in Hr as [Hr | Hr]; [discriminate Hr |]).
    apply elem_of_nil in Hr. contradiction.
Qed.

End RowObjects.

(** * Conflict detection and resolution *)

Section Resolution.

Lemma find_conflict_update r a cs r' :
find_conflict (updateConflictAction r a cs) r'
= if decide (r' = r) then with_action a <$> find_conflict cs r
  else find_conflict cs r'.
Proof.
unfold find_conflict, updateConflictAction.
induction cs as [| c cs IH]; [destruct (decide _); reflexivity |].
rewrite fmap_cons. cbn [List.find].
destruct (ConflictItem.row c =? r) eqn:Hc; cbn [ConflictItem.row].
- apply Nat.eqb_eq in Hc. destruct (decide (r' = r)) as [-> | Hne].
  + rewrite Hc, Nat.eqb_refl. unfold with_action. simpl. rewrite Hc. reflexivity.
  + rewrite Hc. destruct (r =? r') eqn:E; [| exact IH].
    apply Nat.eqb_eq in E. congruence.
- destruct (decide (r' = r)) as [-> | Hne].
  + rewrite Hc. exact IH.
  + destruct (ConflictItem.row c =? r'); [reflexivity | exact IH].
Qed.

Lemma updateConflictAction_rows r a cs :
ConflictItem.row <$> updateConflictAction r a cs = ConflictItem.row <$> cs.
Proof.
unfold updateConflictAction. induction cs as [| c cs IH]; [reflexivity |].
rewrite !fmap_cons, IH. destruct (ConflictItem.row c =? r); reflexivity.
Qed.

Lemma updateConflictAction_twice r a b cs :
updateConflictAction r a (updateConflictAction r b cs) = updateConflictAction r a cs.
Proof.
unfold updateConflictAction. induction cs as [| c cs IH]; [reflexivity |].
rewrite !fmap_cons, IH. f_equal.
destruct (ConflictItem.row c =? r) eqn:E; simpl; rewrite E; reflexivity.
Qed.

(** X8.  Choosing an action for a row changes the action of the
  conflicts of that row and nothing else: rows, order and the other
  conflicts stay; a later choice for the same row replaces the earlier
  one; and the choice decides the filter, a row with a conflict being
  kept exactly when the chosen action is not [skip], a row without one
  being kept whatever is chosen. *)
Theorem conflict_action_choice r a cs :
ConflictItem.row <$> updateConflictAction r a cs = ConflictItem.row <$> cs
∧ (∀ r', find_conflict (updateConflictAction r a cs) r'
         = if decide (r' = r) then with_action a <$> find_conflict cs r
           else find_conflict cs r')
∧ (∀ b, updateConflictAction r a (updateConflictAction r b cs)
        = updateConflictAction r a cs)
∧ (∀ index, keep (updateConflictAction (index + 2) a cs) index
            = match find_conflict cs (index + 2) with
              | Some _ => negb (Action.eqb a Action.skip)
              | None => true
              end).
Proof.
split; [apply updateConflictAction_rows |].
split; [intros r'; apply find_conflict_update |].
split; [intros b; apply updateConflictAction_twice |].
intros index. unfold keep. rewrite find_conflict_update.
rewrite decide_True by reflexivity.
destruct (find_conflict cs (index + 2)); reflexivity.
Qed.

End Resolution.

Section ConflictCheck.

Context {Store : Type}.
Variable backend : ConflictRequest → Store → Settled * Store.
Variable categories : list Category.t.

Lemma run_then_script {Q A B S} (be : Q → S → Settled * S)
  (p : Script Q A) (f : A → Script Q B) st :
run_script be (then_script p f) st
= let '(a, st1, tr1) := run_script be p st in
  let '(b, st2, tr2) := run_script be (f a) st1 in
  (b, st2, tr1 ++ tr2).
Proof.
revert st. induction p as [a | q k IH]; intros st; simpl.
- destruct (run_script be (f a) st) as [[b st2] tr2]. reflexivity.
- destruct (be q st) as [s st1]. rewrite IH.
  destruct (run_script be (k s) st1) as [[a st2] tr1].
  destruct (run_script be (f a) st2) as [[b st3] tr2]. reflexivity.
Qed.

(** One row adds nothing or one conflict, and a conflict only for a code
  the lookup found. *)
Lemma check_row_spec i row cs0 st :
let '(cs1, _, tr) := run_script backend (check_row categories i row cs0) st in
cs1 = cs0
∨ ∃ c, cs1 = cs0 ++ [c]
       ∧ ConflictItem.row c = i + 2
       ∧ registered_for categories [row] i tr c.
Proof.
unfold check_row.
destruct (find_category_opt categories _) as [category |] eqn:Hcat; simpl; [| auto].
destruct (backend _ st) as [[r | t] st1]; simpl; [| auto].
destruct (error r) eqn:He; simpl; [auto |].
destruct (or_null (data r)) as [code |] eqn:Hd; simpl; [| auto].
destruct (backend _ st1) as [[r2 | t] st2] eqn:Hb; simpl; [| auto].
destruct (error r2) eqn:He2; simpl; [auto |].
destruct (data r2) eqn:Hd2; simpl; [| auto].
right. eexists. split; [reflexivity |]. split; [reflexivity |].
split; [reflexivity |]. exists 0, row, category, r, r2, [], []. simpl.
assert (Ht : data r = Some code ∧ JS.truthy code = true).
{ destruct (data r) as [d |]; simpl in Hd; [| discriminate].
  destruct (JS.truthy d) eqn:E; inversion Hd; subst. auto. }
destruct Ht as [Hdata Ht].
repeat split; try (rewrite ?Nat.add_0_r; reflexivity); try assumption; eauto.
Qed.

Lemma registered_here row rest i tr1 tr2 c :
registered_for categories [row] i tr1 c →
registered_for categories (row :: rest) i (tr1 ++ tr2) c.
Proof.
intros (Ha & j & obj & cat & g & e & pre & post
        & Hr & Hl & Hd & Hc & -> & Heg & Hdg & Ht & He & Hs).
split; [exact Ha |]. exists j, obj, cat, g, e, pre, (post ++ tr2).
destruct j as [| j]; [| discriminate].
repeat split; try assumption. rewrite <- !app_assoc. reflexivity.
Qed.

Lemma registered_later row rest i tr1 tr2 c :
registered_for categories rest (S i) tr2 c →
registered_for categories (row :: rest) i (tr1 ++ tr2) c.
Proof.
intros (Ha & j & obj & cat & g & e & pre & post
        & Hr & Hl & Hd & Hc & -> & Heg & Hdg & Ht & He & Hs).
split; [exact Ha |]. exists (S j), obj, cat, g, e, (tr1 ++ pre), post.
repeat split; try assumption; [lia |]. rewrite <- !app_assoc. reflexivity.
Qed.

(** A row registers a conflict exactly when its lookup found an item. *)
Lemma check_row_codes i row cs0 st :
let '(cs1, _, tr) := run_script backend (check_row categories i row cs0) st in
ConflictItem.item_code <$> cs1
= (ConflictItem.item_code <$> cs0) ++ omap found_code tr.
Proof.
unfold check_row.
destruct (find_category_opt categories _) as [category |] eqn:Hcat; simpl;
  [| rewrite app_nil_r; reflexivity].
destruct (backend _ st) as [[r | t] st1]; simpl; [| rewrite app_nil_r; reflexivity].
destruct (error r) eqn:He; simpl; [rewrite app_nil_r; reflexivity |].
destruct (or_null (data r)) as [code |] eqn:Hd; simpl;
  [| rewrite app_nil_r; reflexivity].
destruct (backend _ st1) as [[r2 | t] st2] eqn:Hb; cbn [run_script];
  [| cbn; rewrite app_nil_r; reflexivity].
destruct (error r2) eqn:He2; cbn [run_script];
  [cbn; rewrite He2, app_nil_r; reflexivity |].
destruct (data r2) eqn:Hd2; cbn [run_script];
  [| cbn; rewrite He2, Hd2, app_nil_r; reflexivity].
rewrite fmap_app. cbn. rewrite He2, Hd2. reflexivity.
Qed.

Lemma check_rows_codes rest i cs0 st :
let '(cs, _, tr) := run_script backend (check_rows categories i rest cs0) st in
ConflictItem.item_code <$> cs
= (ConflictItem.item_code <$> cs0) ++ omap found_code tr.
Proof.
revert i cs0 st. induction rest as [| row rest IH]; intros i cs0 st.
- simpl. rewrite app_nil_r. reflexivity.
- cbn [check_rows]. rewrite run_then_script.
  pose proof (check_row_codes i row cs0 st) as H1.
  destruct (run_script backend (check_row categories i row cs0) st)
    as [[cs1 st1] tr1].
  specialize (IH (S i) cs1 st1).
  destruct (run_script backend (check_rows categories (S i) rest cs1) st1)
    as [[cs st2] tr2].
  rewrite IH, H1, omap_app, app_assoc. reflexivity.
Qed.

Lemma check_rows_spec rest i cs0 st :
let '(cs, _, tr) := run_script backend (check_rows categories i rest cs0) st in
∃ new, cs = cs0 ++ new
       ∧ Forall (registered_for categories rest i tr) new
       ∧ StronglySorted lt (ConflictItem.row <$> new)
       ∧ Forall (fun c => i + 2 ≤ ConflictItem.row c) new
       ∧ length new ≤ length rest.
Proof.
revert i cs0 st. induction rest as [| row rest IH]; intros i cs0 st.
- simpl. exists []. rewrite app_nil_r. repeat split; constructor.
- cbn [check_rows]. rewrite run_then_script.
  pose proof (check_row_spec i row cs0 st) as H1.
  destruct (run_script backend (check_row categories i row cs0) st)
    as [[cs1 st1] tr1].
  specialize (IH (S i) cs1 st1).
  destruct (run_script backend (check_rows categories (S i) rest cs1) st1)
    as [[cs st2] tr2].
  destruct IH as (new2 & -> & Hreg & Hsorted & Hlow & Hlen).
  assert (Hreg2 : Forall (registered_for categories (row :: rest) i (tr1 ++ tr2)) new2).
  { eapply Forall_impl; [| exact Hreg]. intros c. apply registered_later. }
  assert (Hlow2 : Forall (fun c => i + 2 ≤ ConflictItem.row c) new2).
  { eapply Forall_impl; [| exact Hlow]. intros c Hc. simpl in Hc. lia. }
  destruct H1 as [-> | (c & -> & Hrow & Hc)].
  + exists new2. repeat split; try assumption. simpl. lia.
  + exists (c :: new2). rewrite <- app_assoc. repeat split.
    * constructor; [apply registered_here, Hc | exact Hreg2].
    * rewrite fmap_cons. constructor; [exact Hsorted |].
      apply Forall_fmap. eapply Forall_impl; [| exact Hlow].
      intros c' Hc'. simpl in *. lia.
    * constructor; [lia | exact Hlow2].
    * simpl. lia.
Qed.

Lemma find_conflict_Some_row cs r c :
find_conflict cs r = Some c → c ∈ cs ∧ ConflictItem.row c = r.
Proof.
unfold find_conflict. intros H. apply List.find_some in H as [Hin Hr].
split; [apply list_elem_of_In, Hin | apply Nat.eqb_eq, Hr].
Qed.

Lemma find_conflict_None_row cs r :
find_conflict cs r = None ↔ r ∉ ConflictItem.row <$> cs.
Proof.
unfold find_conflict. induction cs as [| c cs IH].
- simpl. split; [| reflexivity]. intros _ H. apply elem_of_nil in H. exact H.
- cbn [List.find]. rewrite fmap_cons, not_elem_of_cons. destruct (ConflictItem.row c =? r) eqn:E.
  + apply Nat.eqb_eq in E. split; [discriminate | intros [H _]; congruence].
  + apply Nat.eqb_neq in E. rewrite IH. split; [intros H; split; congruence | tauto].
Qed.

(** When every conflict still has the default action, the rows the
  filter drops are the rows of the conflict list. *)
Lemma default_conflicts_are_skipped cs csvData :
Forall (fun c => ConflictItem.action c = Action.skip) cs →
∀ item, item ∈ itemsToProcess cs (dataObjects csvData)
        ↔ item ∈ dataObjects csvData
          ∧ originalRowIndex item ∉ ConflictItem.row <$> cs.
Proof.
intros Hskip item. rewrite itemsToProcess_not_skipped.
split; intros [Hin H]; split; try exact Hin.
- intros Hr. apply H. unfold marked.
  destruct (find_conflict cs (originalRowIndex item)) as [c |] eqn:E.
  + exists c. split; [reflexivity |].
    apply find_conflict_Some_row in E as [Hc _].
    rewrite Forall_forall in Hskip. apply Hskip, list_elem_of_In, Hc.
  + apply find_conflict_None_row in E. contradiction.
- intros (c & Hc & _). apply H. apply find_conflict_Some_row in Hc as [Hc Hr].
  rewrite <- Hr. apply list_elem_of_fmap. eauto.
Qed.

(** X9.  The conflict check registers conflicts only with the action
  [skip], in strictly increasing row order, at most one per row.  Each
  stands for a row of the file (row number index + 2) whose category
  exists: in the run, the code generation for that row's category,
  qualifier, size and gsm replied with the conflict's non-empty code
  and no error, and the next request, the item lookup by that code,
  replied with an item and no error.  The conflict's data is the row
  with the generated code added.  The codes of the conflicts are, in
  order, the codes of the lookups that found an item, none left out.
  With the list as found, the apply step processes exactly the rows
  that are not in it. *)
Theorem conflict_check_result dataObjects0 st :
let '(found, _, tr) :=
  run_script backend (checkForConflicts categories dataObjects0) st in
Forall (registered_for categories dataObjects0 0 tr) found
∧ ConflictItem.item_code <$> found = omap found_code tr
∧ StronglySorted lt (ConflictItem.row <$> found)
∧ length found ≤ length dataObjects0
∧ ∀ csvData item,
    item ∈ itemsToProcess found (dataObjects csvData)
    ↔ item ∈ dataObjects csvData
      ∧ originalRowIndex item ∉ ConflictItem.row <$> found.
Proof.
unfold checkForConflicts.
pose proof (check_rows_spec dataObjects0 0 [] st) as H.
pose proof (check_rows_codes dataObjects0 0 [] st) as Hcodes.
destruct (run_script backend (check_rows categories 0 dataObjects0 []) st)
  as [[found st1] tr].
destruct H as (new & -> & Hreg & Hsorted & _ & Hlen). simpl.
split; [exact Hreg |]. split; [exact Hcodes |].
split; [exact Hsorted |]. split; [exact Hlen |].
intros csvData. apply default_conflicts_are_skipped.
eapply Forall_impl; [| exact Hreg]. intros c [Ha _]. exact Ha.
Qed.

End ConflictCheck.

(** * Selecting a file *)

Section FileSelection.

Context {Store : Type}.
Variable backend : ConflictRequest → Store → Settled * Store.
Variable categories : list Category.t.

(** X10.  After a file with a [.csv] name is selected, the conflict
  check has run only if the text parsed, no required header is missing
  and no row has a validation error; in every other case no request
  was issued and the conflict list is empty.  The validation errors
  shown are those of the rows of this file, and the conflicts are
  those the check found. *)
Theorem conflict_check_runs_only_on_valid_file prev name text st :
endsWith ".csv" name = true →
let '(s, _, tr) :=
  run_script backend (handleFileChange categories prev name text) st in
UI.file s = Some name
∧ UI.uploadResult s = None
∧ match parseCSV text with
  | inl _ => UI.validationErrors s = [] ∧ UI.conflicts s = [] ∧ tr = []
  | inr parsed =>
      let objs := row_object (headers parsed) <$> rows parsed in
      UI.csvData s = Some parsed
      ∧ match missingHeaders parsed with
        | _ :: _ => UI.validationErrors s = [] ∧ UI.conflicts s = [] ∧ tr = []
        | [] =>
            UI.validationErrors s = validateRows categories objs
            ∧ match validateRows categories objs with
              | _ :: _ => UI.conflicts s = [] ∧ tr = []
              | [] =>
                  (UI.conflicts s, tr)
                  = let '(found, _, tr') :=
                      run_script backend (checkForConflicts categories objs) st in
                    (found, tr')
              end
        end
  end.
Proof.
intros Hname. unfold handleFileChange. rewrite Hname. cbn [negb].
destruct (parseCSV text) as [t | parsed]; [simpl; auto |].
destruct (missingHeaders parsed) as [| h hs]; [| simpl; auto 6].
cbv zeta.
destruct (validateRows categories _) as [| e es] eqn:Hv; [| simpl; auto 8].
rewrite run_then_script.
destruct (run_script backend (checkForConflicts categories _) st)
  as [[found st1] tr1].
simpl. rewrite app_nil_r. auto 8.
Qed.

(** X11.  A file whose name does not end in [.csv] changes nothing but
  the toast.  A file that fails to parse leaves the previously parsed
  data in place under the new file name, and a file that fails the
  header check becomes the loaded data with no validation error: in
  both cases the upload button acts on that data as soon as the upload
  controls are shown. *)
Theorem rejected_file_leaves_data_loaded prev name text st :
let '(s, st1, tr) :=
  run_script backend (handleFileChange categories prev name text) st in
(endsWith ".csv" name = false →
   s = UI.toast InvalidFileType prev ∧ tr = [])
∧ (endsWith ".csv" name = true →
   ∀ t, parseCSV text = inl t →
     UI.csvData s = UI.csvData prev
     ∧ UI.toasts s = UI.toasts prev ++ [ErrorParsingCSV (catch_message t)]
     ∧ shows_upload_controls s = bool_decide (is_Some (UI.csvData prev))
     ∧ processUpload s = match UI.csvData prev with
                         | Some old => Execute old name
                         | None => NothingLoaded
                         end)
∧ (endsWith ".csv" name = true →
   ∀ parsed, parseCSV text = inr parsed → missingHeaders parsed ≠ [] →
     UI.toasts s
     = UI.toasts prev
       ++ [MissingRequiredColumns
             ("Please ensure your CSV has: " +:+ join ", " (missingHeaders parsed))]
     ∧ shows_upload_controls s = true
     ∧ processUpload s = Execute parsed name).
Proof.
unfold handleFileChange.
destruct (endsWith ".csv" name); cbn [negb].
2: { simpl. split; [auto |]. split; discriminate. }
destruct (parseCSV text) as [t | parsed].
- simpl. split; [discriminate |]. split.
  + intros _ t' Ht. inversion Ht; subst. unfold shows_upload_controls, processUpload.
    simpl. repeat split. destruct (UI.csvData prev); reflexivity.
  + intros _ parsed Hp. discriminate.
- destruct (missingHeaders parsed) as [| h hs] eqn:Hm.
  + cbv zeta.
    destruct (validateRows categories _) as [| e es].
    * rewrite run_then_script.
      destruct (run_script backend (checkForConflicts categories _) st)
        as [[found st2] tr1].
      simpl. split; [discriminate |]. split; [intros _ t Ht; discriminate |].
      intros _ p Hp Hne. inversion Hp; subst. congruence.
    * simpl. split; [discriminate |]. split; [intros _ t Ht; discriminate |].
      intros _ p Hp Hne. inversion Hp; subst. congruence.
  + simpl. split; [discriminate |]. split; [intros _ t Ht; discriminate |].
    intros _ p Hp _. inversion Hp; subst. rewrite Hm.
    unfold shows_upload_controls, processUpload. simpl. repeat split.
Qed.

End FileSelection.

(** * More on the upload *)

Section UploadMore.

Context {Store : Type}.
Variable backend : Request → Store → Settled * Store.
Variable categories : list Category.t.
Variable conflicts : list ConflictItem.t.

Lemma row_outcome_no_category item st :
find_category_opt categories (fields item !! "category_name") = None →
run backend (row_outcome categories conflicts item) st
= (Failed ("Category '" +:+ default "undefined" (fields item !! "category_name")
             +:+ "' not found"), st, []).
Proof. intros H. unfold row_outcome, try_item. rewrite H. reflexivity. Qed.

Lemma row_outcomes_no_category items st :
Forall (fun item => fields item !! "category_name" = None) items →
run backend (row_outcomes categories conflicts items) st
= ((fun item => (originalRowIndex item, Failed "Category 'undefined' not found"))
     <$> items, st, []).
Proof.
induction 1 as [| item items Hi _ IH]; [reflexivity |].
rewrite run_row_outcomes_cons, row_outcome_no_category by (rewrite Hi; reflexivity).
rewrite IH, Hi. reflexivity.
Qed.

Lemma itemsToProcess_sublist (objs : list Item) :
itemsToProcess conflicts objs `sublist_of` objs.
Proof.
unfold itemsToProcess.
assert (H : ∀ (h : nat → nat) l,
           snd <$> List.filter (fun '(index, _) => keep conflicts index)
                     (imap (fun i (x : Item) => (h i, x)) l) `sublist_of` l).
{ intros h l. revert h. induction l as [| x l IH]; intros h; [constructor |].
  cbn [imap List.filter]. destruct (keep conflicts (h 0)).
  - rewrite fmap_cons. apply sublist_skip, (IH (h ∘ S)).
  - apply sublist_cons, (IH (h ∘ S)). }
apply (H (fun i => i)).
Qed.

Lemma dataObjects_fields csvData item :
item ∈ dataObjects csvData →
∃ row, fields item = row_object (headers csvData) row.
Proof.
unfold dataObjects. intros H. apply elem_of_lookup_imap in H as (i & row & -> & _).
eauto.
Qed.

Lemma failures_all_failed (items : list Item) m :
failures ((fun item => (originalRowIndex item, Failed m)) <$> items)
= (fun item => ApplyError.mk (originalRowIndex item) m) <$> items.
Proof.
induction items as [| x l IH]; [reflexivity |].
rewrite !fmap_cons. change (failures ((originalRowIndex x, Failed m) :: ?t))
  with (ApplyError.mk (originalRowIndex x) m :: failures t).
rewrite IH. reflexivity.
Qed.

Lemma successes_all_failed (items : list Item) m :
List.filter is_success ((fun item => (originalRowIndex item, Failed m)) <$> items) = [].
Proof. induction items as [| x l IH]; [reflexivity |]. rewrite fmap_cons. exact IH. Qed.

(** The audit step issues no request of a row, and it ends in the
  outer [catch] exactly when its last request was rejected. *)
Lemma audit_step_requests file n os p st :
let '(res, _, tr) :=
  run backend (log_and_report file n (setProgress (record_all os initial) p)) st in
existsb row_request tr = false.
Proof.
pose proof (log_and_report_run backend file n os p st) as H. cbv zeta in H.
destruct (run backend (log_and_report _ _ _) st) as [[res st2] tr].
destruct (backend auth_getUser st) as [[userData | t] st1].
2: { destruct H as (_ & _ & ->). reflexivity. }
destruct (data userData) as [user |].
2: { destruct H as (_ & _ & ->). reflexivity. }
cbv zeta in H.
destruct (backend (csv_upload_log_insert _) st1) as [[r | t] st3];
  destruct H as (_ & _ & ->); reflexivity.
Qed.

Lemma audit_step_rejected file n os p st :
let '(res, _, tr) :=
  run backend (log_and_report file n (setProgress (record_all os initial) p)) st in
∀ t, res = inl t ↔ ∃ q pre, tr = pre ++ [(q, Rejected t)].
Proof.
pose proof (log_and_report_run backend file n os p st) as H. cbv zeta in H.
destruct (run backend (log_and_report _ _ _) st) as [[res st2] tr].
assert (Hsnoc : ∀ (pre : list (Request * Settled)) x l, l = pre ++ [x] →
                  List.last l x = x ∧ l ≠ []).
{ intros pre x l ->. split; [apply List.last_last |]. destruct pre; discriminate. }
destruct (backend auth_getUser st) as [[userData | t] st1].
2: { destruct H as (-> & _ & ->). intros t'. split.
     - intros E. inversion E. exists auth_getUser, []. reflexivity.
     - intros (q & pre & E). apply Hsnoc in E as [E _]. simpl in E.
       inversion E. reflexivity. }
destruct (data userData) as [user |].
2: { destruct H as (-> & _ & ->). intros t'. split; [discriminate |].
     intros (q & pre & E). apply Hsnoc in E as [E _]. simpl in E. discriminate. }
cbv zeta in H.
destruct (backend (csv_upload_log_insert _) st1) as [[r | t] st3];
  destruct H as (-> & _ & ->); intros t'; split.
- discriminate.
- intros (q & pre & E). apply Hsnoc in E as [E _]. simpl in E. discriminate.
- intros E. inversion E. eexists _, [_]. reflexivity.
- intros (q & pre & E). apply Hsnoc in E as [E _]. simpl in E.
  inversion E. reflexivity.
Qed.

(** X12.  When the file has no [category_name] column, the upload
  writes nothing for any row: no request is issued for the rows, no
  row succeeds, and every row that is not skipped is reported with the
  error "Category 'undefined' not found". *)
Theorem upload_without_category_column csvData file st :
"category_name" ∉ JS.toLowerCase <$> headers csvData →
let '(res, _, tr) :=
  run backend (executeUpload categories conflicts csvData file) st in
existsb row_request tr = false
∧ ∀ r, res = inr r →
    success r = 0
    ∧ result_errors r
      = (fun item =>
           ApplyError.mk (originalRowIndex item) "Category 'undefined' not found")
          <$> itemsToProcess conflicts (dataObjects csvData).
Proof.
intros Hcol. rewrite executeUpload_run. cbv zeta.
rewrite row_outcomes_no_category.
2: { apply Forall_forall. intros item Hin.
     assert (Hd : item ∈ dataObjects csvData).
     { eapply elem_of_sublist; [| apply itemsToProcess_sublist].
       apply list_elem_of_In, Hin. }
     apply dataObjects_fields in Hd as [row ->].
     apply row_object_lookup_None. left. exact Hcol. }
match goal with
| |- context [run backend (log_and_report ?f ?n (setProgress (record_all ?os _) ?p)) ?s] =>
    pose proof (audit_step backend f n os p s) as Haudit;
    pose proof (audit_step_requests f n os p s) as Hreq
end.
destruct (run backend (log_and_report _ _ _) st) as [[res st2] tr2].
destruct Haudit as (_ & _ & Hres & _).
split.
- exact Hreq.
- intros r Hr. apply Hres in Hr. subst r. unfold result_of. simpl.
  rewrite successes_all_failed, failures_all_failed. auto.
Qed.

(** X14.  A row whose conflict is resolved as [update] never inserts:
  its only requests are the code generation and one update, addressed
  to the code generated in this run and carrying the row's columns;
  the row succeeds when the update replies without an error and fails
  with "Error updating item: ..." otherwise. *)
Theorem update_action_only_updates item c st :
find_conflict conflicts (originalRowIndex item) = Some c →
ConflictItem.action c = Action.update →
let '(o, _, tr) := run backend (row_outcome categories conflicts item) st in
existsb is_insert tr = false
∧ ∀ category r1 r2 st1 st2,
    find_category_opt categories (fields item !! "category_name") = Some category →
    backend (rpc_generate_item_code (Category.category_name category)
               (JS.or_else (fields item !! "qualifier") "")
               (JS.or_else (fields item !! "size_mm") "")
               (gsm_number (fields item !! "gsm"))) st
    = (Fulfilled r1, st1) →
    error r1 = None →
    backend (item_master_update (payload category item) (data r1)) st1
    = (Fulfilled r2, st2) →
    tr = [(rpc_generate_item_code (Category.category_name category)
             (JS.or_else (fields item !! "qualifier") "")
             (JS.or_else (fields item !! "size_mm") "")
             (gsm_number (fields item !! "gsm")), Fulfilled r1);
          (item_master_update (payload category item) (data r1), Fulfilled r2)]
    ∧ o = match error r2 with
          | None => Succeeded
          | Some e => Failed ("Error updating item: " +:+ PostgrestError.message e)
          end.
Proof.
intros Hc Ha. unfold row_outcome, try_item. rewrite Hc. cbn [is_update].
rewrite Ha. cbn [Action.eqb].
destruct (find_category_opt categories _) as [category |]; simpl.
2: { split; [reflexivity |]. intros; discriminate. }
destruct (backend _ st) as [[r1 | t] st1] eqn:H1; simpl.
2: { split; [reflexivity |]. intros ? ? ? ? ? E E1. inversion E; subst.
     rewrite H1 in E1. discriminate. }
destruct (error r1) eqn:He1; simpl.
{ split; [reflexivity |]. intros ? ? ? ? ? E E1 E2. inversion E; subst.
  rewrite H1 in E1. inversion E1; subst. congruence. }
destruct (backend _ st1) as [[r2 | t] st2] eqn:H2; simpl.
2: { split; [reflexivity |]. intros ? ? ? ? ? E E1 E2 E3. inversion E; subst.
     rewrite H1 in E1. inversion E1; subst. rewrite H2 in E3. discriminate. }
destruct (error r2) eqn:He2; simpl.
- split; [reflexivity |]. intros ? ? ? ? ? E E1 E2 E3. inversion E; subst.
  rewrite H1 in E1. inversion E1; subst. rewrite H2 in E3. inversion E3; subst.
  rewrite He2. auto.
- split; [reflexivity |]. intros ? ? ? ? ? E E1 E2 E3. inversion E; subst.
  rewrite H1 in E1. inversion E1; subst. rewrite H2 in E3. inversion E3; subst.
  rewrite He2. auto.
Qed.

Lemma audit_step_not_silent file n os p st :
(run backend (log_and_report file n (setProgress (record_all os initial) p)) st).2 ≠ [].
Proof.
pose proof (log_and_report_run backend file n os p st) as H. cbv zeta in H.
destruct (run backend (log_and_report _ _ _) st) as [[res st2] tr].
destruct (backend auth_getUser st) as [[userData | t] st1].
2: { destruct H as (_ & _ & ->). discriminate. }
destruct (data userData) as [user |].
2: { destruct H as (_ & _ & ->). discriminate. }
cbv zeta in H.
destruct (backend (csv_upload_log_insert _) st1) as [[r | t] st3];
  destruct H as (_ & _ & ->); discriminate.
Qed.

Lemma app_snoc_tail {A} (l1 l2 pre : list A) x :
l1 ++ l2 = pre ++ [x] → l2 ≠ [] → ∃ pre', l2 = pre' ++ [x].
Proof.
intros E Hne. destruct l2 as [| y l2] using rev_ind; [congruence |].
rewrite app_assoc in E. apply app_inj_tail in E as [_ ->]. eauto.
Qed.

(** X15.  The upload ends in its outer [catch], with no result set,
  exactly when the last request of the run was rejected; that request
  belongs to the audit step, so every request of the rows has been
  issued by then. *)
Theorem rejected_audit_step_hides_result csvData file st :
let items := itemsToProcess conflicts (dataObjects csvData) in
let '(res, _, tr) :=
  run backend (executeUpload categories conflicts csvData file) st in
let '(_, _, tr1) := run backend (row_outcomes categories conflicts items) st in
(∃ tr2, tr = tr1 ++ tr2 ∧ tr2 ≠ [] ∧ existsb row_request tr2 = false)
∧ ∀ t, res = inl t ↔ ∃ q pre, tr = pre ++ [(q, Rejected t)].
Proof.
cbv zeta. rewrite executeUpload_run. cbv zeta.
destruct (run backend (row_outcomes _ _ _) st) as [[os st1] tr1].
match goal with
| |- context [run backend (log_and_report ?f ?n (setProgress (record_all ?os _) ?p)) ?s] =>
    pose proof (audit_step_rejected f n os p s) as Hrej;
    pose proof (audit_step_requests f n os p s) as Hreq;
    pose proof (audit_step_not_silent f n os p s) as Hne
end.
destruct (run backend (log_and_report _ _ _) st1) as [[res st2] tr2].
simpl in Hne. split; [eauto |].
intros t. rewrite Hrej. split.
- intros (q & pre & ->). exists q, (tr1 ++ pre). rewrite app_assoc. reflexivity.
- intros (q & pre & E). exists q. eapply app_snoc_tail; eassumption.
Qed.

Lemma failures_rows_sublist os :
ApplyError.row <$> failures os `sublist_of` fst <$> os.
Proof.
induction os as [| [row o] os IH]; [constructor |].
rewrite fmap_cons. destruct o.
- change (failures ((row, Succeeded) :: os)) with (failures os).
  apply sublist_cons, IH.
- change (failures ((row, Failed message) :: os))
    with (ApplyError.mk row message :: failures os).
  rewrite fmap_cons. apply sublist_skip, IH.
Qed.

(** X16.  In a reported result the successes and the errors add up to
  the number of rows that were not skipped, which is at most the
  total; the errors name rows of the file in file order; and an audit
  record written in the run carries the file name, the type
  "item_master" and the same total, counts and error list as the
  reported result. *)
Theorem reported_counts_add_up csvData file st :
let items := itemsToProcess conflicts (dataObjects csvData) in
let '(res, _, tr) :=
  run backend (executeUpload categories conflicts csvData file) st in
∀ r, res = inr r →
  success r + length (result_errors r) = length items
  ∧ length items ≤ total r
  ∧ total r = length (rows csvData)
  ∧ ApplyError.row <$> result_errors r `sublist_of` originalRowIndex <$> items
  ∧ ∀ entry s, (csv_upload_log_insert entry, s) ∈ tr →
      file_name entry = file
      ∧ file_type entry = "item_master"
      ∧ total_rows entry = total r
      ∧ success_rows entry = success r
      ∧ error_rows entry = length (result_errors r)
      ∧ errors entry = result_errors r.
Proof.
cbv zeta. rewrite executeUpload_run. cbv zeta.
pose proof (run_row_outcomes_rows backend categories conflicts
              (itemsToProcess conflicts (dataObjects csvData)) st) as Hrows.
pose proof (row_outcomes_requests backend categories conflicts
              (itemsToProcess conflicts (dataObjects csvData)) st) as Hreq.
destruct (run backend (row_outcomes _ _ _) st) as [[os st1] tr1].
simpl in Hrows, Hreq.
match goal with
| |- context [run backend (log_and_report ?f ?n (setProgress (record_all ?os _) ?p)) ?s] =>
    pose proof (audit_step backend f n os p s) as Haudit
end.
destruct (run backend (log_and_report _ _ _) st1) as [[res st2] tr2].
destruct Haudit as (_ & _ & Hres & Hcount & _).
intros r Hr. apply Hres in Hr. subst r. unfold result_of. simpl.
assert (Hlen : length os = length (itemsToProcess conflicts (dataObjects csvData))).
{ rewrite <- (length_fmap fst os), Hrows, length_fmap. reflexivity. }
split; [rewrite outcomes_partition; exact Hlen |].
split.
{ rewrite <- length_dataObjects. apply sublist_length, itemsToProcess_sublist. }
split; [reflexivity |].
split; [rewrite <- Hrows; apply failures_rows_sublist |].
intros entry s Hin.
destruct (row_requests_no_audit tr1 tr2 Hreq) as (_ & _ & Hin2).
apply Hin2 in Hin.
assert (Hf : (csv_upload_log_insert entry, s) ∈ List.filter is_audit_write tr2).
{ apply list_elem_of_In, List.filter_In. split; [apply list_elem_of_In, Hin | reflexivity]. }
destruct (session_user tr2) as [user |].
- destruct Hcount as [s' Hc]. rewrite Hc in Hf.
  apply list_elem_of_singleton in Hf. inversion Hf; subst. simpl. auto 7.
- rewrite Hcount in Hf. apply elem_of_nil in Hf. contradiction.
Qed.

End UploadMore.

(** * The opening-stock import *)

Section OpeningStockImport.

Context {Store : Type}.
Variable backend : Request → Store → Settled * Store.

Ltac reply :=
match goal with
| |- context [backend ?req ?st] =>
    let r := fresh "r" in let t := fresh "t" in let st1 := fresh "st" in
    destruct (backend req st) as [[r | t] st1] eqn:?; simpl
end.

(** The two upserts: the stock record is written only after the item
  upsert came back without an error, and the row succeeds exactly when
  both did. *)
Lemma upserts_run row categoryId st :
let '(res, _, tr) :=
  run backend (OpeningStock.upsert_item_and_stock row categoryId) st in
∃ s1, (tr = [(item_upsert_of row categoryId, s1)] ∧ acknowledged s1 = false
       ∧ ∃ t, res = inl t)
      ∨ ∃ s2, tr = [(item_upsert_of row categoryId, s1); (stock_upsert_of row, s2)]
              ∧ acknowledged s1 = true
              ∧ (res = inr tt ↔ acknowledged s2 = true)
              ∧ (acknowledged s2 = false → ∃ t, res = inl t).
Proof.
unfold OpeningStock.upsert_item_and_stock, item_upsert_of, stock_upsert_of. simpl.
reply.
2: { exists (Rejected t). left. repeat split. eauto. }
destruct (error r) eqn:He; simpl.
{ exists (Fulfilled r). left. simpl. rewrite He. repeat split. eauto. }
reply.
- destruct (error r0) eqn:He2; simpl.
  + exists (Fulfilled r). right. exists (Fulfilled r0). simpl. rewrite He, He2.
    repeat split; try discriminate. eauto.
  + exists (Fulfilled r). right. exists (Fulfilled r0). simpl. rewrite He, He2.
    repeat split; discriminate.
- exists (Fulfilled r). right. exists (Rejected t). simpl. rewrite He.
  repeat split; try discriminate. eauto.
Qed.

Lemma last_snoc_eq {A} (l pre : list A) x d : l = pre ++ [x] → List.last l d = x.
Proof. intros ->. apply List.last_last. Qed.

Ltac mem :=
repeat match goal with
       | H : _ ∈ _ :: _ |- _ => apply elem_of_cons in H as [H | H]
       | H : _ ∈ [] |- _ => apply elem_of_nil in H; contradiction
       | H : (_, _) = (_, _) |- _ => inversion H; subst; clear H
       end.

(** X17.  In the opening-stock import a row writes its stock record
  only after its item upsert came back without an error, always with
  the current quantity equal to the opening quantity, and the row
  counts as a success exactly when the stock upsert, its last request,
  came back without an error. *)
Theorem opening_row_upserts row st :
let '(res, _, tr) := run backend (OpeningStock.try_row row) st in
(∀ code o c s, (stock_upsert code o c, s) ∈ tr →
   stock_upsert code o c = stock_upsert_of row
   ∧ ∃ cid s1, (item_upsert_of row cid, s1) ∈ tr ∧ acknowledged s1 = true)
∧ (res = inr tt
   ↔ ∃ pre s, tr = pre ++ [(stock_upsert_of row, s)] ∧ acknowledged s = true).
Proof.
assert (Hup : ∀ cid st0 prefix,
  Forall (fun e => ∀ code o c, e.1 ≠ stock_upsert code o c) prefix →
  let '(res, _, tr) :=
    run backend (OpeningStock.upsert_item_and_stock row cid) st0 in
  (∀ code o c s, (stock_upsert code o c, s) ∈ prefix ++ tr →
     stock_upsert code o c = stock_upsert_of row
     ∧ ∃ cid s1, (item_upsert_of row cid, s1) ∈ prefix ++ tr ∧ acknowledged s1 = true)
  ∧ (res = inr tt
     ↔ ∃ pre s, prefix ++ tr = pre ++ [(stock_upsert_of row, s)]
                ∧ acknowledged s = true)).
{ intros cid st0 prefix Hp.
  pose proof (upserts_run row cid st0) as H.
  destruct (run backend (OpeningStock.upsert_item_and_stock row cid) st0)
    as [[res st1] tr].
  assert (Hnot : ∀ code o c s, (stock_upsert code o c, s) ∉ prefix).
  { intros code o c s Hin. rewrite Forall_forall in Hp.
    apply list_elem_of_In in Hin. apply (Hp _ Hin code o c). reflexivity. }
  destruct H as [s1 [(-> & Ha & t & ->) | (s2 & -> & Ha & Hres & Hfail)]].
  - split.
    + intros code o c s Hin. apply elem_of_app in Hin as [Hin | Hin];
        [exfalso; eapply Hnot, Hin |]. mem.
    + split; [discriminate |]. intros (pre & s & E & _).
      rewrite app_assoc in E || idtac.
      apply (last_snoc_eq _ _ _ (auth_getUser, s)) in E.
      rewrite List.last_last in E. discriminate.
  - split.
    + intros code o c s Hin. apply elem_of_app in Hin as [Hin | Hin];
        [exfalso; eapply Hnot, Hin |]. mem.
      split; [reflexivity |]. exists cid, s1. split; [| exact Ha].
      apply elem_of_app. right. left.
    + rewrite Hres. split.
      * intros Hs. exists (prefix ++ [(item_upsert_of row cid, s1)]), s2.
        rewrite <- app_assoc. auto.
      * intros (pre & s & E & Hs).
        change [(item_upsert_of row cid, s1); (stock_upsert_of row, s2)]
          with ([(item_upsert_of row cid, s1)] ++ [(stock_upsert_of row, s2)]) in E.
        rewrite app_assoc in E. apply app_inj_tail in E as [_ E].
        inversion E; subst. exact Hs. }
unfold OpeningStock.try_row.
destruct (or_null (row !! "category")) as [category |]; [| apply (Hup None st [])];
  [| constructor].
unfold await at 1. cbn [run].
destruct (backend _ st) as [[r | t] st1].
2: { split; [intros; mem |]. split; [discriminate |].
     intros (pre & s & E & _). apply (last_snoc_eq _ _ _ (auth_getUser, s)) in E.
     discriminate. }
destruct (data r) as [id |].
{ specialize (Hup (Some id) st1 [(categories_select_id_ilike category, Fulfilled r)]).
  destruct (run backend (OpeningStock.upsert_item_and_stock _ _) st1) as [[res st2] tr].
  apply Hup. repeat constructor. simpl. discriminate. }
unfold await at 1. cbn [run].
destruct (backend _ st1) as [[r2 | t] st2].
2: { split; [intros; mem |]. split; [discriminate |].
     intros (pre & s & E & _). apply (last_snoc_eq _ _ _ (auth_getUser, s)) in E.
     discriminate. }
destruct (error r2).
{ split; [intros; mem |]. split; [discriminate |].
  intros (pre & s & E & _). apply (last_snoc_eq _ _ _ (auth_getUser, s)) in E.
  discriminate. }
destruct (data r2) as [id |].
2: { split; [intros; mem |]. split; [discriminate |].
     intros (pre & s & E & _). apply (last_snoc_eq _ _ _ (auth_getUser, s)) in E.
     discriminate. }
specialize (Hup (Some id) st2
              [(categories_select_id_ilike category, Fulfilled r);
               (categories_insert category OpeningStock.auto_description,
                Fulfilled r2)]).
destruct (run backend (OpeningStock.upsert_item_and_stock _ _) st2) as [[res st3] tr].
apply Hup. repeat constructor; simpl; discriminate.
Qed.

Lemma upserts_trace row cid st :
let '(_, _, tr) := run backend (OpeningStock.upsert_item_and_stock row cid) st in
Forall (fun e => e.1 = item_upsert_of row cid ∨ e.1 = stock_upsert_of row) tr.
Proof.
pose proof (upserts_run row cid st) as H.
destruct (run backend (OpeningStock.upsert_item_and_stock row cid) st)
  as [[res st1] tr].
destruct H as [s1 [(-> & _) | (s2 & -> & _)]].
- constructor; [left; reflexivity | constructor].
- constructor; [left; reflexivity |]. constructor; [right; reflexivity | constructor].
Qed.

Ltac tail_cases H :=
rewrite Forall_forall in H;
match goal with
| Hin : _ ∈ ?tr |- _ =>
    apply list_elem_of_In, H in Hin; simpl in Hin;
    destruct Hin as [Hin | Hin]; try discriminate; inversion Hin; subst
end.

(** X18.  The opening-stock import asks for a category only when the
  row names one; it creates a category, described as auto-created,
  only after the lookup of that name returned nothing; and the item is
  filed under no category when the row names none, else under the id
  the lookup or the insert returned. *)
Theorem opening_row_category row st :
let '(res, _, tr) := run backend (OpeningStock.try_row row) st in
(or_null (row !! "category") = None → existsb is_category_request tr = false)
∧ (∀ name desc s, (categories_insert name desc, s) ∈ tr →
     desc = OpeningStock.auto_description
     ∧ or_null (row !! "category") = Some name
     ∧ ∃ r, (categories_select_id_ilike name, Fulfilled r) ∈ tr ∧ data r = None)
∧ (∀ code n cid u status s, (item_master_upsert code n cid u status, s) ∈ tr →
     item_master_upsert code n cid u status = item_upsert_of row cid
     ∧ match or_null (row !! "category") with
       | None => cid = None
       | Some category =>
           ∃ r, cid = data r ∧ is_Some (data r)
                ∧ ((categories_select_id_ilike category, Fulfilled r) ∈ tr
                   ∨ ((categories_insert category OpeningStock.auto_description,
                       Fulfilled r) ∈ tr ∧ error r = None))
       end).
Proof.
unfold OpeningStock.try_row.
destruct (or_null (row !! "category")) as [category |].
2: { pose proof (upserts_trace row None st) as Ht.
     destruct (run backend (OpeningStock.upsert_item_and_stock _ _) st)
       as [[res st1] tr].
     split; [| split].
     - intros _. clear - Ht. induction Ht as [| [q s] tr Hq _ IH]; [reflexivity |].
       simpl in *. rewrite IH. destruct Hq as [-> | ->]; reflexivity.
     - intros name desc s Hin. tail_cases Ht.
     - intros code n cid u status s Hin. tail_cases Ht. auto. }
unfold await at 1. cbn [run].
destruct (backend _ st) as [[r | t] st1].
2: { split; [discriminate |]. split; intros; mem. }
destruct (data r) as [id |] eqn:Hd.
{ pose proof (upserts_trace row (Some id) st1) as Ht.
  destruct (run backend (OpeningStock.upsert_item_and_stock _ _) st1)
    as [[res st2] tr].
  split; [discriminate |]. split.
  - intros name desc s Hin. apply elem_of_cons in Hin as [Hin | Hin]; [discriminate |].
    tail_cases Ht.
  - intros code n cid u status s Hin.
    apply elem_of_cons in Hin as [Hin | Hin]; [discriminate |].
    tail_cases Ht. split; [reflexivity |]. exists r. rewrite Hd.
    split; [reflexivity |]. split; [eauto |]. left. left. }
unfold await at 1. cbn [run].
destruct (backend _ st1) as [[r2 | t] st2].
2: { split; [discriminate |]. split; intros; mem.
     split; [reflexivity |]. split; [reflexivity |].
     exists r. split; [left | exact Hd]. }
destruct (error r2) eqn:He2.
{ split; [discriminate |]. split; intros; mem.
  split; [reflexivity |]. split; [reflexivity |].
  exists r. split; [left | exact Hd]. }
destruct (data r2) as [id |] eqn:Hd2.
2: { split; [discriminate |]. split; intros; mem.
     split; [reflexivity |]. split; [reflexivity |].
     exists r. split; [left | exact Hd]. }
pose proof (upserts_trace row (Some id) st2) as Ht.
destruct (run backend (OpeningStock.upsert_item_and_stock _ _) st2)
  as [[res st3] tr].
split; [discriminate |]. split.
- intros name desc s Hin.
  apply elem_of_cons in Hin as [Hin | Hin]; [discriminate |].
  apply elem_of_cons in Hin as [Hin | Hin].
  + inversion Hin; subst. split; [reflexivity |]. split; [reflexivity |].
    exists r. split; [left | exact Hd].
  + tail_cases Ht.
- intros code n cid u status s Hin.
  apply elem_of_cons in Hin as [Hin | Hin]; [discriminate |].
  apply elem_of_cons in Hin as [Hin | Hin]; [discriminate |].
  tail_cases Ht. split; [reflexivity |]. exists r2. rewrite Hd2.
  split; [reflexivity |]. split; [eauto |]. right. split; [right; left | exact He2].
Qed.

Lemma opening_loop_spec rows i res0 st :
let '(res, _, _) := run backend (OpeningStock.loop i rows res0) st in
∃ new,
  OpeningStock.errors res = OpeningStock.errors res0 ++ new
  ∧ OpeningStock.success res + length new
    = OpeningStock.success res0 + length rows
  ∧ StronglySorted lt (OpeningStock.Error.row <$> new)
  ∧ Forall (fun e => ∃ j, OpeningStock.Error.row e = i + j + 1
                          ∧ rows !! j = Some (OpeningStock.Error.data e)) new.
Proof.
revert i res0 st. induction rows as [| row rows IH]; intros i res0 st.
- simpl. exists []. rewrite app_nil_r. repeat split; try constructor; lia.
- cbn [OpeningStock.loop]. rewrite run_bind.
  unfold OpeningStock.process_row at 1. rewrite run_bind.
  destruct (run backend (OpeningStock.try_row row) st) as [[r st1] tr1].
  destruct r as [t | []]; cbn [run].
  + specialize (IH (S i)
      {| OpeningStock.success := OpeningStock.success res0;
         OpeningStock.errors :=
           OpeningStock.errors res0
           ++ [OpeningStock.Error.mk (i + 1) (catch_message t) row] |} st1).
    destruct (run backend (OpeningStock.loop (S i) rows _) st1) as [[res st2] tr2].
    destruct IH as (new & He & Hs & Hsorted & Hall). simpl in He, Hs.
    exists (OpeningStock.Error.mk (i + 1) (catch_message t) row :: new).
    rewrite He, <- app_assoc. split; [reflexivity |].
    split; [simpl; lia |]. split.
    * rewrite fmap_cons. constructor; [exact Hsorted |].
      apply Forall_fmap. eapply Forall_impl; [| exact Hall].
      intros e (j & Hj & _). simpl. lia.
    * constructor.
      -- exists 0. simpl. split; [lia | reflexivity].
      -- eapply Forall_impl; [| exact Hall]. intros e (j & Hj & Hl).
         exists (S j). split; [lia | exact Hl].
  + specialize (IH (S i)
      {| OpeningStock.success := S (OpeningStock.success res0);
         OpeningStock.errors := OpeningStock.errors res0 |} st1).
    destruct (run backend (OpeningStock.loop (S i) rows _) st1) as [[res st2] tr2].
    destruct IH as (new & He & Hs & Hsorted & Hall). simpl in He, Hs.
    exists new. split; [exact He |]. split; [simpl; lia |].
    split; [exact Hsorted |].
    eapply Forall_impl; [| exact Hall]. intros e (j & Hj & Hl).
    exists (S j). split; [lia | exact Hl].
Qed.

(** X19.  The opening-stock import accounts for every row once: the
  successes and the errors add up to the number of rows, the errors
  come in row order, numbered from 1 (index + 1, not index + 2 as in
  the item-master upload), each with the data of its row; and a row's
  failure does not stop the rows after it. *)
Theorem opening_stock_accounts_for_every_row data st :
(let '(res, _, _) := run backend (OpeningStock.processOpeningStock data) st in
 OpeningStock.success res + length (OpeningStock.errors res) = length data
 ∧ StronglySorted lt (OpeningStock.Error.row <$> OpeningStock.errors res)
 ∧ Forall (fun e => ∃ j, OpeningStock.Error.row e = j + 1
                         ∧ data !! j = Some (OpeningStock.Error.data e))
          (OpeningStock.errors res))
∧ ∀ i row rest res0 st0,
    run backend (OpeningStock.loop i (row :: rest) res0) st0
    = let '(res1, st1, tr1) :=
        run backend (OpeningStock.process_row i row res0) st0 in
      let '(res2, st2, tr2) := run backend (OpeningStock.loop (S i) rest res1) st1 in
      (res2, st2, tr1 ++ tr2).
Proof.
split.
- unfold OpeningStock.processOpeningStock.
  pose proof (opening_loop_spec data 0
                {| OpeningStock.success := 0; OpeningStock.errors := [] |} st) as H.
  destruct (run backend (OpeningStock.loop 0 data _) st) as [[res st1] tr].
  destruct H as (new & He & Hs & Hsorted & Hall). simpl in He, Hs.
  rewrite He. auto.
- intros i row rest res0 st0. cbn [OpeningStock.loop]. apply run_bind.
Qed.

End OpeningStockImport.

(** * The pages *)

Section Selection.

Import ItemMasterPage.

Lemma find_same_id_None l it :
List.find (fun selected => same_id selected it) l = None
↔ id it ∉ id <$> l.
Proof.
induction l as [| x l IH].
- simpl. split; [| reflexivity]. intros _ H. apply elem_of_nil in H. exact H.
- cbn [List.find]. rewrite fmap_cons, not_elem_of_cons. unfold same_id at 1.
  destruct (String.eqb (id x) (id it)) eqn:E.
  + apply String.eqb_eq in E. split; [discriminate | intros [H _]; congruence].
  + apply String.eqb_neq in E. rewrite IH. split; [intros H; split; congruence | tauto].
Qed.

Lemma isItemSelected_spec l it : isItemSelected l it = true ↔ id it ∈ id <$> l.
Proof.
unfold isItemSelected.
destruct (List.find _ l) eqn:E.
- split; [| reflexivity]. intros _.
  destruct (decide (id it ∈ id <$> l)) as [H | H]; [exact H |].
  apply find_same_id_None in H. congruence.
- apply find_same_id_None in E. split; [discriminate | contradiction].
Qed.

Lemma elem_of_removed l it x :
x ∈ id <$> List.filter (fun selected => negb (same_id selected it)) l
↔ x ∈ id <$> l ∧ x ≠ id it.
Proof.
rewrite !list_elem_of_fmap. split.
- intros (y & -> & Hy). apply list_elem_of_In, List.filter_In in Hy as [Hy Hn].
  apply negb_true_iff, String.eqb_neq in Hn.
  split; [exists y; split; [reflexivity | apply list_elem_of_In, Hy] | exact Hn].
- intros [(y & -> & Hy) Hn]. exists y. split; [reflexivity |].
  apply list_elem_of_In, List.filter_In. split; [apply list_elem_of_In, Hy |].
  apply negb_true_iff, String.eqb_neq, Hn.
Qed.

Lemma elem_of_toggled l it x :
x ∈ id <$> toggleItemSelection it l
↔ if decide (x = id it) then id it ∉ id <$> l else x ∈ id <$> l.
Proof.
unfold toggleItemSelection.
destruct (List.find _ l) eqn:E.
- assert (Hin : id it ∈ id <$> l).
  { apply isItemSelected_spec. unfold isItemSelected. rewrite E. reflexivity. }
  rewrite elem_of_removed. destruct (decide (x = id it)); tauto.
- apply find_same_id_None in E. rewrite fmap_app, elem_of_app. simpl.
  rewrite list_elem_of_singleton.
  destruct (decide (x = id it)) as [-> | Hne]; tauto.
Qed.

Lemma filter_none_removed l it :
id it ∉ id <$> l →
List.filter (fun selected => negb (same_id selected it)) l = l.
Proof.
induction l as [| x l IH]; [reflexivity |].
rewrite fmap_cons, not_elem_of_cons. intros [Hx Hl]. simpl.
unfold same_id at 1. rewrite (proj2 (String.eqb_neq _ _)) by congruence.
simpl. rewrite IH by exact Hl. reflexivity.
Qed.

Lemma NoDup_filter_ids l it :
NoDup (id <$> l) →
NoDup (id <$> List.filter (fun selected => negb (same_id selected it)) l).
Proof.
induction l as [| x l IH]; [constructor |].
rewrite fmap_cons. intros H. apply list.NoDup_cons in H as [Hx Hl]. simpl.
destruct (negb (same_id x it)); [| apply IH, Hl].
rewrite fmap_cons. apply list.NoDup_cons. split; [| apply IH, Hl].
intros Hin. apply elem_of_removed in Hin as [Hin _]. contradiction.
Qed.

(** X20.  Ticking an item's box flips whether that item is selected
  and leaves every other item as it was; a selection without repeated
  ids stays without repeated ids; and ticking twice an item that was
  not selected gives back the selection as it was. *)
Theorem toggling_selects_and_deselects it prev :
isItemSelected (toggleItemSelection it prev) it = negb (isItemSelected prev it)
∧ (∀ other, id other ≠ id it →
     isItemSelected (toggleItemSelection it prev) other = isItemSelected prev other)
∧ (NoDup (id <$> prev) → NoDup (id <$> toggleItemSelection it prev))
∧ (isItemSelected prev it = false →
   toggleItemSelection it (toggleItemSelection it prev) = prev).
Proof.
split; [| split; [| split]].
- apply eq_true_iff_eq. rewrite isItemSelected_spec, elem_of_toggled.
  rewrite decide_True by reflexivity. rewrite negb_true_iff.
  rewrite <- not_true_iff_false, isItemSelected_spec. tauto.
- intros other Hne. apply eq_true_iff_eq.
  rewrite !isItemSelected_spec, elem_of_toggled. rewrite decide_False by exact Hne.
  tauto.
- intros Hnd. unfold toggleItemSelection. destruct (List.find _ prev) eqn:E.
  + apply NoDup_filter_ids, Hnd.
  + apply find_same_id_None in E. rewrite fmap_app. apply list.NoDup_app.
    split; [exact Hnd |]. split; [| apply NoDup_singleton].
    intros x Hx Hin. apply list_elem_of_singleton in Hin. congruence.
- intros Hsel. apply not_true_iff_false in Hsel. rewrite isItemSelected_spec in Hsel.
  unfold toggleItemSelection at 2. rewrite (proj2 (find_same_id_None prev it) Hsel).
  unfold toggleItemSelection.
  destruct (List.find _ (prev ++ [it])) eqn:E.
  + rewrite List.filter_app. simpl. unfold same_id at 2.
    rewrite String.eqb_refl. simpl. rewrite app_nil_r.
    apply filter_none_removed, Hsel.
  + apply find_same_id_None in E. exfalso. apply E.
    rewrite fmap_app. apply elem_of_app. right. left.
Qed.

End Selection.

Section IntegrationSettings.

Import Integrations.

Lemma lookup_update_at index f l j :
update_at index f l !! j
= if decide (j = index) then f <$> l !! j else l !! j.
Proof.
unfold update_at. rewrite list_lookup_imap.
destruct (l !! j) as [x |]; simpl.
- destruct (decide (j = index)) as [-> | Hne].
  + rewrite Nat.eqb_refl. reflexivity.
  + rewrite (proj2 (Nat.eqb_neq _ _) Hne). reflexivity.
- destruct (decide _); reflexivity.
Qed.

Lemma update_at_names index f l :
(∀ x, name (f x) = name x) → name <$> update_at index f l = name <$> l.
Proof.
intros Hf. apply list_eq. intros j.
rewrite !list_lookup_fmap, lookup_update_at.
destruct (decide _); [| reflexivity].
destruct (l !! j); simpl; [rewrite Hf |]; reflexivity.
Qed.

Lemma step_keeps_consistency l e :
Forall enabled_implies_configured l → Forall enabled_implies_configured (step l e) ∧ name <$> step l e = name <$> l.
Proof.
intros H. rewrite Forall_lookup in H.
assert (Hupd : ∀ i f,
          (∀ x, l !! i = Some x → enabled_implies_configured x → enabled_implies_configured (f x)) →
          (∀ x, name (f x) = name x) →
          Forall enabled_implies_configured (update_at i f l)
          ∧ name <$> update_at i f l = name <$> l).
{ intros i f Hf Hn. split; [| apply update_at_names, Hn].
  apply Forall_lookup. intros j y. rewrite lookup_update_at.
  destruct (decide (j = i)) as [-> | Hne]; [| apply H].
  destruct (l !! i) as [x |] eqn:Hx; simpl; [| discriminate].
  intros E. inversion E; subst. apply Hf; [reflexivity |]. eapply H, Hx. }
destruct e as [i | i | i | i v]; cbn [step].
- unfold handleToggleIntegration.
  destruct (l !! i) as [x |] eqn:Hx; [| split; [apply Forall_lookup, H | reflexivity]].
  destruct (negb (configured x) && negb (enabled x)) eqn:Hg;
    [split; [apply Forall_lookup, H | reflexivity] |].
  apply Hupd; [| reflexivity]. intros y Hy Hc. rewrite Hx in Hy. inversion Hy; subst.
  unfold enabled_implies_configured in *. simpl. intros He.
  destruct (configured y), (enabled y); simpl in *; auto; discriminate.
- apply Hupd; [| reflexivity]. intros y _ _ _. reflexivity.
- apply Hupd; [| reflexivity]. intros y _ Hc. exact Hc.
- apply Hupd; [| reflexivity]. intros y _ Hc. exact Hc.
Qed.

(** X21.  Whatever the administrator does on the page (toggling,
  saving a key, testing a connection, typing a key), an integration is
  enabled only if it is configured, and the list keeps its two
  integrations, OpenAI and Email Service, in place. *)
Theorem enabled_only_if_configured events :
let integrations := foldl step initial events in
Forall (fun x => enabled x = true → configured x = true) integrations
∧ name <$> integrations = ["OpenAI"; "Email Service"].
Proof.
cbv zeta.
assert (H : ∀ l, Forall enabled_implies_configured l →
          Forall enabled_implies_configured (foldl step l events)
          ∧ name <$> foldl step l events = name <$> l).
{ induction events as [| e es IH]; intros l Hl; [auto |].
  cbn [foldl]. destruct (step_keeps_consistency l e Hl) as [Hc Hn].
  destruct (IH _ Hc) as [Hc2 Hn2]. split; [exact Hc2 | congruence]. }
apply (H initial). repeat constructor; discriminate.
Qed.

(** X22.  The switch of an integration that is neither configured nor
  enabled changes nothing and asks for configuration; the switch of a
  configured integration flips its enabled flag and nothing else, and
  flipping it again gives back the list as it was. *)
Theorem toggle_needs_configuration index integrations x :
integrations !! index = Some x →
(configured x = false → enabled x = false →
   handleToggleIntegration index integrations
   = Some (integrations, ConfigurationRequired))
∧ (configured x = true →
   ∃ after,
     handleToggleIntegration index integrations
     = Some (after, Toggled (name x) (negb (enabled x)))
     ∧ after !! index
       = Some (mk (name x) (description x) (negb (enabled x)) (configured x)
                 (apiKey x) (testConnection x))
     ∧ (∀ j, j ≠ index → after !! j = integrations !! j)
     ∧ handleToggleIntegration index after
       = Some (integrations, Toggled (name x) (enabled x))).
Proof.
intros Hx. unfold handleToggleIntegration. rewrite Hx. split.
- intros -> ->. reflexivity.
- intros Hc. rewrite Hc. cbn [negb andb]. eexists. split; [reflexivity |].
  split; [| split].
  + rewrite lookup_update_at, decide_True, Hx by reflexivity. simpl.
    rewrite Hc. reflexivity.
  + intros j Hne. rewrite lookup_update_at, decide_False by exact Hne. reflexivity.
  + rewrite lookup_update_at, decide_True, Hx by reflexivity. simpl.
    rewrite Hc. cbn [negb andb]. rewrite negb_involutive. f_equal. f_equal.
    apply list_eq. intros j. rewrite !lookup_update_at.
    destruct (decide (j = index)) as [-> | Hne]; [| reflexivity].
    rewrite Hx. simpl. rewrite negb_involutive. destruct x; reflexivity.
Qed.

End IntegrationSettings.

Section IssueForm.

Import IssuePage.
Local Open Scope Qc_scope.

(** X23.  The submit button of the issue form is enabled, its
  [disabled] attribute false, exactly when no submission is running,
  the quantity is not zero and it does not exceed the available stock
  of the selected item, which is zero when no item is selected.  So
  the button is disabled for every quantity above the available
  stock, and with no item selected it is disabled for every quantity
  from zero up, the quantities the input's [min] of 0 admits.  The
  warning "Insufficient stock!" is shown only while the button is
  disabled, and never when no item is selected. *)
Theorem submit_button_disabled_rule isSubmitting items code qty_issued :
(submit_disabled isSubmitting items code qty_issued = false
 ↔ isSubmitting = false ∧ qty_issued ≠ 0
   ∧ qty_issued <= availableStock items code)
∧ (availableStock items code < qty_issued →
   submit_disabled isSubmitting items code qty_issued = true)
∧ (selectedItem items code = None →
   availableStock items code = 0
   ∧ insufficient_stock_warning items code qty_issued = false
   ∧ (0 <= qty_issued →
      submit_disabled isSubmitting items code qty_issued = true))
∧ (insufficient_stock_warning items code qty_issued = true →
   submit_disabled isSubmitting items code qty_issued = true).
Proof.
unfold submit_disabled, insufficient_stock_warning, isStockSufficient.
assert (Hiff : isSubmitting
               || negb (bool_decide (qty_issued <= availableStock items code))
               || bool_decide (qty_issued = 0) = false
               ↔ isSubmitting = false ∧ qty_issued ≠ 0
                 ∧ qty_issued <= availableStock items code).
{ rewrite !orb_false_iff, negb_false_iff, bool_decide_eq_true, bool_decide_eq_false.
  tauto. }
split; [exact Hiff |]. split; [| split].
- intros Hlt. destruct (_ || _ || _) eqn:E; [reflexivity |].
  destruct (proj1 Hiff eq_refl) as (_ & _ & Hle). exfalso.
  apply (Qlt_irrefl qty_issued). eapply Qle_lt_trans; [exact Hle | exact Hlt].
- intros Hnone.
  assert (Ha : availableStock items code = 0)
    by (unfold availableStock; rewrite Hnone; reflexivity).
  split; [exact Ha |]. split.
  { rewrite Hnone. reflexivity. }
  intros Hpos.
  destruct (_ || _ || _) eqn:E; [reflexivity |].
  destruct (proj1 Hiff eq_refl) as (_ & Hne & Hle). exfalso.
  rewrite Ha in Hle. apply Hne. apply Qc_is_canon.
  apply Qle_antisym; [exact Hle | exact Hpos].
- intros Hw. apply andb_true_iff in Hw as [Hw _].
  apply andb_true_iff in Hw as [_ Hw]. rewrite Hw.
  rewrite orb_true_r. reflexivity.
Qed.

End IssueForm.

Section DashboardBadge.

Import Dashboard Sql.
Local Open Scope Qc_scope.

Lemma ROUND_zero d : ROUND 0 d = 0.
Proof.
unfold ROUND. rewrite Qcmult_0_l.
assert (H : round_half_away 0 = 0%Z) by reflexivity.
rewrite H. apply Qcmult_0_l.
Qed.

Lemma days_of_cover_out_of_stock scale issue issue_dscale W :
stock_summary.days_of_cover_case (mkNumeric 0 scale) issue issue_dscale W = 0.
Proof.
unfold stock_summary.days_of_cover_case.
destruct (decide (0 < COALESCE issue 0)).
- unfold div at 1. cbn [value]. unfold Qcdiv. rewrite Qcmult_0_l.
  rewrite ROUND_zero. apply ROUND_zero.
- destruct (decide _) as [[H _] | _]; [| reflexivity].
  exfalso. exact (Qlt_irrefl _ H).
Qed.

(** X24.  On the dashboard a row of the view with nothing in stock is
  badged "N/A", never "Low"; a row with stock and no issue in the last
  30 days is badged "Good (999999 days)"; and "N/A" is shown exactly
  for the rows whose days of cover are 0. *)
Theorem badge_of_view_rows db today r :
r ∈ stock_summary.view db today →
(stock_summary.current_qty r = 0 →
   getDaysOfCoverBadge (Some (stock_summary.days_of_cover r)) = NA)
∧ (stock_summary.issue_30d r = 0 → 0 < stock_summary.current_qty r →
   getDaysOfCoverBadge (Some (stock_summary.days_of_cover r)) = Good 999999)
∧ (getDaysOfCoverBadge (Some (stock_summary.days_of_cover r)) = NA
   ↔ stock_summary.days_of_cover r = 0).
Proof.
intros Hr. split; [| split].
- apply view_row in Hr as (s & Hs & ->). simpl. intros ->.
  rewrite days_of_cover_out_of_stock. reflexivity.
- apply view_row in Hr as (s & Hs & ->).
  cbn [stock_summary.select stock_summary.issue_30d stock_summary.current_qty
       stock_summary.days_of_cover].
  intros Hi Hc. unfold stock_summary.days_of_cover_case. rewrite Hi.
  destruct (decide (0 < 0)) as [H | _]; [exfalso; exact (Qlt_irrefl _ H) |].
  destruct (decide _) as [_ | N]; [| exfalso; apply N; auto].
  unfold getDaysOfCoverBadge.
  destruct (decide (lit 999999 = 0)) as [E | _]; [discriminate E |].
  destruct (decide (lit 30 < lit 999999)) as [_ | N]; [reflexivity |].
  exfalso. apply N. reflexivity.
- unfold getDaysOfCoverBadge.
  destruct (decide (stock_summary.days_of_cover r = 0)) as [E | N].
  + split; auto.
  + split; [| contradiction].
    destruct (decide _); [discriminate |]. destruct (decide _); discriminate.
Qed.

End DashboardBadge.

(** * The added properties on concrete inputs *)

Section MoreExamples.

(** The template offered for download parses to its eight headers and
  two sample rows, and passes the header check. *)
Example template_parses :
parseCSV csvContent
= inr {| headers := requiredHeaders ++ optionalHeaders;
         rows := [["Sample Item 1"; "Raw Materials"; "PCS"; "PREMIUM"; "80";
                   "100x200"; "Production"; "active"];
                  ["Sample Item 2"; "Finished Goods"; "KG"; ""; "150"; "";
                   "Maintenance"; "active"]] |}
∧ missingHeaders {| headers := requiredHeaders ++ optionalHeaders; rows := [] |} = [].
Proof. split; vm_compute; reflexivity. Qed.

Lemma quote_free_row_is_split_at_commas_witness :
no_quote "Sample Item 2,Finished Goods,KG,,150,,Maintenance,active" = true
∧ parse_row "Sample Item 2,Finished Goods,KG,,150,,Maintenance,active"
  = parse_header "Sample Item 2,Finished Goods,KG,,150,,Maintenance,active".
Proof.
split; [reflexivity |].
apply (quote_free_row_is_split_at_commas
         "Sample Item 2,Finished Goods,KG,,150,,Maintenance,active").
reflexivity.
Defined.

Lemma data_cells_have_no_quote_witness :
Forall (Forall (fun cell => no_quote cell = true)) [["a,b"; "c"]].
Proof.
apply (data_cells_have_no_quote quoted_header_text
         {| headers := ["a"; "b"; "c"]; rows := [["a,b"; "c"]] |}).
vm_compute. reflexivity.
Defined.

Lemma plain_template_headers : Forall plain_header (requiredHeaders ++ optionalHeaders).
Proof. repeat constructor. Qed.

Lemma joined_headers_read_back_witness :
parse_header (join "," (requiredHeaders ++ optionalHeaders))
= requiredHeaders ++ optionalHeaders.
Proof.
apply joined_headers_read_back; [discriminate | exact plain_template_headers].
Defined.

Lemma writable_sample_rows : Forall writable_row Sample2.written_rows.
Proof. repeat constructor; discriminate. Qed.

Lemma written_file_reads_back_witness :
parseCSV (write_csv Sample2.written_header Sample2.written_rows)
= inr {| headers := ["item_name"; "category_name"; "uom"];
         rows := Sample2.written_rows |}.
Proof.
apply (written_file_reads_back Sample2.written_header Sample2.written_rows);
  [reflexivity | reflexivity | exact writable_sample_rows].
Defined.

(** Selecting a file whose first row collides with an existing item:
  no validation error, one conflict registered as [skip], and the
  upload button opens the conflict review. *)
Example selecting_a_conflicting_file :
let '(s, _, tr) :=
  run_script Sample2.check_backend
    (handleFileChange two_categories Sample2.empty_state "items.csv" conflicting_text)
    (Sample.store None false) in
UI.validationErrors s = []
∧ (fun c => (ConflictItem.row c, ConflictItem.item_code c, ConflictItem.action c))
    <$> UI.conflicts s = [(2, Sample.bolt_code, Action.skip)]
∧ processUpload s = ReviewConflicts.
Proof. vm_compute. repeat split. Qed.

(** A header named [__proto__], in any case, gives the row object no
  column: its cell is dropped. *)
Example proto_header_is_no_column :
row_object ["item_name"; "__PROTO__"; "uom"] ["Bolt"; "zzz"; "PCS"]
= row_object ["item_name"; "uom"] ["Bolt"; "PCS"]
∧ row_object ["item_name"; "__PROTO__"; "uom"] ["Bolt"; "zzz"; "PCS"] !! "__proto__"
  = None.
Proof. split; vm_compute; reflexivity. Qed.

Lemma conflict_check_runs_only_on_valid_file_witness :
let '(s, _, tr) :=
  run_script Sample2.check_backend
    (handleFileChange two_categories Sample2.empty_state "items.csv"
       "item_name,category_name,uom")
    (Sample.store None false) in
UI.file s = Some "items.csv" ∧ UI.uploadResult s = None.
Proof.
pose proof (conflict_check_runs_only_on_valid_file Sample2.check_backend
              two_categories Sample2.empty_state "items.csv"
              "item_name,category_name,uom" (Sample.store None false) eq_refl) as H.
destruct (run_script _ _ _) as [[s st] tr].
destruct H as (Hf & Hu & _). split; assumption.
Defined.

Lemma upload_without_category_column_witness :
("category_name" ∉ JS.toLowerCase <$> headers Sample2.no_category_column)
∧ let '(res, _, tr) :=
    run Ref.backend
      (executeUpload two_categories [] Sample2.no_category_column "items.csv")
      (Sample.store None false) in
  existsb row_request tr = false.
Proof.
assert (H : "category_name" ∉ JS.toLowerCase <$> headers Sample2.no_category_column).
{ intros Hin. simpl in Hin.
  repeat (apply elem_of_cons in Hin as [Hin | Hin]; [discriminate |]).
  apply elem_of_nil in Hin. exact Hin. }
split; [exact H |].
pose proof (upload_without_category_column Ref.backend two_categories []
              Sample2.no_category_column "items.csv" (Sample.store None false) H) as Hu.
destruct (run Ref.backend _ _) as [[res st] tr]. apply Hu.
Defined.

Lemma update_action_only_updates_witness :
let '(o, _, tr) :=
  run Ref.backend
    (row_outcome two_categories (Sample.resolve Action.update) Sample.bolt_item)
    (Sample.store None false) in
existsb is_insert tr = false.
Proof.
pose proof (update_action_only_updates Ref.backend two_categories
              (Sample.resolve Action.update) Sample.bolt_item
              (ConflictItem.mk 2 Sample.bolt_code Action.update
                 (<["generated_code" := Sample.bolt_code]> (fields Sample.bolt_item)))
              (Sample.store None false) eq_refl eq_refl) as H.
destruct (run Ref.backend _ _) as [[o st] tr]. apply H.
Defined.

Lemma reported_counts_add_up_witness :
let '(res, _, tr) :=
  run Ref.backend
    (executeUpload two_categories (Sample.resolve Action.skip) Sample.two_rows
       "items.csv")
    (Sample.store (Some "u1") false) in
∃ r, res = inr r ∧ success r + length (result_errors r) = 1 ∧ total r = 2.
Proof.
pose proof (reported_counts_add_up Ref.backend two_categories
              (Sample.resolve Action.skip) Sample.two_rows "items.csv"
              (Sample.store (Some "u1") false)) as H.
cbv zeta in H.
destruct (run Ref.backend _ _) as [[res st] tr] eqn:E.
vm_compute in E. injection E as Eres _ _. subst res.
eexists. split; [reflexivity |].
destruct (H _ eq_refl) as (Hsum & _ & Htotal & _).
split; [exact Hsum | exact Htotal].
Defined.

Lemma toggle_needs_configuration_witness :
Integrations.handleToggleIntegration 0 Integrations.initial
= Some (Integrations.initial, Integrations.ConfigurationRequired).
Proof.
eapply (toggle_needs_configuration 0 Integrations.initial); reflexivity.
Defined.

Lemma badge_of_view_rows_witness :
Dashboard.getDaysOfCoverBadge
  (Some (stock_summary.days_of_cover
           (stock_summary.select Scenario.tables 0 Scenario.item)))
= Dashboard.NA
↔ stock_summary.days_of_cover (stock_summary.select Scenario.tables 0 Scenario.item)
  = Q2Qc 0.
Proof.
apply (badge_of_view_rows Scenario.tables 0 _ scenario_row).
Defined.

End MoreExamples.
